(** * The PowerShell provisioner: shallow embedding and verified properties

    Source: [provisioner/powershell/provisioner.go].

    The provisioner talks to the outside world (the local file system, the
    remote communicator, the UI, the logger, the clock).  The embedding
    threads an explicit [World] through every call: a clock and the history
    of the calls made so far, each recorded with its result.  What the
    outside world answers is given by an [Env]: every answer is a function
    of the history, so an environment can fail a call the first two times
    and let it succeed the third time. *)

From Stdlib Require Import ZArith Lia Ascii.
From Stdlib Require OrderedTypeEx.
From stdpp Require Import base list strings gmap sorting pretty.

Local Open Scope Z_scope.

(** ** Data model *)

(** A Go [error], observed through its [Error()] text; the nil error is
    [None] of [option error]. *)
Definition error := string.

(** [time.Duration] counts nanoseconds. *)
Module Time.
Definition Nanosecond : Z := 1.
Definition Second : Z := 1000000000 * Nanosecond.
Definition Minute : Z := 60 * Second.
End Time.

(** [var retryableSleep = 2 * time.Second] *)
Definition retryableSleep : Z := 2 * Time.Second.

(** [type Config struct].  A Go slice that the code compares with [nil] is
    an [option (list _)], [None] being the nil slice.  The two [Packer...]
    fields are the ones of the embedded [common.PackerConfig] that the
    provisioner reads. *)
Record Config := {
  PackerBuildName : string;
  PackerBuilderType : string;
  Binary : bool;
  Inline : option (list string);
  Script : string;
  Scripts : option (list string);
  Vars : option (list string);
  RemotePath : string;
  ExecuteCommand : string;
  ElevatedExecuteCommand : string;
  StartRetryTimeout : Z;
  EnvVarFormat : string;
  ElevatedEnvVarFormat : string;
  ElevatedUser : string;
  ElevatedPassword : string;
  ValidExitCodes : option (list Z)
}.

(** The elements of a possibly nil slice: [len] and [range] treat the nil
    slice as the empty one. *)
Definition elems {A} (s : option (list A)) : list A := default [] s.

(** [type ExecuteCommandTemplate struct { Vars string; Path string }] *)
Record ExecuteCommandTemplate := {
  Tpl_Vars : string;
  Tpl_Path : string
}.

(** The options handed to the elevated wrapper template. *)
Record elevatedOptions := {
  User : string;
  Password : string;
  TaskDescription : string;
  TaskName : string;
  EncodedCommand : string
}.

(** [packer.RemoteCmd], as far as the provisioner uses it. *)
Record RemoteCmd := {
  Command : string;
  ExitStatus : Z
}.

(** What a run of the provisioner can come to: it returns, it panics, or
    the fuel given to a retry loop ran out. *)
Inductive Run (A : Type) : Type :=
| Done (a : A)
| Panic
| OutOfFuel.

Arguments Done {A} a.
Arguments Panic {A}.
Arguments OutOfFuel {A}.

(** ** The outside world *)

(** What is uploaded: an open file (named by its local path) or a reader
    over bytes held in memory. *)
Inductive Source :=
| FromFile (path : string)
| FromBytes (content : string).

(** One call to the outside world, with its result. *)
Inductive Event :=
| UiSay (msg : string)
| UiError (msg : string)
| LogPrint (msg : string)
| Stdout (msg : string)
| OsOpen (path : string) (res : option error)
| FileSeek (path : string) (res : option error)
| FileClose (path : string)
| TempFile (res : error + string)
| WriteString (file data : string) (res : option error)
| Flush (file : string) (res : option error)
| CommUpload (remote : string) (src : Source) (res : option error)
| CommStart (command : string) (res : error + Z)
| TimeOrderedUUID (res : string)
| TimeSleep (d : Z).

Record World := {
  now : Z;
  hist : list Event
}.

(** The answers of the outside world.  The first argument of an answer is
    the history at the time of the call.  [env_elapsed h ev] is the time the
    call recorded as [ev] takes after history [h]; it cannot be negative.
    The last six fields are libraries the provisioner calls and whose code
    is not part of this file: the template engine, the PowerShell encoder
    and the elevated wrapper template of the same package, [fmt.Sprintf] at
    two string operands, and [common.GetHTTPAddr]. *)
Record Env := {
  env_elapsed : list Event → Event → N;
  env_open : list Event → string → option error;
  env_seek : list Event → string → option error;
  env_tempfile : list Event → error + string;
  env_write : list Event → string → string → option error;
  env_flush : list Event → string → option error;
  env_upload : list Event → string → Source → option error;
  env_start : list Event → string → error + Z;
  env_uuid : list Event → string;
  env_render : string → ExecuteCommandTemplate → error + string;
  env_powershellEncode : string → error + string;
  env_elevatedTemplate : elevatedOptions → error + string;
  env_sprintf : string → string → string → string;
  env_httpAddr : string
}.

Section Provisioner.

Variable env : Env.

(** Record a call: it takes its time and joins the history. *)
Definition emit (ev : Event) (w : World) : World :=
  {| now := now w + Z.of_N (env_elapsed env (hist w) ev);
     hist := hist w ++ [ev] |}.

Definition ui_Say (msg : string) : World → World := emit (UiSay msg).
Definition ui_Error (msg : string) : World → World := emit (UiError msg).
Definition log_Print (msg : string) : World → World := emit (LogPrint msg).
Definition fmt_Printf (msg : string) : World → World := emit (Stdout msg).

Definition os_Open (path : string) (w : World) : option error * World :=
  let r := env_open env (hist w) path in (r, emit (OsOpen path r) w).

(** [f.Seek(0, 0)] *)
Definition file_Seek (path : string) (w : World) : option error * World :=
  let r := env_seek env (hist w) path in (r, emit (FileSeek path r) w).

Definition file_Close (path : string) : World → World :=
  emit (FileClose path).

Definition ioutil_TempFile (w : World) : (error + string) * World :=
  let r := env_tempfile env (hist w) in (r, emit (TempFile r) w).

Definition writer_WriteString (file data : string) (w : World)
  : option error * World :=
  let r := env_write env (hist w) file data in
  (r, emit (WriteString file data r) w).

Definition writer_Flush (file : string) (w : World) : option error * World :=
  let r := env_flush env (hist w) file in (r, emit (Flush file r) w).

Definition comm_Upload (remote : string) (src : Source) (w : World)
  : option error * World :=
  let r := env_upload env (hist w) remote src in
  (r, emit (CommUpload remote src r) w).

(** [cmd.StartWithUi(comm, ui)]: starts the command and, when it started,
    waits for its exit status. *)
Definition StartWithUi (command : string) (w : World)
  : (error + Z) * World :=
  let r := env_start env (hist w) command in
  (r, emit (CommStart command r) w).

Definition uuid_TimeOrderedUUID (w : World) : string * World :=
  let r := env_uuid env (hist w) in (r, emit (TimeOrderedUUID r) w).

(** [time.Sleep(d)] pauses for at least [d]. *)
Definition time_Sleep (d : Z) (w : World) : World :=
  emit (TimeSleep d) {| now := now w + Z.max 0 d; hist := hist w |}.

(** ** [retryable] *)

(** A Go closure of type [func() error]: besides the world it may change
    the variables it captured, of type [C]. *)
Definition Closure (C : Type) : Type := C → World → option error * C * World.

(** The [for] loop of [retryable].  [deadline] is the instant at which the
    channel of [time.After] becomes ready; the [select] with a [default]
    branch takes the timeout branch exactly when that instant has been
    reached.  [fuel] bounds the number of iterations. *)
Fixpoint retryable_loop {C} (fuel : nat) (deadline : Z) (f : Closure C)
    (c : C) (w : World) : option (option error * C * World) :=
  match fuel with
  | O => None
  | S fuel' =>
      let '(r, c1, w1) := f c w in
      match r with
      | None => Some (None, c1, w1)
      | Some e =>
          let err := "Retryable error: " +:+ e in
          let w2 := log_Print err w1 in
          if decide (deadline ≤ now w2) then Some (Some err, c1, w2)
          else retryable_loop fuel' deadline f c1
                 (time_Sleep retryableSleep w2)
      end
  end.

Definition retryable {C} (fuel : nat) (cfg : Config) (f : Closure C)
    (c : C) (w : World) : option (option error * C * World) :=
  let startTimeout := now w + StartRetryTimeout cfg in
  retryable_loop fuel startTimeout f c w.


(** ** Environment assembler *)

(** The text before and after the first occurrence of the byte [sep]. *)
Fixpoint cut (sep : ascii) (s : string) : option (string * string) :=
  match s with
  | EmptyString => None
  | String a s' =>
      if decide (a = sep) then Some (EmptyString, s')
      else match cut sep s' with
           | Some (k, v) => Some (String a k, v)
           | None => None
           end
  end.

(** [strings.SplitN(s, "=", 2)]: at most two pieces, cut at the first [=]. *)
Definition SplitN_eq_2 (s : string) : list string :=
  match cut "="%char s with
  | Some (k, v) => [k; v]
  | None => [s]
  end.

(** The loop over [p.config.Vars].  Indexing [keyValue[1]] of a one-element
    slice panics: [None]. *)
Fixpoint assignVars (vars : list string) (envVars : gmap string string)
    : option (gmap string string) :=
  match vars with
  | [] => Some envVars
  | envVar :: rest =>
      let keyValue := SplitN_eq_2 envVar in
      match keyValue !! 0%nat, keyValue !! 1%nat with
      | Some k, Some v => assignVars rest (<[k := v]> envVars)
      | _, _ => None
      end
  end.

(** The map [envVars] once both loops that fill it are done. *)
Definition mergedEnvVars (cfg : Config) : option (gmap string string) :=
  let envVars : gmap string string := ∅ in
  let envVars := <["PACKER_BUILD_NAME" := PackerBuildName cfg]> envVars in
  let envVars := <["PACKER_BUILDER_TYPE" := PackerBuilderType cfg]> envVars in
  let httpAddr := env_httpAddr env in
  let envVars :=
    if decide (httpAddr ≠ "") then <["PACKER_HTTP_ADDR" := httpAddr]> envVars
    else envVars in
  assignVars (elems (Vars cfg)) envVars.

(** [sort.Strings]: ascending in Go's order on strings, which compares
    them byte by byte, as [String.le] does.  Which sorting algorithm runs
    does not matter for a list of distinct strings. *)
Definition sort_Strings (keys : list string) : list string :=
  merge_sort String.le keys.

(** [for k := range envVars { keys = append(keys, k) }].  Go leaves the
    order of this iteration open; the order taken here is the one of
    [map_to_list], and [sort_Strings_order_irrelevant] shows that the
    sorted slice is the same for every other order. *)
Definition rangeKeys (envVars : gmap string string) : list string :=
  (map_to_list envVars).*1.

(** The last loop: [flattened += fmt.Sprintf(format, key, envVars[key])]. *)
Definition flatten (format : string) (envVars : gmap string string)
    (keys : list string) : string :=
  foldl (λ flattened key,
           flattened +:+ env_sprintf env format key (default "" (envVars !! key)))
        "" keys.

Definition createFlattenedEnvVars (cfg : Config) (elevated : bool)
    : option string :=
  match mergedEnvVars cfg with
  | None => None
  | Some envVars =>
      let keys := sort_Strings (rangeKeys envVars) in
      let format :=
        if elevated then ElevatedEnvVarFormat cfg else EnvVarFormat cfg in
      Some (flatten format envVars keys)
  end.

(** ** Command renderer and elevation wrapper *)

Definition generateCommandLineRunner (command : string) (w : World)
    : (error + string) * World :=
  let w1 := log_Print ("Building command line for: " +:+ command) w in
  match env_powershellEncode env command with
  | inl err => (inl ("Error encoding command: " +:+ err), w1)
  | inr base64EncodedCommand =>
      (inr ("powershell -executionpolicy bypass -encodedCommand "
            +:+ base64EncodedCommand), w1)
  end.

(** A function that can panic returns [None] when it does. *)
Definition createCommandTextNonPrivileged (cfg : Config) (w : World)
    : option ((error + string) * World) :=
  match createFlattenedEnvVars cfg false with
  | None => None
  | Some flattenedEnvVars =>
      let data := {| Tpl_Vars := flattenedEnvVars;
                     Tpl_Path := RemotePath cfg |} in
      match env_render env (ExecuteCommand cfg) data with
      | inl err => Some (inl ("Error processing command: " +:+ err), w)
      | inr command =>
          let '(r, w1) := generateCommandLineRunner command w in
          match r with
          | inl err =>
              Some (inl ("Error generating command line runner: " +:+ err), w1)
          | inr commandText => Some (inr commandText, w1)
          end
      end
  end.

(** The two spellings of the wrapper's path: the one given to the upload,
    in PowerShell syntax, and the one returned, in CMD syntax. *)
Definition elevatedUploadPath (uuid : string) : string :=
  "${env:TEMP}\packer-elevated-shell-" +:+ uuid +:+ ".ps1".

Definition elevatedReturnPath (uuid : string) : string :=
  "%TEMP%\packer-elevated-shell" +:+ "-" +:+ uuid +:+ ".ps1".

Definition generateElevatedRunner (cfg : Config) (command : string) (w : World)
    : (error + string) * World :=
  let w1 := log_Print ("Building elevated command wrapper for: " +:+ command) w in
  match env_powershellEncode env command with
  | inl err => (inl ("Error encoding command: " +:+ err), w1)
  | inr base64EncodedCommand =>
      let '(taskUuid, w2) := uuid_TimeOrderedUUID w1 in
      let options := {| User := ElevatedUser cfg;
                        Password := ElevatedPassword cfg;
                        TaskDescription := "Packer elevated task";
                        TaskName := "packer-" +:+ taskUuid;
                        EncodedCommand := base64EncodedCommand |} in
      match env_elevatedTemplate env options with
      | inl err =>
          (inl err, fmt_Printf ("Error creating elevated template: " +:+ err) w2)
      | inr buffer =>
          let '(uuid, w3) := uuid_TimeOrderedUUID w2 in
          let path := elevatedUploadPath uuid in
          let w4 :=
            log_Print ("Uploading elevated shell wrapper for command ["
                       +:+ command +:+ "] to [" +:+ path +:+ "]") w3 in
          let '(r, w5) := comm_Upload path (FromBytes buffer) w4 in
          match r with
          | Some err =>
              (inl ("Error preparing elevated powershell script: " +:+ err), w5)
          | None => (inr (elevatedReturnPath uuid), w5)
          end
      end
  end.

(** The double quote, as a one-byte string. *)
Definition dquote : string := String "034"%char EmptyString.

(** The line feed, as a one-byte string. *)
Definition newline : string := String "010"%char EmptyString.

Definition envVarUploadPath (uuid : string) : string :=
  "${env:TEMP}\packer-env-vars-" +:+ uuid +:+ ".ps1".

Definition createCommandTextPrivileged (cfg : Config) (w : World)
    : option ((error + string) * World) :=
  match createFlattenedEnvVars cfg true with
  | None => None
  | Some flattenedEnvVars =>
      let '(uuid, w1) := uuid_TimeOrderedUUID w in
      let envVarPath := envVarUploadPath uuid in
      let w2 := log_Print ("Uploading env vars to " +:+ envVarPath) w1 in
      let '(r, w3) := comm_Upload envVarPath (FromBytes flattenedEnvVars) w2 in
      match r with
      | Some err =>
          Some (inl ("Error preparing elevated powershell script: " +:+ err), w3)
      | None =>
          let data := {| Tpl_Vars := envVarPath;
                         Tpl_Path := RemotePath cfg |} in
          match env_render env (ElevatedExecuteCommand cfg) data with
          | inl err => Some (inl ("Error processing command: " +:+ err), w3)
          | inr command =>
              let '(r, w4) := generateElevatedRunner cfg command w3 in
              match r with
              | inl err =>
                  Some (inl ("Error generating elevated runner: " +:+ err), w4)
              | inr path =>
                  Some (inr ("powershell -executionpolicy bypass -file "
                             +:+ dquote +:+ path +:+ dquote), w4)
              end
          end
      end
  end.

Definition createCommandText (cfg : Config) (w : World)
    : option ((error + string) * World) :=
  if decide (ElevatedUser cfg = "") then createCommandTextNonPrivileged cfg w
  else createCommandTextPrivileged cfg w.

(** ** Executor *)

(** The loop of [extractScript] over the inline commands. *)
Fixpoint writeCommands (file : string) (commands : list string) (w : World)
    : option error * World :=
  match commands with
  | [] => (None, w)
  | command :: rest =>
      let w1 := log_Print ("Found command: " +:+ command) w in
      let '(r, w2) := writer_WriteString file (command +:+ newline) w1 in
      match r with
      | Some err =>
          (Some ("Error preparing powershell script: " +:+ err), w2)
      | None => writeCommands file rest w2
      end
  end.

(** [extractScript] returns a pair [(string, error)]; the file it created
    is closed on every way out after its creation ([defer temp.Close()]). *)
Definition extractScript (cfg : Config) (w : World)
    : string * option error * World :=
  let '(r, w1) := ioutil_TempFile w in
  match r with
  | inl err => ("", Some err, w1)
  | inr temp =>
      let '(r, w2) := writeCommands temp (elems (Inline cfg)) w1 in
      match r with
      | Some err => ("", Some err, file_Close temp w2)
      | None =>
          let '(r, w3) := writer_Flush temp w2 in
          match r with
          | Some err =>
              ("", Some ("Error preparing powershell script: " +:+ err),
               file_Close temp w3)
          | None => (temp, None, file_Close temp w3)
          end
      end
  end.

(** The closure handed to [retryable] by [Provision].  It captures the
    variable [cmd], a pointer that is nil until the closure assigns it. *)
Definition uploadAndStart (cfg : Config) (path command : string)
    : Closure (option RemoteCmd) :=
  λ cmd w,
    let '(r, w1) := file_Seek path w in
    match r with
    | Some err => (Some err, cmd, w1)
    | None =>
        let '(r, w2) := comm_Upload (RemotePath cfg) (FromFile path) w1 in
        match r with
        | Some err => (Some ("Error uploading script: " +:+ err), cmd, w2)
        | None =>
            let '(r, w3) := StartWithUi command w2 in
            match r with
            | inl err =>
                (Some err, Some {| Command := command; ExitStatus := 0 |}, w3)
            | inr status =>
                (None, Some {| Command := command; ExitStatus := status |}, w3)
            end
        end
    end.

(** [%v] of a slice of integers: the elements in decimal, separated by one
    space, in square brackets. *)
Fixpoint join_space (l : list string) : string :=
  match l with
  | [] => ""
  | [x] => x
  | x :: rest => x +:+ " " +:+ join_space rest
  end.

Definition fmt_d (n : Z) : string := pretty n.

Definition fmt_v (l : list Z) : string :=
  "[" +:+ join_space (fmt_d <$> l) +:+ "]".

(** The loop that looks the exit status up in [ValidExitCodes]. *)
Definition validExitCode (status : Z) (codes : list Z) : bool :=
  foldl (λ valid v, if decide (status = v) then true else valid) false codes.

(** One iteration of the loop over the scripts.  [deferred] holds the files
    whose [Close] has been deferred, the latest first. *)
Definition provisionScript (fuel : nat) (cfg : Config) (path : string)
    (deferred : list string) (w : World)
    : Run (option error * list string * World) :=
  let w1 := ui_Say ("Provisioning with powershell script: " +:+ path) w in
  let w2 := log_Print ("Opening " +:+ path +:+ " for reading") w1 in
  let '(r, w3) := os_Open path w2 in
  match r with
  | Some err =>
      Done (Some ("Error opening powershell script: " +:+ err), deferred, w3)
  | None =>
      let deferred := path :: deferred in
      match createCommandText cfg w3 with
      | None => Panic
      | Some (inl err, w4) =>
          Done (Some ("Error processing command: " +:+ err), deferred, w4)
      | Some (inr command, w4) =>
          match retryable fuel cfg (uploadAndStart cfg path command) None w4 with
          | None => OutOfFuel
          | Some (Some err, _, w5) => Done (Some err, deferred, w5)
          | Some (None, cmd, w5) =>
              let w6 := file_Close path w5 in
              match cmd with
              | None => Panic
              | Some cmd =>
                  if validExitCode (ExitStatus cmd) (elems (ValidExitCodes cfg))
                  then Done (None, deferred, w6)
                  else Done (Some ("Script exited with non-zero exit status: "
                                   +:+ fmt_d (ExitStatus cmd)
                                   +:+ ". Allowed exit codes are: "
                                   +:+ fmt_v (elems (ValidExitCodes cfg))),
                             deferred, w6)
              end
          end
      end
  end.

(** [for _, path := range scripts]: the first iteration that returns an
    error ends the loop and the function. *)
Fixpoint provisionScripts (fuel : nat) (cfg : Config) (scripts : list string)
    (deferred : list string) (w : World)
    : Run (option error * list string * World) :=
  match scripts with
  | [] => Done (None, deferred, w)
  | path :: rest =>
      match provisionScript fuel cfg path deferred w with
      | Done (None, deferred', w') =>
          provisionScripts fuel cfg rest deferred' w'
      | other => other
      end
  end.

(** The deferred [Close] calls run when [Provision] returns, the latest
    first. *)
Definition runDeferred (deferred : list string) (w : World) : World :=
  foldl (λ w path, file_Close path w) w deferred.

(** The script list of [Provision]: the configured files, then the file the
    inline commands were written to.  The path [extractScript] returned is
    appended whether or not it also returned an error. *)
Definition scriptList (cfg : Config) (w : World) : list string * World :=
  let scripts := elems (Scripts cfg) in
  match Inline cfg with
  | None => (scripts, w)
  | Some _ =>
      let '(temp, err, w1) := extractScript cfg w in
      let w2 :=
        match err with
        | Some e =>
            ui_Error ("Unable to extract inline scripts into a file: " +:+ e) w1
        | None => w1
        end in
      (scripts ++ [temp], w2)
  end.

Definition Provision (fuel : nat) (cfg : Config) (w : World)
    : Run (option error * World) :=
  let w1 := ui_Say "Provisioning with Powershell..." w in
  let '(scripts, w2) := scriptList cfg w1 in
  match provisionScripts fuel cfg scripts [] w2 with
  | Done (r, deferred, w3) => Done (r, runDeferred deferred w3)
  | Panic => Panic
  | OutOfFuel => OutOfFuel
  end.

End Provisioner.

(** ** Configuration: [Prepare] *)

(** Modelled from the spec: [packer.MultiError] and
    [packer.MultiErrorAppend] (package [packer], outside the provisioner's
    source file).  The spec has configuration errors "collected and returned
    as one aggregate": the aggregate is the list of the collected errors, in
    the order they were found, and appending to the nil aggregate starts a
    new list. *)
Definition MultiError : Type := list error.

Definition MultiErrorAppend (errs : option MultiError) (err : error)
    : option MultiError :=
  Some (elems errs ++ [err]).

(** What [Prepare] returns when it is not nil: the error of
    [config.Decode], or the aggregate. *)
Inductive PrepareError :=
| DecodeError (err : error)
| Aggregate (errs : MultiError).

Definition defaultEnvVarFormat : string :=
  "$env:%s=" +:+ dquote +:+ "%s" +:+ dquote +:+ "; ".

Definition defaultExecuteCommand : string :=
  "if (Test-Path variable:global:ProgressPreference){$ProgressPreference='SilentlyContinue'};{{.Vars}}&'{{.Path}}';exit $LastExitCode".

Definition defaultElevatedExecuteCommand : string :=
  "if (Test-Path variable:global:ProgressPreference){$ProgressPreference='SilentlyContinue'}; . {{.Vars}}; &'{{.Path}}'; exit $LastExitCode".

Definition orDefault (s d : string) : string :=
  if decide (s = "") then d else s.

(** The assignments of defaults at the head of [Prepare].  [uuid] is what
    [uuid.TimeOrderedUUID()] gives if it is called. *)
Definition applyDefaults (uuid : string) (c : Config) : Config :=
  {| PackerBuildName := PackerBuildName c;
     PackerBuilderType := PackerBuilderType c;
     Binary := Binary c;
     Inline := match Inline c with
               | Some [] => None
               | other => other
               end;
     Script := Script c;
     Scripts := match Scripts c with
                | None => Some []
                | other => other
                end;
     Vars := match Vars c with
             | None => Some []
             | other => other
             end;
     RemotePath :=
       orDefault (RemotePath c) ("c:/Windows/Temp/script-" +:+ uuid +:+ ".ps1");
     ExecuteCommand := orDefault (ExecuteCommand c) defaultExecuteCommand;
     ElevatedExecuteCommand :=
       orDefault (ElevatedExecuteCommand c) defaultElevatedExecuteCommand;
     StartRetryTimeout :=
       if decide (StartRetryTimeout c = 0) then 5 * Time.Minute
       else StartRetryTimeout c;
     EnvVarFormat := orDefault (EnvVarFormat c) defaultEnvVarFormat;
     ElevatedEnvVarFormat := orDefault (ElevatedEnvVarFormat c) defaultEnvVarFormat;
     ElevatedUser := ElevatedUser c;
     ElevatedPassword := ElevatedPassword c;
     ValidExitCodes := match ValidExitCodes c with
                       | None => Some [0]
                       | other => other
                       end |}.

(** [p.config.Scripts = []string{p.config.Script}] *)
Definition singleScript (c : Config) : Config :=
  {| PackerBuildName := PackerBuildName c;
     PackerBuilderType := PackerBuilderType c;
     Binary := Binary c;
     Inline := Inline c;
     Script := Script c;
     Scripts := Some [Script c];
     Vars := Vars c;
     RemotePath := RemotePath c;
     ExecuteCommand := ExecuteCommand c;
     ElevatedExecuteCommand := ElevatedExecuteCommand c;
     StartRetryTimeout := StartRetryTimeout c;
     EnvVarFormat := EnvVarFormat c;
     ElevatedEnvVarFormat := ElevatedEnvVarFormat c;
     ElevatedUser := ElevatedUser c;
     ElevatedPassword := ElevatedPassword c;
     ValidExitCodes := ValidExitCodes c |}.

Definition when (b : bool) (err : error) (errs : option MultiError)
    : option MultiError :=
  if b then MultiErrorAppend errs err else errs.

(** The loop over the scripts that calls [os.Stat]. *)
Definition checkScripts (stat : string → option error) (scripts : list string)
    (errs : option MultiError) : option MultiError :=
  foldl (λ errs path,
           match stat path with
           | Some err =>
               MultiErrorAppend errs ("Bad script '" +:+ path +:+ "': " +:+ err)
           | None => errs
           end)
        errs scripts.

(** The test on one environment variable: [len(vs) != 2 || vs[0] == ""]. *)
Definition badVar (kv : string) : bool :=
  let vs := SplitN_eq_2 kv in
  negb (length vs =? 2)%nat || bool_decide (vs !! 0%nat = Some "").

Definition checkVars (vars : list string) (errs : option MultiError)
    : option MultiError :=
  foldl (λ errs kv,
           when (badVar kv)
                ("Environment variable not in format 'key=value': " +:+ kv)
                errs)
        errs vars.

(** The checks of [Prepare], in source order; the third component of the
    result of [Prepare] is built from their result. *)
Definition validate (stat : string → option error) (c : Config)
    : Config * option MultiError :=
  let errs : option MultiError := None in
  let errs :=
    when (bool_decide (Script c ≠ "") && (0 <? length (elems (Scripts c)))%nat)
         "Only one of script or scripts can be specified." errs in
  let errs :=
    when (bool_decide (ElevatedUser c ≠ "")
          && bool_decide (ElevatedPassword c = ""))
         "Must supply an 'elevated_password' if 'elevated_user' provided" errs in
  let errs :=
    when (bool_decide (ElevatedUser c = "")
          && bool_decide (ElevatedPassword c ≠ ""))
         "Must supply an 'elevated_user' if 'elevated_password' provided" errs in
  let c := if decide (Script c ≠ "") then singleScript c else c in
  let errs :=
    if (length (elems (Scripts c)) =? 0)%nat && bool_decide (Inline c = None)
    then MultiErrorAppend errs
           "Either a script file or inline script must be specified."
    else if (0 <? length (elems (Scripts c)))%nat
            && bool_decide (Inline c ≠ None)
    then MultiErrorAppend errs
           "Only a script file or an inline script can be specified, not both."
    else errs in
  let errs := checkScripts stat (elems (Scripts c)) errs in
  let errs := checkVars (elems (Vars c)) errs in
  (c, errs).

(** [Prepare], after [config.Decode] has filled the configuration:
    [decodeErr] is the error of the decoding and [decoded] its result.
    [stat] answers [os.Stat]. *)
Definition Prepare (stat : string → option error) (uuid : string)
    (decodeErr : option error) (decoded : Config)
    : Config * option PrepareError :=
  match decodeErr with
  | Some err => (decoded, Some (DecodeError err))
  | None =>
      let '(c, errs) := validate stat (applyDefaults uuid decoded) in
      (c, Aggregate <$> errs)
  end.

(** * Specification vocabulary *)

(** A closure during which the clock does not run backwards. *)
Definition steady {C} (f : Closure C) : Prop :=
  ∀ c w, now w ≤ now (f c w).2.

(** The closure [f], instrumented: beside what [f] captured it keeps the
    list of the results of its invocations, in order.  Nothing else
    changes. *)
Definition recording {C} (f : Closure C) : Closure (C * list (option error)) :=
  λ cl w,
    let '(r, c1, w1) := f cl.1 w in
    (r, (c1, cl.2 ++ [r]), w1).

(** A number of iterations that [retryable] never exceeds when [remaining]
    is the time left until the deadline on entry. *)
Definition retry_fuel (remaining : Z) : nat :=
  S (Z.to_nat ((remaining + retryableSleep) / retryableSleep)).

(** A run of the retry loop that ends by giving up, told the way the
    specification tells it: an attempt fails and its error is logged as
    retryable; if the deadline has been reached, that error is what the
    loop returns, and nothing else happens; if it has not, the loop sleeps
    [retryableSleep] and makes another attempt. *)
Inductive gives_up (env : Env) (deadline : Z) {C} (f : Closure C)
    : C → World → error → World → Prop :=
| gives_up_now c w e c1 w1 :
    f c w = (Some e, c1, w1) →
    deadline ≤ now (log_Print env ("Retryable error: " +:+ e) w1) →
    gives_up env deadline f c w
      ("Retryable error: " +:+ e)
      (log_Print env ("Retryable error: " +:+ e) w1)
| gives_up_later c w e c1 w1 err w' :
    f c w = (Some e, c1, w1) →
    now (log_Print env ("Retryable error: " +:+ e) w1) < deadline →
    gives_up env deadline f c1
      (time_Sleep env retryableSleep
         (log_Print env ("Retryable error: " +:+ e) w1)) err w' →
    gives_up env deadline f c w err w'.

(** The events of one attempt of [uploadAndStart] whose command fails to
    start with [e], followed by what the retry loop does before the next
    attempt; and the events of an attempt whose command starts and exits
    with [status]. *)
Definition failed_round (cfg : Config) (path command : string) (e : error)
    : list Event :=
  [FileSeek path None;
   CommUpload (RemotePath cfg) (FromFile path) None;
   CommStart command (inl e);
   LogPrint ("Retryable error: " +:+ e);
   TimeSleep retryableSleep].

Definition successful_round (cfg : Config) (path command : string) (status : Z)
    : list Event :=
  [FileSeek path None;
   CommUpload (RemotePath cfg) (FromFile path) None;
   CommStart command (inr status)].

Definition is_start (ev : Event) : bool :=
  match ev with CommStart _ _ => true | _ => false end.

Definition is_upload_of (path : string) (ev : Event) : bool :=
  match ev with
  | CommUpload _ (FromFile p) _ => bool_decide (p = path)
  | _ => false
  end.

Definition count_starts (h : list Event) : nat :=
  length (List.filter is_start h).

Definition count_uploads_of (path : string) (h : list Event) : nat :=
  length (List.filter (is_upload_of path) h).

(** The strings of a list, one after the other, with nothing in between. *)
Definition concat_all (l : list string) : string :=
  foldr String.append "" l.

(** The configuration [c] with other environment variables. *)
Definition withVars (vars : option (list string)) (c : Config) : Config :=
  {| PackerBuildName := PackerBuildName c;
     PackerBuilderType := PackerBuilderType c;
     Binary := Binary c;
     Inline := Inline c;
     Script := Script c;
     Scripts := Scripts c;
     Vars := vars;
     RemotePath := RemotePath c;
     ExecuteCommand := ExecuteCommand c;
     ElevatedExecuteCommand := ElevatedExecuteCommand c;
     StartRetryTimeout := StartRetryTimeout c;
     EnvVarFormat := EnvVarFormat c;
     ElevatedEnvVarFormat := ElevatedEnvVarFormat c;
     ElevatedUser := ElevatedUser c;
     ElevatedPassword := ElevatedPassword c;
     ValidExitCodes := ValidExitCodes c |}.

(** An environment variable in the format [key=value]: it has a [=], so
    that [strings.SplitN] cuts it in two.  ([Prepare] also rejects the
    empty key.) *)
Definition wellFormedVar (kv : string) : Prop := is_Some (cut "="%char kv).

(** The key of an environment variable, if it has one. *)
Definition keyOf (kv : string) : option string := fst <$> cut "="%char kv.

(** The format string that [createFlattenedEnvVars] picks. *)
Definition formatOf (cfg : Config) (elevated : bool) : string :=
  if elevated then ElevatedEnvVarFormat cfg else EnvVarFormat cfg.

(** * Outside worlds for the examples *)

(** [fmt.Sprintf] for formats whose only verb is [%s]. *)
Fixpoint sprintf_s (format : string) (args : list string) : string :=
  match format with
  | EmptyString => EmptyString
  | String "%" (String "s" rest) =>
      match args with
      | a :: args' => a +:+ sprintf_s rest args'
      | [] => "%!s(MISSING)" +:+ sprintf_s rest []
      end
  | String c rest => String c (sprintf_s rest args)
  end.

(** An outside world in which every call takes a millisecond, no local
    file operation and no upload fails, and the remote side starts
    commands as [start] says. *)
Definition demo_env (start : list Event → string → error + Z) : Env :=
  {| env_elapsed := λ _ _, 1000000%N;
     env_open := λ _ _, None;
     env_seek := λ _ _, None;
     env_tempfile := λ _, inr "/tmp/packer-powershell-provisioner001";
     env_write := λ _ _ _, None;
     env_flush := λ _ _, None;
     env_upload := λ _ _ _, None;
     env_start := start;
     env_uuid := λ h, "uuid-" +:+ pretty (length h);
     env_render := λ _ data, inr (Tpl_Vars data +:+ "&'" +:+ Tpl_Path data +:+ "'");
     env_powershellEncode := λ command, inr ("base64(" +:+ command +:+ ")");
     env_elevatedTemplate := λ options, inr ("schtasks " +:+ TaskName options);
     env_sprintf := λ format key value, sprintf_s format [key; value];
     env_httpAddr := "" |}.

(** The command fails to start [failures] times, then runs and exits with
    [status]. *)
Definition flaky_start (failures : nat) (status : Z)
    : list Event → string → error + Z :=
  λ h _, if decide (count_starts h < failures)%nat
         then inl "connection refused" else inr status.

(** The command never starts. *)
Definition never_start : list Event → string → error + Z :=
  λ _ _, inl "connection refused".

Definition demo_config : Config :=
  {| PackerBuildName := "build";
     PackerBuilderType := "amazon-ebs";
     Binary := false;
     Inline := None;
     Script := "";
     Scripts := Some ["a.ps1"];
     Vars := Some ["FOO=bar"; "BAR=baz=qux"];
     RemotePath := "c:/Windows/Temp/script.ps1";
     ExecuteCommand := defaultExecuteCommand;
     ElevatedExecuteCommand := defaultElevatedExecuteCommand;
     StartRetryTimeout := 5 * Time.Second;
     EnvVarFormat := defaultEnvVarFormat;
     ElevatedEnvVarFormat := defaultEnvVarFormat;
     ElevatedUser := "";
     ElevatedPassword := "";
     ValidExitCodes := Some [0; 3010] |}.

Definition world0 : World := {| now := 0; hist := [] |}.

(** The world [Provision] reaches in the example, once it has opened
    [a.ps1] and rendered the command, and the command it rendered. *)
Definition demo_opened (env : Env) : World :=
  (os_Open env "a.ps1"
     (log_Print env "Opening a.ps1 for reading"
        (ui_Say env "Provisioning with powershell script: a.ps1" world0))).2.

Definition demo_rendered (env : Env) : World :=
  match createCommandText env demo_config (demo_opened env) with
  | Some (_, w) => w
  | None => world0
  end.

Definition demo_command (env : Env) : string :=
  match createCommandText env demo_config (demo_opened env) with
  | Some (inr command, _) => command
  | _ => ""
  end.

(** The environment variables of a list, cut into key and value; one that
    has no [=] is left out. *)
Definition parseVars (vars : list string) : list (string * string) :=
  omap (cut "="%char) vars.

(** The assignments of the second loop of [createFlattenedEnvVars], as a
    fold: a later assignment to a key overwrites an earlier one. *)
Definition assignAll (kvs : list (string * string))
    (envVars : gmap string string) : gmap string string :=
  foldl (λ m kv, <[kv.1 := kv.2]> m) envVars kvs.

(** The map before the user's variables are merged in. *)
Definition reservedEnvVars (env : Env) (cfg : Config) : gmap string string :=
  let envVars : gmap string string := ∅ in
  let envVars := <["PACKER_BUILD_NAME" := PackerBuildName cfg]> envVars in
  let envVars := <["PACKER_BUILDER_TYPE" := PackerBuilderType cfg]> envVars in
  if decide (env_httpAddr env ≠ "")
  then <["PACKER_HTTP_ADDR" := env_httpAddr env]> envVars
  else envVars.

(** One entry of the flattened string. *)
Definition entry (env : Env) (format : string) (envVars : gmap string string)
    (key : string) : string :=
  env_sprintf env format key (default "" (envVars !! key)).

(** * Further vocabulary *)

(** Does the byte [c] occur in [s]? *)
Fixpoint occurs (c : ascii) (s : string) : bool :=
  match s with
  | EmptyString => false
  | String a s' => bool_decide (a = c) || occurs c s'
  end.

(** The events of a successful [extractScript] for one inline command. *)
Definition command_written (temp command : string) : list Event :=
  [LogPrint ("Found command: " +:+ command);
   WriteString temp (command +:+ newline) None].

(** The scripts a history shows as opened, and as closed. *)
Definition opened_in (t : list Event) : list string :=
  omap (λ ev, match ev with OsOpen path None => Some path | _ => None end) t.

(** An event that talks to the remote machine or draws a unique
    identifier. *)
Definition is_remote (ev : Event) : bool :=
  match ev with
  | CommUpload _ _ _ | CommStart _ _ | TimeOrderedUUID _ => true
  | _ => false
  end.

(** The events by which a script is run to a good end. *)
Definition script_ran (cfg : Config) (path command : string) (status : Z)
    : list Event :=
  [FileSeek path None;
   CommUpload (RemotePath cfg) (FromFile path) None;
   CommStart command (inr status);
   FileClose path].

(** The scripts [Prepare] leaves to be run. *)
Definition scriptsToRun (c : Config) : list string :=
  if decide (Script c = "") then elems (Scripts c) else [Script c].

(** The uploads of local files a history shows: where to, and which
    file. *)
Definition file_uploads (t : list Event) : list (string * string) :=
  omap (λ ev, match ev with
              | CommUpload remote (FromFile path) _ => Some (remote, path)
              | _ => None
              end) t.

(** * The clock and the history *)

Section WorldFacts.

Variable env : Env.

Lemma now_emit (ev : Event) (w : World) : now w ≤ now (emit env ev w).
Proof. unfold emit; simpl; lia. Qed.

Lemma hist_emit (ev : Event) (w : World) :
  hist (emit env ev w) = hist w ++ [ev].
Proof. reflexivity. Qed.

Lemma now_time_Sleep (d : Z) (w : World) :
  now w + Z.max 0 d ≤ now (time_Sleep env d w).
Proof. unfold time_Sleep, emit; simpl; lia. Qed.

Lemma hist_time_Sleep (d : Z) (w : World) :
  hist (time_Sleep env d w) = hist w ++ [TimeSleep d].
Proof. reflexivity. Qed.

End WorldFacts.

(** * The retry loop *)

Lemma retryableSleep_pos : 0 < retryableSleep.
Proof. reflexivity. Qed.

Lemma retry_fuel_step (r r' : Z) :
  0 < r → r' ≤ r - retryableSleep → (S (retry_fuel r') ≤ retry_fuel r)%nat.
Proof.
  intros Hr Hr'. unfold retry_fuel.
  pose proof retryableSleep_pos as Hs.
  assert (Hq : (r' + retryableSleep) / retryableSleep
               ≤ (r + retryableSleep) / retryableSleep - 1).
  { replace (r + retryableSleep) with (r + 1 * retryableSleep) by lia.
    rewrite Z.div_add by lia.
    pose proof (Z.div_le_mono (r' + retryableSleep) r retryableSleep). lia. }
  assert (1 ≤ (r + retryableSleep) / retryableSleep).
  { replace (r + retryableSleep) with (r + 1 * retryableSleep) by lia.
    rewrite Z.div_add by lia.
    pose proof (Z.div_pos r retryableSleep). lia. }
  lia.
Qed.

Section RetrySteps.

Variable env : Env.
Context {C : Type}.
Variable f : Closure C.

(** One trip through the loop, in its three cases. *)
Lemma retryable_loop_success fuel dl c w c1 w1 :
  f c w = (None, c1, w1) →
  retryable_loop env (S fuel) dl f c w = Some (None, c1, w1).
Proof. intros Hf; cbn [retryable_loop]; rewrite Hf; reflexivity. Qed.

Lemma retryable_loop_timeout fuel dl c w e c1 w1 :
  f c w = (Some e, c1, w1) →
  dl ≤ now (log_Print env ("Retryable error: " +:+ e) w1) →
  retryable_loop env (S fuel) dl f c w
  = Some (Some ("Retryable error: " +:+ e), c1,
          log_Print env ("Retryable error: " +:+ e) w1).
Proof.
  intros Hf Hdl; cbn [retryable_loop]; rewrite Hf.
  destruct (decide _) as [|Hn]; [reflexivity | contradiction].
Qed.

Lemma retryable_loop_again fuel dl c w e c1 w1 :
  f c w = (Some e, c1, w1) →
  now (log_Print env ("Retryable error: " +:+ e) w1) < dl →
  retryable_loop env (S fuel) dl f c w
  = retryable_loop env fuel dl f c1
      (time_Sleep env retryableSleep
         (log_Print env ("Retryable error: " +:+ e) w1)).
Proof.
  intros Hf Hdl; cbn [retryable_loop]; rewrite Hf.
  destruct (decide _) as [Hn|]; [lia | reflexivity].
Qed.

End RetrySteps.

Section RetryTheory.

Variable env : Env.
Context {C : Type}.
Variable f : Closure C.

(** The instrumented closure runs the loop exactly as the plain one. *)
Lemma retryable_loop_recording fuel dl c calls w :
  retryable_loop env fuel dl f c w
  = (λ '(r, cl, w'), (r, cl.1, w')) <$>
      retryable_loop env fuel dl (recording f) (c, calls) w.
Proof.
  revert c calls w; induction fuel as [|fuel IH]; intros c calls w; [done|].
  simpl. unfold recording at 1; simpl.
  destruct (f c w) as [[[e|] c1] w1]; simpl; [|done].
  destruct (decide _); [done|]. apply IH.
Qed.

(** What a run of the loop looks like, read off the recorded results. *)
Definition retry_shape (dl : Z) (w : World) (r : option error)
    (calls : list (option error)) (w' : World) : Prop :=
  calls ≠ []
  ∧ (r = None ↔ None ∈ calls)
  ∧ (∀ i, (S i < length calls)%nat → ∃ e, calls !! i = Some (Some e))
  ∧ (∀ err, r = Some err →
       ∃ e, last calls = Some (Some e)
            ∧ err = "Retryable error: " +:+ e ∧ dl ≤ now w')
  ∧ (dl ≤ now w → length calls = 1%nat).

Lemma retryable_loop_run fuel dl :
  steady f →
  ∀ c calls0 w,
    (retry_fuel (dl - now w) ≤ fuel)%nat →
    ∃ r c' calls w',
      retryable_loop env fuel dl (recording f) (c, calls0) w
      = Some (r, (c', calls0 ++ calls), w')
      ∧ retry_shape dl w r calls w'.
Proof.
  intros Hsteady. induction fuel as [|fuel IH]; intros c calls0 w Hfuel.
  { unfold retry_fuel in Hfuel; lia. }
  pose proof (Hsteady c w) as Hmono.
  destruct (f c w) as [[[e|] c1] w1] eqn:Hf; simpl in Hmono.
  - set (w2 := log_Print env ("Retryable error: " +:+ e) w1).
    assert (now w1 ≤ now w2) by apply now_emit.
    destruct (decide (dl ≤ now w2)) as [Hdue|Hearly].
    + exists (Some ("Retryable error: " +:+ e)), c1, [Some e], w2. split.
      * apply retryable_loop_timeout; [|done].
        unfold recording; simpl; by rewrite Hf.
      * repeat split; try done.
        -- intros Hin. apply list_elem_of_singleton in Hin. done.
        -- simpl; lia.
        -- intros err [= <-]. by exists e.
    + set (w3 := time_Sleep env retryableSleep w2).
      pose proof (now_time_Sleep env retryableSleep w2) as Hsleep.
      pose proof retryableSleep_pos.
      destruct (IH c1 (calls0 ++ [Some e]) w3) as (r & c' & calls & w' & Hrun & Hshape).
      { fold w3 in Hsleep.
        pose proof (retry_fuel_step (dl - now w) (dl - now w3)). lia. }
      exists r, c', (Some e :: calls), w'. split.
      * rewrite (retryable_loop_again env (recording f) fuel dl (c, calls0) w
                   e (c1, calls0 ++ [Some e]) w1).
        -- fold w2 w3. rewrite Hrun. by rewrite <- app_assoc.
        -- unfold recording; simpl; by rewrite Hf.
        -- fold w2; lia.
      * destruct Hshape as (Hne & Hnil & Hinit & Hlast & _).
        repeat split; try done.
        -- intros Hr. apply Hnil in Hr. by apply elem_of_cons; right.
        -- intros Hin. apply elem_of_cons in Hin as [|Hin]; [done|].
           by apply Hnil.
        -- intros [|i] Hi; simpl in *; [by exists e|]. apply Hinit; lia.
        -- intros err Herr. destruct (Hlast err Herr) as (e' & Hl & He & Hdl).
           exists e'. split; [|done].
           destruct calls; [done|]. done.
        -- intros Hdue; lia.
  - exists None, c1, [None], w1. split.
    + apply retryable_loop_success. unfold recording; simpl; by rewrite Hf.
    + repeat split; try done.
      * intros _. apply list_elem_of_singleton. done.
      * simpl; lia.
Qed.

(** Whatever [f] does, a run of the loop that comes back has this shape. *)
Lemma retryable_loop_shape fuel dl :
  ∀ c calls0 w r cl w',
    retryable_loop env fuel dl (recording f) (c, calls0) w = Some (r, cl, w') →
    ∃ calls,
      cl.2 = calls0 ++ calls
      ∧ calls ≠ []
      ∧ (r = None ↔ None ∈ calls)
      ∧ (∀ i, (S i < length calls)%nat → ∃ e, calls !! i = Some (Some e))
      ∧ (∀ err, r = Some err →
           ∃ e, last calls = Some (Some e)
                ∧ err = "Retryable error: " +:+ e ∧ dl ≤ now w').
Proof.
  induction fuel as [|fuel IH]; intros c calls0 w r cl w'; [done|].
  cbn [retryable_loop]. unfold recording at 1. cbn [fst snd].
  destruct (f c w) as [[[e|] c1] w1] eqn:Hf.
  - destruct (decide _) as [Hdue|Hearly].
    + intros [= <- <- <-]. exists [Some e]. repeat split; try done.
      * intros Hin. apply list_elem_of_singleton in Hin. done.
      * simpl; lia.
      * intros err [= <-]. by exists e.
    + intros Hloop. apply IH in Hloop
        as (calls & Hcl & Hne & Hnil & Hinit & Hlast).
      exists (Some e :: calls). repeat split; try done.
      * by rewrite Hcl, <- app_assoc.
      * intros Hr. apply Hnil in Hr. by apply elem_of_cons; right.
      * intros Hin. apply elem_of_cons in Hin as [|Hin]; [done|].
        by apply Hnil.
      * intros [|i] Hi; simpl in *; [by exists e|]. apply Hinit; lia.
      * intros err Herr. destruct (Hlast err Herr) as (e' & Hl & He & Hdl).
        exists e'. split; [|done]. destruct calls; done.
  - intros [= <- <- <-]. exists [None]. repeat split; try done.
    + intros _. by apply list_elem_of_singleton.
    + simpl; lia.
Qed.

(** When every invocation fails, the loop gives up, and does so the way
    [gives_up] tells. *)
Lemma retryable_loop_gives_up fuel dl :
  steady f →
  (∀ c w, (f c w).1.1 ≠ None) →
  ∀ c w,
    (retry_fuel (dl - now w) ≤ fuel)%nat →
    ∃ err c' w',
      retryable_loop env fuel dl f c w = Some (Some err, c', w')
      ∧ gives_up env dl f c w err w'
      ∧ dl ≤ now w'.
Proof.
  intros Hsteady Hfail. induction fuel as [|fuel IH]; intros c w Hfuel.
  { unfold retry_fuel in Hfuel; lia. }
  pose proof (Hsteady c w) as Hmono. pose proof (Hfail c w) as Hne.
  destruct (f c w) as [[[e|] c1] w1] eqn:Hf; simpl in Hmono, Hne; [|done].
  set (w2 := log_Print env ("Retryable error: " +:+ e) w1).
  assert (now w1 ≤ now w2) by apply now_emit.
  destruct (decide (dl ≤ now w2)) as [Hdue|Hearly].
  - exists ("Retryable error: " +:+ e), c1, w2. split; [|split; [|done]].
    + by apply retryable_loop_timeout.
    + by eapply gives_up_now.
  - set (w3 := time_Sleep env retryableSleep w2).
    pose proof (now_time_Sleep env retryableSleep w2) as Hsleep.
    pose proof retryableSleep_pos.
    destruct (IH c1 w3) as (err & c' & w' & Hrun & Hgive & Hdl).
    { fold w3 in Hsleep.
      pose proof (retry_fuel_step (dl - now w) (dl - now w3)). lia. }
    exists err, c', w'. split; [|split; [|done]].
    + rewrite (retryable_loop_again env f fuel dl c w e c1 w1 Hf); [done|].
      fold w2; lia.
    + eapply gives_up_later; [exact Hf | fold w2; lia | exact Hgive].
Qed.

End RetryTheory.

(** * The closure of [Provision] *)

Section UploadAndStart.

Variable env : Env.
Variable cfg : Config.
Variables path command : string.

Lemma uploadAndStart_steady : steady (uploadAndStart env cfg path command).
Proof.
  intros c w. unfold uploadAndStart, file_Seek, comm_Upload, StartWithUi.
  destruct (env_seek env (hist w) path); simpl; [lia|].
  destruct (env_upload _ _ _ _); simpl; [lia|].
  destruct (env_start _ _ _); simpl; lia.
Qed.

(** An attempt in which neither the seek nor the upload fails. *)
Lemma uploadAndStart_reaches_start (D : Z) (c : option RemoteCmd) (w : World)
    (r : error + Z) :
  (∀ h ev, Z.of_N (env_elapsed env h ev) ≤ D) →
  env_seek env (hist w) path = None →
  env_upload env (hist w ++ [FileSeek path None]) (RemotePath cfg)
    (FromFile path) = None →
  env_start env
    (hist w ++ [FileSeek path None;
                CommUpload (RemotePath cfg) (FromFile path) None])
    command = r →
  ∃ w',
    uploadAndStart env cfg path command c w
    = (match r with inl e => Some e | inr _ => None end,
       Some {| Command := command;
               ExitStatus := match r with inl _ => 0 | inr s => s end |},
       w')
    ∧ hist w' = hist w ++ [FileSeek path None;
                           CommUpload (RemotePath cfg) (FromFile path) None;
                           CommStart command r]
    ∧ now w' ≤ now w + 3 * D.
Proof.
  intros Hdur Hseek Hupload Hstart.
  unfold uploadAndStart, file_Seek, comm_Upload, StartWithUi.
  rewrite Hseek. cbn [hist emit]. rewrite Hupload. cbn [hist emit].
  rewrite <- !app_assoc. cbn [app]. rewrite Hstart.
  exists (emit env (CommStart command r)
            (emit env (CommUpload (RemotePath cfg) (FromFile path) None)
               (emit env (FileSeek path None) w))).
  split; [destruct r; reflexivity|]. split.
  - cbn [hist emit]. rewrite <- !app_assoc. reflexivity.
  - pose proof (Hdur (hist w) (FileSeek path None)).
    pose proof (Hdur (hist w ++ [FileSeek path None])
                  (CommUpload (RemotePath cfg) (FromFile path) None)).
    pose proof (Hdur (hist w ++ [FileSeek path None;
                         CommUpload (RemotePath cfg) (FromFile path) None])
                  (CommStart command r)).
    cbn [now emit snd hist]; rewrite <- ?app_assoc; cbn [app]; lia.
Qed.

(** In every attempt, whatever fails, the command is started at most once
    and only after the script has been uploaded in this same attempt. *)
Lemma uploadAndStart_events (c : option RemoteCmd) (w : World) :
  ∃ evs,
    hist (uploadAndStart env cfg path command c w).2 = hist w ++ evs
    ∧ (count_starts evs ≤ count_uploads_of path evs)%nat
    ∧ (count_uploads_of path evs ≤ 1)%nat.
Proof.
  unfold uploadAndStart, file_Seek, comm_Upload, StartWithUi.
  destruct (env_seek env (hist w) path) as [e|]; cbn [fst snd hist emit].
  { exists [FileSeek path (Some e)]. split; [reflexivity|].
    unfold count_starts, count_uploads_of. cbn. lia. }
  destruct (env_upload env _ _ _) as [e|]; cbn [fst snd hist emit].
  { eexists [_; _]. rewrite <- app_assoc. split; [reflexivity|].
    unfold count_starts, count_uploads_of. cbn.
    rewrite bool_decide_eq_true_2 by done. cbn. lia. }
  destruct (env_start env _ _) as [e|status]; cbn [fst snd hist emit];
    eexists [_; _; _]; rewrite <- !app_assoc; (split; [reflexivity|]);
    unfold count_starts, count_uploads_of; cbn;
    rewrite bool_decide_eq_true_2 by done; cbn; lia.
Qed.

End UploadAndStart.

(** * Counting events *)

Lemma count_starts_app (a b : list Event) :
  count_starts (a ++ b) = (count_starts a + count_starts b)%nat.
Proof. unfold count_starts. by rewrite List.filter_app, length_app. Qed.

Lemma count_uploads_of_app (path : string) (a b : list Event) :
  count_uploads_of path (a ++ b)
  = (count_uploads_of path a + count_uploads_of path b)%nat.
Proof. unfold count_uploads_of. by rewrite List.filter_app, length_app. Qed.

Lemma count_failed_rounds (cfg : Config) (path command : string)
    (errs : list error) :
  count_starts (concat (failed_round cfg path command <$> errs)) = length errs
  ∧ count_uploads_of path (concat (failed_round cfg path command <$> errs))
    = length errs.
Proof.
  induction errs as [|e errs [IHs IHu]]; [done|].
  cbn [fmap list_fmap concat length].
  rewrite count_starts_app, count_uploads_of_app, IHs, IHu.
  unfold count_starts, count_uploads_of, failed_round.
  cbn. rewrite bool_decide_eq_true_2 by done. done.
Qed.

(** * A command that starts after some failures *)

Section Flaky.

Variable env : Env.
Variable cfg : Config.
Variables path command : string.
Variable w0 : World.
Variable failures : nat.
Variable status : Z.
Variable D : Z.
Variable dl : Z.

Hypothesis Hdur : ∀ h ev, Z.of_N (env_elapsed env h ev) ≤ D.
Hypothesis Hseek : ∀ t, env_seek env (hist w0 ++ t) path = None.
Hypothesis Hupload :
  ∀ t, env_upload env (hist w0 ++ t) (RemotePath cfg) (FromFile path) = None.
Hypothesis Hfail :
  ∀ t, (count_starts t < failures)%nat →
       ∃ e, env_start env (hist w0 ++ t) command = inl e.
Hypothesis Hok :
  ∀ t, count_starts t = failures →
       env_start env (hist w0 ++ t) command = inr status.

Lemma retryable_loop_rounds (k : nat) :
  ∀ fuel t c w,
    hist w = hist w0 ++ t →
    (count_starts t + k = failures)%nat →
    (k < fuel)%nat →
    now w + Z.of_nat k * (retryableSleep + 5 * D) ≤ dl →
    ∃ errs w',
      length errs = k
      ∧ retryable_loop env fuel dl (uploadAndStart env cfg path command) c w
        = Some (None, Some {| Command := command; ExitStatus := status |}, w')
      ∧ hist w' = hist w ++ concat (failed_round cfg path command <$> errs)
                         ++ successful_round cfg path command status.
Proof.
  assert (HD : 0 ≤ D) by (pose proof (Hdur [] (UiSay "")); lia).
  pose proof retryableSleep_pos as Hs.
  assert (Hattempt : ∀ c w t r,
            hist w = hist w0 ++ t →
            env_start env
              (hist w0 ++ t ++ [FileSeek path None;
                 CommUpload (RemotePath cfg) (FromFile path) None])
              command = r →
            ∃ w1,
              uploadAndStart env cfg path command c w
              = (match r with inl e => Some e | inr _ => None end,
                 Some {| Command := command;
                         ExitStatus := match r with inl _ => 0 | inr s => s end |},
                 w1)
              ∧ hist w1 = hist w ++ [FileSeek path None;
                            CommUpload (RemotePath cfg) (FromFile path) None;
                            CommStart command r]
              ∧ now w1 ≤ now w + 3 * D).
  { intros c w t r Hw Hr.
    apply (uploadAndStart_reaches_start env cfg path command D c w r Hdur);
      rewrite Hw, <- ?app_assoc; auto. }
  induction k as [|k IH]; intros fuel t c w Hw Hcount Hfuel Htime;
    (destruct fuel as [|fuel]; [lia|]).
  - (* no failure left: this attempt starts the command *)
    destruct (Hattempt c w t (inr status) Hw) as (w1 & Hrun & Hhist & Hnow).
    { apply Hok. rewrite count_starts_app. unfold count_starts in *; simpl; lia. }
    exists [], w1. split; [done|]. split.
    + by apply retryable_loop_success.
    + exact Hhist.
  - (* one more failure *)
    destruct (Hfail (t ++ [FileSeek path None;
                           CommUpload (RemotePath cfg) (FromFile path) None]))
      as [e He].
    { rewrite count_starts_app. unfold count_starts in *; simpl; lia. }
    destruct (Hattempt c w t (inl e) Hw He) as (w1 & Hrun & Hhist & Hnow).
    set (w2 := log_Print env ("Retryable error: " +:+ e) w1).
    set (w3 := time_Sleep env retryableSleep w2).
    assert (Hnow2 : now w2 ≤ now w1 + D).
    { unfold w2, log_Print, emit; cbn [now].
      pose proof (Hdur (hist w1) (LogPrint ("Retryable error: " +:+ e))). lia. }
    assert (Hnow3 : now w3 ≤ now w2 + retryableSleep + D).
    { unfold w3, time_Sleep, emit; cbn [now hist].
      pose proof (Hdur (hist w2) (TimeSleep retryableSleep)). lia. }
    assert (Hhist3 : hist w3 = hist w0 ++ t ++ failed_round cfg path command e).
    { unfold w3, w2, log_Print. rewrite hist_time_Sleep, hist_emit, Hhist, Hw.
      unfold failed_round. rewrite <- !app_assoc. reflexivity. }
    rewrite Nat2Z.inj_succ, Z.mul_succ_l in Htime.
    destruct (IH fuel (t ++ failed_round cfg path command e) (Some
                {| Command := command; ExitStatus := 0 |}) w3)
      as (errs & w' & Hlen & Hloop & Hhist').
    { by rewrite Hhist3. }
    { rewrite count_starts_app. unfold count_starts in *; simpl; lia. }
    { lia. }
    { lia. }
    exists (e :: errs), w'. split; [simpl; lia|]. split.
    + rewrite (retryable_loop_again env _ fuel dl c w e _ w1 Hrun); [done|].
      fold w2. lia.
    + rewrite Hhist', Hhist3, Hw. cbn [fmap list_fmap concat].
      rewrite <- !app_assoc. reflexivity.
Qed.

End Flaky.

(** * The contract of the retry loop *)

(** C10.  For every closure [f] and every start-retry timeout, also one
    that has already run out.  The invocations of [f] are observed by
    instrumenting it: [calls] lists their results in order, and the
    instrumented run gives what the plain run gives.
    - Whatever [f] does, a run of [retryable] that comes back has invoked
      [f] at least once; it returns nil exactly when some invocation of [f]
      returned nil; every invocation but the last one failed, so it stopped
      at the first success; and an error it returns is the error of the
      last invocation, prefixed as a retryable error, and is returned only
      when the deadline has been reached.
    - If the clock does not run backwards while [f] runs, [retryable] does
      come back, within [retry_fuel] iterations, and when the timeout is
      not positive it invokes [f] exactly once. *)
Theorem retryable_contract (env : Env) {C} (f : Closure C) (cfg : Config)
    (c : C) (w : World) :
  (∀ fuel r c' calls w',
     retryable env fuel cfg (recording f) (c, []) w = Some (r, (c', calls), w') →
     retryable env fuel cfg f c w = Some (r, c', w')
     ∧ (1 ≤ length calls)%nat
     ∧ (r = None ↔ None ∈ calls)
     ∧ (∀ i, (S i < length calls)%nat → ∃ e, calls !! i = Some (Some e))
     ∧ (∀ err, r = Some err →
          ∃ e, last calls = Some (Some e)
               ∧ err = "Retryable error: " +:+ e
               ∧ now w + StartRetryTimeout cfg ≤ now w'))
  ∧ (steady f →
     ∀ fuel, (retry_fuel (StartRetryTimeout cfg) ≤ fuel)%nat →
       ∃ r c' calls w',
         retryable env fuel cfg (recording f) (c, []) w
         = Some (r, (c', calls), w')
         ∧ (StartRetryTimeout cfg ≤ 0 → length calls = 1%nat)).
Proof.
  unfold retryable. split.
  - intros fuel r c' calls w' Hrun. split.
    { rewrite (retryable_loop_recording env f fuel _ c [] w), Hrun. done. }
    apply retryable_loop_shape in Hrun
      as (calls' & Hcl & Hne & Hnil & Hinit & Hlast).
    cbn in Hcl. subst calls'.
    split; [destruct calls; [done | simpl; lia]|]. done.
  - intros Hsteady fuel Hfuel.
    destruct (retryable_loop_run env f fuel (now w + StartRetryTimeout cfg)
                Hsteady c [] w)
      as (r & c' & calls & w' & Hrun & _ & _ & _ & _ & Hone).
    { replace (now w + StartRetryTimeout cfg - now w)
        with (StartRetryTimeout cfg) by lia. done. }
    exists r, c', calls, w'. split; [exact Hrun|]. intros; apply Hone; lia.
Qed.

Lemma retryable_contract_witness :
  let f : Closure nat := λ n w, (Some "boom", S n, w) in
  let cfg :=
    {| PackerBuildName := ""; PackerBuilderType := ""; Binary := false;
       Inline := None; Script := ""; Scripts := None; Vars := None;
       RemotePath := ""; ExecuteCommand := ""; ElevatedExecuteCommand := "";
       StartRetryTimeout := -1; EnvVarFormat := "";
       ElevatedEnvVarFormat := ""; ElevatedUser := ""; ElevatedPassword := "";
       ValidExitCodes := None |} in
  steady f
  ∧ retryable (demo_env never_start) 1 cfg f 0%nat world0
    = Some (Some "Retryable error: boom", 1%nat,
            log_Print (demo_env never_start) "Retryable error: boom" world0)
  ∧ ∃ r c' calls w',
      retryable (demo_env never_start) 1 cfg (recording f) (0%nat, []) world0
      = Some (r, (c', calls), w')
      ∧ length calls = 1%nat.
Proof.
  intros f cfg.
  assert (Hsteady : steady f) by (intros c w; simpl; lia).
  split; [exact Hsteady|]. split; [reflexivity|].
  destruct (retryable_contract (demo_env never_start) f cfg 0%nat world0)
    as [_ Hcomes].
  destruct (Hcomes Hsteady 1%nat) as (r & c' & calls & w' & Hrun & Hone).
  { vm_compute. lia. }
  exists r, c', calls, w'. split; [exact Hrun|]. apply Hone. simpl. lia.
Defined.

(** C2.  If every attempt to upload and start a script fails, the retry
    loop of [Provision] still comes back, within [retry_fuel] iterations:
    it returns the error of the failing attempt, logged as a retryable
    error, at the first check made once the start-retry timeout has
    elapsed; the checks made before that were each followed by a sleep of
    [retryableSleep] and one more attempt ([gives_up]). *)
Theorem failing_script_gives_up (env : Env) (cfg : Config)
    (path command : string) (cmd : option RemoteCmd) (w : World) (fuel : nat) :
  (∀ c w0, (uploadAndStart env cfg path command c w0).1.1 ≠ None) →
  (retry_fuel (StartRetryTimeout cfg) ≤ fuel)%nat →
  ∃ err cmd' w',
    retryable env fuel cfg (uploadAndStart env cfg path command) cmd w
    = Some (Some err, cmd', w')
    ∧ gives_up env (now w + StartRetryTimeout cfg)
        (uploadAndStart env cfg path command) cmd w err w'
    ∧ now w + StartRetryTimeout cfg ≤ now w'
    ∧ last (hist w') = Some (LogPrint err).
Proof.
  intros Hfail Hfuel. unfold retryable.
  destruct (retryable_loop_gives_up env (uploadAndStart env cfg path command)
              fuel (now w + StartRetryTimeout cfg)
              (uploadAndStart_steady env cfg path command) Hfail cmd w)
    as (err & cmd' & w' & Hrun & Hgive & Hdl).
  { replace (now w + StartRetryTimeout cfg - now w)
      with (StartRetryTimeout cfg) by lia. done. }
  exists err, cmd', w'. repeat split; try done.
  clear Hrun Hdl. induction Hgive as [c w0 e c1 w1 _ _|]; [|done].
  unfold log_Print. rewrite hist_emit. apply last_snoc.
Qed.

Lemma failing_script_gives_up_witness :
  ∃ err cmd' w',
    retryable (demo_env never_start) 4 demo_config
      (uploadAndStart (demo_env never_start) demo_config "a.ps1" "run") None world0
    = Some (Some err, cmd', w')
    ∧ gives_up (demo_env never_start) (now world0 + StartRetryTimeout demo_config)
        (uploadAndStart (demo_env never_start) demo_config "a.ps1" "run")
        None world0 err w'
    ∧ now world0 + StartRetryTimeout demo_config ≤ now w'
    ∧ last (hist w') = Some (LogPrint err).
Proof.
  apply (failing_script_gives_up (demo_env never_start) demo_config
           "a.ps1" "run" None world0 4).
  - intros c w0. simpl. discriminate.
  - vm_compute. lia.
Defined.

(** C1.  One script whose command fails to start [failures] times and then
    starts, inside the retry window.  [Provision] has opened the script and
    rendered the command text, once, to [command], reaching the world [w4].
    From there on the iteration consists of [failures] rounds of seek,
    upload, failed start of [command], log and sleep, and of one round of
    seek, upload and start of the same [command]; it returns nil.  So the
    number of starts and the number of uploads of the script both equal the
    number of attempts, [failures + 1]: every attempt uploads the file
    again.  [D] bounds the time a single call takes.  And in every attempt,
    whatever makes it fail, the command is started at most once and only
    after the script has been uploaded in that attempt. *)
Theorem script_succeeds_after_failed_starts (env : Env) (cfg : Config)
    (path : string) (deferred : list string) (w : World)
    (command : string) (w4 : World) (failures : nat) (status D : Z)
    (fuel : nat) :
  let opened :=
    os_Open env path
      (log_Print env ("Opening " +:+ path +:+ " for reading")
         (ui_Say env ("Provisioning with powershell script: " +:+ path) w)) in
  opened.1 = None →
  createCommandText env cfg opened.2 = Some (inr command, w4) →
  (∀ h ev, Z.of_N (env_elapsed env h ev) ≤ D) →
  Z.of_nat failures * (retryableSleep + 5 * D) ≤ StartRetryTimeout cfg →
  (∀ t, env_seek env (hist w4 ++ t) path = None) →
  (∀ t, env_upload env (hist w4 ++ t) (RemotePath cfg) (FromFile path) = None) →
  (∀ t, (count_starts t < failures)%nat →
        ∃ e, env_start env (hist w4 ++ t) command = inl e) →
  (∀ t, count_starts t = failures →
        env_start env (hist w4 ++ t) command = inr status) →
  validExitCode status (elems (ValidExitCodes cfg)) = true →
  (failures < fuel)%nat →
  ∃ errs w',
    let rounds :=
      concat (failed_round cfg path command <$> errs)
      ++ successful_round cfg path command status in
    provisionScript env fuel cfg path deferred w
    = Done (None, path :: deferred, w')
    ∧ length errs = failures
    ∧ hist w' = hist w4 ++ rounds ++ [FileClose path]
    ∧ count_starts rounds = S failures
    ∧ count_uploads_of path rounds = S failures
    ∧ (∀ c w0,
         ∃ evs,
           hist (uploadAndStart env cfg path command c w0).2 = hist w0 ++ evs
           ∧ (count_starts evs ≤ count_uploads_of path evs)%nat
           ∧ (count_uploads_of path evs ≤ 1)%nat).
Proof.
  intros opened Hopen Hcmd Hdur Htime Hseek Hupload Hfail Hok Hvalid Hfuel.
  destruct (retryable_loop_rounds env cfg path command w4 failures status D
              (now w4 + StartRetryTimeout cfg) Hdur Hseek Hupload Hfail Hok
              failures fuel [] None w4)
    as (errs & w5 & Hlen & Hloop & Hhist); [by rewrite app_nil_r|done|done|lia|].
  exists errs, (file_Close env path w5). cbv zeta.
  split; [|split; [done|split; [|split; [|split]]]];
    [| | | |intros c w0; apply uploadAndStart_events].
  - unfold provisionScript. fold opened.
    destruct opened as [r w3]; simpl in Hopen, Hcmd; subst r.
    rewrite Hcmd. unfold retryable. rewrite Hloop. cbn [ExitStatus].
    by rewrite Hvalid.
  - unfold file_Close. rewrite hist_emit, Hhist, <- app_assoc. done.
  - rewrite count_starts_app.
    destruct (count_failed_rounds cfg path command errs) as [-> _].
    rewrite Hlen. unfold count_starts; simpl; lia.
  - rewrite count_uploads_of_app.
    destruct (count_failed_rounds cfg path command errs) as [_ ->].
    rewrite Hlen. unfold count_uploads_of, successful_round. cbn.
    rewrite bool_decide_eq_true_2 by done. simpl; lia.
Qed.

Lemma script_succeeds_after_failed_starts_witness :
  let env := demo_env (flaky_start 2 3010) in
  ∃ errs w',
    let rounds :=
      concat (failed_round demo_config "a.ps1" (demo_command env) <$> errs)
      ++ successful_round demo_config "a.ps1" (demo_command env) 3010 in
    provisionScript env 3 demo_config "a.ps1" [] world0
    = Done (None, ["a.ps1"], w')
    ∧ length errs = 2%nat
    ∧ hist w' = hist (demo_rendered env) ++ rounds ++ [FileClose "a.ps1"]
    ∧ count_starts rounds = 3%nat
    ∧ count_uploads_of "a.ps1" rounds = 3%nat.
Proof.
  intros env.
  destruct (script_succeeds_after_failed_starts env demo_config "a.ps1" []
              world0 (demo_command env) (demo_rendered env) 2 3010 1000000 3)
    as (errs & w' & Hrun & Hlen & Hhist & Hstarts & Huploads & _);
    [..|exists errs, w'; cbv zeta;
        exact (conj Hrun (conj Hlen (conj Hhist (conj Hstarts Huploads))))].
  - reflexivity.
  - vm_compute. reflexivity.
  - intros h ev. simpl. lia.
  - vm_compute. discriminate.
  - intros t. reflexivity.
  - intros t. reflexivity.
  - intros t Ht. exists "connection refused".
    change (env_start env) with (flaky_start 2 3010).
    unfold flaky_start. rewrite count_starts_app.
    change (count_starts (hist (demo_rendered env))) with 0%nat.
    destruct (decide _); [done | simpl in *; lia].
  - intros t Ht.
    change (env_start env) with (flaky_start 2 3010).
    unfold flaky_start. rewrite count_starts_app.
    change (count_starts (hist (demo_rendered env))) with 0%nat.
    destruct (decide _); [simpl in *; lia | done].
  - reflexivity.
  - lia.
Defined.

(** * The history only grows *)

Section Histories.

Variable env : Env.
Variable cfg : Config.

Lemma emit_prefix (ev : Event) (w : World) :
  hist w `prefix_of` hist (emit env ev w).
Proof. by exists [ev]. Qed.

Local Ltac grow :=
  cbn [hist emit fst snd];
  repeat first [ reflexivity | apply prefix_app_r ].

Lemma generateElevatedRunner_prefix (command : string) (w : World) :
  hist w `prefix_of` hist (generateElevatedRunner env cfg command w).2.
Proof.
  unfold generateElevatedRunner, uuid_TimeOrderedUUID, comm_Upload,
    log_Print, fmt_Printf.
  repeat case_match; simpl; grow.
Qed.

Lemma createCommandText_prefix (w : World) r w' :
  createCommandText env cfg w = Some (r, w') → hist w `prefix_of` hist w'.
Proof.
  unfold createCommandText, createCommandTextNonPrivileged,
    createCommandTextPrivileged, generateCommandLineRunner.
  destruct (decide _).
  - destruct (createFlattenedEnvVars env cfg false); [|done].
    destruct (env_render env _ _); [by intros [= <- <-]|].
    destruct (env_powershellEncode env _); intros [= <- <-];
      unfold log_Print; grow.
  - destruct (createFlattenedEnvVars env cfg true); [|done].
    unfold uuid_TimeOrderedUUID, comm_Upload, log_Print. cbn [fst snd].
    destruct (env_upload env _ _ _); [intros [= <- <-]; grow|].
    destruct (env_render env _ _); [intros [= <- <-]; grow|].
    pose proof (generateElevatedRunner_prefix s0
      (emit env
         (CommUpload
            (envVarUploadPath (env_uuid env (hist w)))
            (FromBytes s) None)
         (emit env
            (LogPrint
               ("Uploading env vars to "
                +:+ envVarUploadPath (env_uuid env (hist w))))
            (emit env (TimeOrderedUUID (env_uuid env (hist w))) w)))) as Hp.
    destruct (generateElevatedRunner env cfg s0 _) as [[?|?] w4];
      intros [= <- <-]; (etrans; [|exact Hp]); grow.
Qed.

Lemma uploadAndStart_prefix (path command : string) c w :
  hist w `prefix_of` hist (uploadAndStart env cfg path command c w).2.
Proof.
  unfold uploadAndStart, file_Seek, comm_Upload, StartWithUi.
  destruct (env_seek env _ _); simpl; [grow|].
  destruct (env_upload env _ _ _); simpl; [grow|].
  destruct (env_start env _ _); simpl; grow.
Qed.

(** The retry loop of a script comes back with nil only from an attempt
    that ended with the command started and its exit status reported. *)
Lemma retryable_loop_uploadAndStart (path command : string) fuel dl :
  ∀ c w r cmd w',
    retryable_loop env fuel dl (uploadAndStart env cfg path command) c w
    = Some (r, cmd, w') →
    hist w `prefix_of` hist w'
    ∧ (r = None →
       ∃ h status,
         hist w' = h ++ [CommStart command (inr status)]
         ∧ cmd = Some {| Command := command; ExitStatus := status |}).
Proof.
  induction fuel as [|fuel IH]; intros c w r cmd w'; [done|].
  cbn [retryable_loop].
  pose proof (uploadAndStart_prefix path command c w) as Hp.
  destruct (uploadAndStart env cfg path command c w) as [[[e|] c1] w1] eqn:Hf;
    simpl in Hp.
  - destruct (decide _).
    + intros [= <- <- <-]. split; [|done]. unfold log_Print. etrans; [exact Hp|grow].
    + intros Hloop. apply IH in Hloop as [Hp' Hnil]. split; [|done].
      etrans; [exact Hp|]. etrans; [|exact Hp'].
      unfold time_Sleep, log_Print. by exists
        [LogPrint ("Retryable error: " +:+ e); TimeSleep retryableSleep];
        cbn [hist emit]; rewrite <- app_assoc.
  - intros [= <- <- <-]. split; [done|]. intros _.
    revert Hf. unfold uploadAndStart, file_Seek, comm_Upload, StartWithUi.
    destruct (env_seek env _ _); [done|]. cbn [hist emit].
    destruct (env_upload env _ _ _); [done|]. cbn [hist emit].
    destruct (env_start env _ _) as [?|status] eqn:Hstart; [done|].
    intros [= <- <-]. cbn [hist emit]. eauto.
Qed.

End Histories.

(** * The loop over the scripts *)

Section Scripts.

Variable env : Env.
Variable fuel : nat.
Variable cfg : Config.

(** An iteration that returns grew the history, and it returns nil only
    when its command started and reported a valid exit status: these are
    then the last events but the closing of the file. *)
Lemma provisionScript_done (path : string) deferred w r d' w' :
  provisionScript env fuel cfg path deferred w = Done (r, d', w') →
  hist w `prefix_of` hist w'
  ∧ (r = None →
     d' = path :: deferred
     ∧ ∃ h command status,
         hist w' = h ++ [CommStart command (inr status); FileClose path]
         ∧ validExitCode status (elems (ValidExitCodes cfg)) = true).
Proof.
  unfold provisionScript, os_Open.
  set (w2 := log_Print env _ (ui_Say env _ w)).
  assert (Hw2 : hist w `prefix_of` hist w2).
  { unfold w2, log_Print, ui_Say. cbn [hist emit].
    by repeat apply prefix_app_r. }
  destruct (env_open env (hist w2) path) as [e|].
  { intros [= <- <- <-]. split; [|done]. etrans; [exact Hw2|apply emit_prefix]. }
  set (w3 := emit env (OsOpen path None) w2).
  assert (Hw3 : hist w `prefix_of` hist w3).
  { etrans; [exact Hw2|apply emit_prefix]. }
  destruct (createCommandText env cfg w3) as [[[e|command] w4]|] eqn:Hcmd;
    [| |done]; apply createCommandText_prefix in Hcmd.
  { intros [= <- <- <-]. split; [|done]. by etrans. }
  unfold retryable.
  destruct (retryable_loop env fuel _ _ None w4) as [[[[e|] cmd] w5]|] eqn:Hloop;
    [| |done]; apply retryable_loop_uploadAndStart in Hloop as [Hw5 Hnil].
  { intros [= <- <- <-]. split; [|done]. etrans; [exact Hw3|]. by etrans. }
  destruct (Hnil eq_refl) as (h & status & Hh & ->). cbn [ExitStatus].
  assert (Hw6 : hist w `prefix_of` hist (file_Close env path w5)).
  { etrans; [exact Hw3|]. etrans; [exact Hcmd|]. etrans; [exact Hw5|].
    apply emit_prefix. }
  destruct (validExitCode status _) eqn:Hvalid; intros [= <- <- <-];
    (split; [exact Hw6|]); [|done].
  intros _. split; [done|]. exists h, command, status. split; [|done].
  unfold file_Close. rewrite hist_emit, Hh, <- app_assoc. done.
Qed.

Lemma provisionScripts_app (before after : list string) deferred w :
  provisionScripts env fuel cfg (before ++ after) deferred w
  = match provisionScripts env fuel cfg before deferred w with
    | Done (None, d1, w1) => provisionScripts env fuel cfg after d1 w1
    | stopped => stopped
    end.
Proof.
  revert deferred w. induction before as [|path before IH]; intros deferred w.
  { done. }
  cbn [app provisionScripts].
  destruct (provisionScript env fuel cfg path deferred w)
    as [[[[e|] d1] w1]| |]; try done.
Qed.

(** When the loop has gone through all of [before], the last of them has
    started its command, got a valid exit status and closed its file, and
    nothing has happened since. *)
Lemma provisionScripts_done (before : list string) :
  ∀ deferred w d1 w1,
    provisionScripts env fuel cfg before deferred w = Done (None, d1, w1) →
    hist w `prefix_of` hist w1
    ∧ ∀ prev, last before = Some prev →
        ∃ h command status,
          hist w1 = h ++ [CommStart command (inr status); FileClose prev]
          ∧ validExitCode status (elems (ValidExitCodes cfg)) = true.
Proof.
  induction before as [|path before IH] using rev_ind;
    intros deferred w d1 w1.
  { intros [= <- <-]. done. }
  rewrite provisionScripts_app.
  destruct (provisionScripts env fuel cfg before deferred w)
    as [[[[e|] d0] w0]| |] eqn:Hbefore; try done.
  apply IH in Hbefore as [Hp _]. cbn [provisionScripts].
  destruct (provisionScript env fuel cfg path d0 w0)
    as [[[[e|] d2] w2]| |] eqn:Hpath; try done.
  intros [= <- <-]. apply provisionScript_done in Hpath as [Hp' Hnil].
  split; [by etrans|]. intros prev. rewrite last_snoc. intros [= <-].
  by destruct (Hnil eq_refl) as [_ ?].
Qed.

End Scripts.

Lemma hist_runDeferred (env : Env) (deferred : list string) (w : World) :
  hist (runDeferred env deferred w) = hist w ++ (FileClose <$> deferred).
Proof.
  revert w. induction deferred as [|path deferred IH]; intros w.
  { by rewrite app_nil_r. }
  change (runDeferred env (path :: deferred) w)
    with (runDeferred env deferred (file_Close env path w)).
  rewrite IH. unfold file_Close. rewrite hist_emit, <- app_assoc. done.
Qed.

(** C3.  The scripts are run one after the other, in the order of the
    list.  Take any script [path] of the list, [before] being the scripts in
    front of it and [after] those behind it.
    - If the loop did not get through [before] with nil everywhere (an
      iteration returned an error, whatever its kind, or did not return),
      the whole loop ends exactly there: same result, same world, so not a
      single call is made for [path] or for [after].
    - If it did, the iteration of [path] starts in the world [w1] that the
      last script of [before] left, whose history ends with the start of
      that script's command, its exit status, which is a valid one, and the
      closing of its file; what the iteration of [path] does comes after
      this history; and the scripts of [after] are run only if the
      iteration of [path] returns nil, otherwise the loop ends with the
      result of that iteration.
    [Provision] is this loop, run on the script list with nothing deferred,
    followed by the deferred closing of the files that were opened. *)
Theorem scripts_run_in_sequence (env : Env) (fuel : nat) (cfg : Config)
    (before : list string) (path : string) (after : list string)
    (deferred : list string) (w : World) :
  match provisionScripts env fuel cfg before deferred w with
  | Done (None, d1, w1) =>
      (∀ prev, last before = Some prev →
         ∃ h command status,
           hist w1 = h ++ [CommStart command (inr status); FileClose prev]
           ∧ validExitCode status (elems (ValidExitCodes cfg)) = true)
      ∧ (∀ r d2 w2,
           provisionScript env fuel cfg path d1 w1 = Done (r, d2, w2) →
           hist w1 `prefix_of` hist w2)
      ∧ provisionScripts env fuel cfg (before ++ path :: after) deferred w
        = match provisionScript env fuel cfg path d1 w1 with
          | Done (None, d2, w2) => provisionScripts env fuel cfg after d2 w2
          | stopped => stopped
          end
  | stopped =>
      provisionScripts env fuel cfg (before ++ path :: after) deferred w
      = stopped
  end
  ∧ (∀ w0,
       Provision env fuel cfg w0
       = match provisionScripts env fuel cfg
                 (scriptList env cfg (ui_Say env "Provisioning with Powershell..." w0)).1
                 []
                 (scriptList env cfg (ui_Say env "Provisioning with Powershell..." w0)).2
         with
         | Done (r, d, w3) => Done (r, runDeferred env d w3)
         | Panic => Panic
         | OutOfFuel => OutOfFuel
         end)
  ∧ (∀ d w3, hist (runDeferred env d w3) = hist w3 ++ (FileClose <$> d)).
Proof.
  split; [|split].
  - rewrite provisionScripts_app.
    destruct (provisionScripts env fuel cfg before deferred w)
      as [[[[e|] d1] w1]| |] eqn:Hbefore; try done.
    apply provisionScripts_done in Hbefore as [_ Hlast].
    split; [exact Hlast|]. split; [|done].
    intros r d2 w2 Hpath. by apply provisionScript_done in Hpath as [? _].
  - intros w0. unfold Provision.
    by destruct (scriptList env cfg _) as [scripts w2].
  - intros d w3. apply hist_runDeferred.
Qed.

(** Two scripts, the first of which exits with status 1 where only 0 and
    3010 are valid: nothing is done for the second. *)
Example second_script_not_run :
  let cfg :=
    {| PackerBuildName := "build"; PackerBuilderType := "amazon-ebs";
       Binary := false; Inline := None; Script := "";
       Scripts := Some ["a.ps1"; "b.ps1"]; Vars := Some [];
       RemotePath := "c:/Windows/Temp/script.ps1";
       ExecuteCommand := defaultExecuteCommand;
       ElevatedExecuteCommand := defaultElevatedExecuteCommand;
       StartRetryTimeout := 5 * Time.Second;
       EnvVarFormat := defaultEnvVarFormat;
       ElevatedEnvVarFormat := defaultEnvVarFormat;
       ElevatedUser := ""; ElevatedPassword := "";
       ValidExitCodes := Some [0; 3010] |} in
  ∃ w',
    Provision (demo_env (flaky_start 0 1)) 3 cfg world0
    = Done (Some "Script exited with non-zero exit status: 1. Allowed exit codes are: [0 3010]", w')
    ∧ OsOpen "a.ps1" None ∈ hist w'
    ∧ ∀ ev, ev ∈ hist w' →
        ev ≠ OsOpen "b.ps1" None
        ∧ ev ≠ CommUpload "c:/Windows/Temp/script.ps1" (FromFile "b.ps1") None.
Proof.
  intros cfg. eexists. split; [vm_compute; reflexivity|]. split.
  - repeat first [apply list_elem_of_here | apply list_elem_of_further].
  - intros ev Hev. repeat (apply elem_of_cons in Hev as [->|Hev]; [done|]).
    by apply elem_of_nil in Hev.
Qed.

(** * The exit status *)

Lemma validExitCode_elem_of (status : Z) (codes : list Z) :
  validExitCode status codes = true ↔ status ∈ codes.
Proof.
  unfold validExitCode.
  assert (Hgen : ∀ acc,
            foldl (λ valid v, if decide (status = v) then true else valid)
              acc codes = true ↔ acc = true ∨ status ∈ codes).
  { induction codes as [|v codes IH]; intros acc; cbn [foldl].
    - split; [auto|]. intros [|Hin]; [done|]. by apply elem_of_nil in Hin.
    - rewrite IH, elem_of_cons.
      destruct (decide (status = v)) as [->|Hne]; [tauto|].
      split; (intros [?|?]; [by left|]); [tauto|].
      right. tauto. }
  rewrite Hgen. split; [intros [?|?]; done | by right].
Qed.

Lemma validate_ValidExitCodes (stat : string → option error) (c : Config) :
  ValidExitCodes (validate stat c).1 = ValidExitCodes c.
Proof. unfold validate. cbn [fst]. by destruct (decide _). Qed.

(** C4.  Once the command of a script has started and reported [status],
    the iteration returns nil if [status] is among the configured valid
    exit codes, and otherwise returns an error that gives [status] in
    decimal and the list of the valid codes; in that case the loop over the
    scripts ends with this error.  [Prepare] makes 0 the only valid code
    when none is configured.  So with the valid codes 0 and 3010 the status
    3010 is accepted, and the status 1 gives an error that reads
    [... exit status: 1. Allowed exit codes are: [0 3010]]. *)
Theorem exit_status_checked (env : Env) (fuel : nat) (cfg : Config)
    (path : string) (deferred : list string) (w : World)
    (command : string) (w4 : World) (status : Z) (w5 : World) :
  let opened :=
    os_Open env path
      (log_Print env ("Opening " +:+ path +:+ " for reading")
         (ui_Say env ("Provisioning with powershell script: " +:+ path) w)) in
  let codes := elems (ValidExitCodes cfg) in
  opened.1 = None →
  createCommandText env cfg opened.2 = Some (inr command, w4) →
  retryable env fuel cfg (uploadAndStart env cfg path command) None w4
  = Some (None, Some {| Command := command; ExitStatus := status |}, w5) →
  (status ∈ codes →
     provisionScript env fuel cfg path deferred w
     = Done (None, path :: deferred, file_Close env path w5))
  ∧ (status ∉ codes →
     ∀ after,
       provisionScripts env fuel cfg (path :: after) deferred w
       = Done (Some ("Script exited with non-zero exit status: "
                     +:+ fmt_d status
                     +:+ ". Allowed exit codes are: " +:+ fmt_v codes),
               path :: deferred, file_Close env path w5))
  ∧ (∀ stat uuid decoded,
       ValidExitCodes decoded = None →
       elems (ValidExitCodes (Prepare stat uuid None decoded).1) = [0])
  ∧ (3010 ∈ [0; 3010]) ∧ (1 ∉ [0; 3010])
  ∧ "Script exited with non-zero exit status: " +:+ fmt_d 1
    +:+ ". Allowed exit codes are: " +:+ fmt_v [0; 3010]
    = "Script exited with non-zero exit status: 1. Allowed exit codes are: [0 3010]".
Proof.
  intros opened codes Hopen Hcmd Hretry.
  assert (Hscript :
    provisionScript env fuel cfg path deferred w
    = if validExitCode status codes
      then Done (None, path :: deferred, file_Close env path w5)
      else Done (Some ("Script exited with non-zero exit status: "
                       +:+ fmt_d status
                       +:+ ". Allowed exit codes are: " +:+ fmt_v codes),
                 path :: deferred, file_Close env path w5)).
  { unfold provisionScript. fold opened.
    destruct opened as [r w3]; simpl in Hopen, Hcmd; subst r.
    rewrite Hcmd, Hretry. done. }
  split; [|split; [|split; [|split; [|split]]]].
  - intros Hin. apply validExitCode_elem_of in Hin. by rewrite Hscript, Hin.
  - intros Hnotin after. cbn [provisionScripts]. rewrite Hscript.
    destruct (validExitCode status codes) eqn:Hvalid; [|done].
    by apply validExitCode_elem_of in Hvalid.
  - intros stat uuid decoded Hnone. unfold Prepare.
    pose proof (validate_ValidExitCodes stat (applyDefaults uuid decoded)) as Hv.
    destruct (validate stat (applyDefaults uuid decoded)) as [c errs].
    cbn [fst] in *. rewrite Hv. cbn [ValidExitCodes applyDefaults].
    by rewrite Hnone.
  - set_solver.
  - intros Hin. repeat (apply elem_of_cons in Hin as [?|Hin]; [done|]).
    by apply elem_of_nil in Hin.
  - vm_compute. reflexivity.
Qed.

Lemma exit_status_checked_witness :
  let env := demo_env (flaky_start 0 3010) in
  let w5 :=
    match retryable env 1 demo_config
            (uploadAndStart env demo_config "a.ps1" (demo_command env))
            None (demo_rendered env) with
    | Some (_, _, w5) => w5
    | None => world0
    end in
  provisionScript env 1 demo_config "a.ps1" [] world0
  = Done (None, ["a.ps1"], file_Close env "a.ps1" w5).
Proof.
  intros env w5.
  apply (exit_status_checked env 1 demo_config "a.ps1" [] world0
           (demo_command env) (demo_rendered env) 3010 w5).
  - reflexivity.
  - vm_compute. reflexivity.
  - vm_compute. reflexivity.
  - set_solver.
Defined.

(** * Inline scripts that cannot be extracted *)

(** Whenever [extractScript] returns an error, the path it returns is the
    empty string. *)
Lemma extractScript_error (env : Env) (cfg : Config) (w : World) (err : error) :
  (extractScript env cfg w).1.2 = Some err → (extractScript env cfg w).1.1 = "".
Proof.
  unfold extractScript, ioutil_TempFile, writer_Flush.
  destruct (env_tempfile env (hist w)) as [e|temp]; [done|].
  destruct (writeCommands env temp _ _) as [[e|] w2]; [done|].
  cbn [fst snd]. by destruct (env_flush env (hist w2) temp).
Qed.

(** A script that cannot be opened ends its iteration at once. *)
Lemma provisionScript_open_fails (env : Env) (fuel : nat) (cfg : Config)
    (path : string) (deferred : list string) (w : World) (e : error) :
  let w2 :=
    log_Print env ("Opening " +:+ path +:+ " for reading")
      (ui_Say env ("Provisioning with powershell script: " +:+ path) w) in
  env_open env (hist w2) path = Some e →
  provisionScript env fuel cfg path deferred w
  = Done (Some ("Error opening powershell script: " +:+ e), deferred,
          emit env (OsOpen path (Some e)) w2).
Proof.
  intros w2 Hopen. unfold provisionScript, os_Open. fold w2. by rewrite Hopen.
Qed.

(** C9.  When the inline commands are configured and [extractScript]
    fails with [err], [Provision] tells the UI, appends the path that
    [extractScript] returned, the empty string, to the script list, and runs
    the loop over the scripts as if nothing had happened: [err] is not what
    [Provision] returns.  With no script file configured, the iteration of
    the loop for the empty path is all that is left; if opening that path
    fails, as it does in a file system, [Provision] returns the error of
    the opening. *)
Theorem inline_extraction_failure_not_returned (env : Env) (fuel : nat)
    (cfg : Config) (w : World) (err : error) :
  let w1 := ui_Say env "Provisioning with Powershell..." w in
  let w2 :=
    ui_Error env ("Unable to extract inline scripts into a file: " +:+ err)
      (extractScript env cfg w1).2 in
  let w3 :=
    log_Print env "Opening  for reading"
      (ui_Say env "Provisioning with powershell script: " w2) in
  Inline cfg ≠ None →
  (extractScript env cfg w1).1.2 = Some err →
  scriptList env cfg w1 = (elems (Scripts cfg) ++ [""], w2)
  ∧ Provision env fuel cfg w
    = match provisionScripts env fuel cfg (elems (Scripts cfg) ++ [""]) [] w2 with
      | Done (r, d, w') => Done (r, runDeferred env d w')
      | Panic => Panic
      | OutOfFuel => OutOfFuel
      end
  ∧ (elems (Scripts cfg) = [] →
     ∀ e, env_open env (hist w3) "" = Some e →
          Provision env fuel cfg w
          = Done (Some ("Error opening powershell script: " +:+ e),
                  emit env (OsOpen "" (Some e)) w3)).
Proof.
  intros w1 w2 w3 Hinline Herr.
  assert (Hlist : scriptList env cfg w1 = (elems (Scripts cfg) ++ [""], w2)).
  { unfold scriptList. destruct (Inline cfg) as [inline|]; [|done].
    pose proof (extractScript_error env cfg w1 err Herr) as Htemp.
    subst w2. destruct (extractScript env cfg w1) as [[temp e] w']; simpl in *.
    by subst. }
  split; [exact Hlist|]. split.
  - unfold Provision. fold w1. by rewrite Hlist.
  - intros Hnone e Hopen. unfold Provision. fold w1. rewrite Hlist, Hnone.
    cbn [app provisionScripts].
    rewrite (provisionScript_open_fails env fuel cfg "" [] w2 e Hopen). done.
Qed.

Lemma inline_extraction_failure_not_returned_witness :
  let env :=
    {| env_elapsed := λ _ _, 1000000%N;
       env_open := λ _ path,
         if decide (path = "") then Some "open : no such file or directory"
         else None;
       env_seek := λ _ _, None;
       env_tempfile := λ _, inl "no space left on device";
       env_write := λ _ _ _, None;
       env_flush := λ _ _, None;
       env_upload := λ _ _ _, None;
       env_start := never_start;
       env_uuid := λ _, "uuid";
       env_render := λ _ data, inr (Tpl_Path data);
       env_powershellEncode := λ command, inr command;
       env_elevatedTemplate := λ _, inr "";
       env_sprintf := λ format key value, sprintf_s format [key; value];
       env_httpAddr := "" |} in
  let cfg :=
    {| PackerBuildName := "build"; PackerBuilderType := "amazon-ebs";
       Binary := false; Inline := Some ["dir"]; Script := "";
       Scripts := Some []; Vars := Some [];
       RemotePath := "c:/Windows/Temp/script.ps1";
       ExecuteCommand := defaultExecuteCommand;
       ElevatedExecuteCommand := defaultElevatedExecuteCommand;
       StartRetryTimeout := 5 * Time.Second;
       EnvVarFormat := defaultEnvVarFormat;
       ElevatedEnvVarFormat := defaultEnvVarFormat;
       ElevatedUser := ""; ElevatedPassword := "";
       ValidExitCodes := Some [0] |} in
  ∃ w',
    Provision env 1 cfg world0
    = Done (Some "Error opening powershell script: open : no such file or directory", w')
    ∧ hist w'
      = [UiSay "Provisioning with Powershell...";
         TempFile (inl "no space left on device");
         UiError "Unable to extract inline scripts into a file: no space left on device";
         UiSay "Provisioning with powershell script: ";
         LogPrint "Opening  for reading";
         OsOpen "" (Some "open : no such file or directory")].
Proof.
  intros env cfg. eexists. split.
  - apply (inline_extraction_failure_not_returned env 1 cfg world0
             "no space left on device");
      [done | reflexivity | reflexivity | reflexivity].
  - reflexivity.
Defined.

(** * The environment assembler *)

Lemma string_app_nil_r (s : string) : s +:+ "" = s.
Proof.
  induction s as [|a s IH]; [done|].
  change (String a (s +:+ "") = String a s). by rewrite IH.
Qed.

Lemma string_app_assoc (s1 s2 s3 : string) :
  (s1 +:+ s2) +:+ s3 = s1 +:+ (s2 +:+ s3).
Proof.
  induction s1 as [|a s1 IH]; [done|].
  change (String a ((s1 +:+ s2) +:+ s3) = String a (s1 +:+ (s2 +:+ s3))).
  by rewrite IH.
Qed.

Lemma concat_all_app (l1 l2 : list string) :
  concat_all (l1 ++ l2) = concat_all l1 +:+ concat_all l2.
Proof.
  induction l1 as [|s l1 IH]; [done|].
  change (concat_all ((s :: l1) ++ l2)) with (s +:+ concat_all (l1 ++ l2)).
  change (concat_all (s :: l1)) with (s +:+ concat_all l1).
  by rewrite IH, string_app_assoc.
Qed.

(** Appending entry after entry gives the entries one after the other. *)
Lemma flatten_concat_all (env : Env) (format : string)
    (envVars : gmap string string) (keys : list string) :
  flatten env format envVars keys
  = concat_all (entry env format envVars <$> keys).
Proof.
  unfold flatten.
  assert (Hgen : ∀ acc,
    foldl (λ flattened key,
             flattened +:+ env_sprintf env format key
                             (default "" (envVars !! key))) acc keys
    = acc +:+ concat_all (entry env format envVars <$> keys)).
  { induction keys as [|key keys IH]; intros acc; cbn [foldl fmap list_fmap].
    - change (concat_all []) with "". by rewrite string_app_nil_r.
    - rewrite IH, string_app_assoc. done. }
  by rewrite Hgen.
Qed.

(** ** Cutting the variables *)

Lemma SplitN_eq_2_cut (kv k v : string) :
  cut "="%char kv = Some (k, v) → SplitN_eq_2 kv = [k; v].
Proof. unfold SplitN_eq_2. by intros ->. Qed.

Lemma assignVars_wellFormed (vars : list string) :
  Forall wellFormedVar vars →
  ∀ envVars, assignVars vars envVars = Some (assignAll (parseVars vars) envVars).
Proof.
  induction 1 as [|kv vars [[k v] Hkv] _ IH]; intros envVars; [done|].
  cbn [assignVars]. rewrite (SplitN_eq_2_cut kv k v Hkv). cbn.
  unfold parseVars. cbn [omap list_omap]. rewrite Hkv. cbn. apply IH.
Qed.

Lemma assignAll_snoc (kvs : list (string * string)) (k v : string) envVars :
  assignAll (kvs ++ [(k, v)]) envVars = <[k := v]> (assignAll kvs envVars).
Proof. unfold assignAll. by rewrite foldl_snoc. Qed.

Lemma dom_assignAll (kvs : list (string * string)) envVars :
  dom (assignAll kvs envVars) = list_to_set kvs.*1 ∪ dom envVars.
Proof.
  induction kvs as [|[k v] kvs IH] using rev_ind.
  { cbn. by rewrite (left_id_L ∅ (∪)). }
  rewrite assignAll_snoc, dom_insert_L, IH, fmap_app, list_to_set_app_L.
  cbn. rewrite (right_id_L ∅ (∪)), (assoc_L (∪)).
  f_equal. apply (comm_L (∪)).
Qed.

(** The last assignment to a key is the one that stays. *)
Lemma lookup_assignAll_last (pre post : list (string * string)) (k v : string)
    envVars :
  k ∉ post.*1 →
  assignAll (pre ++ (k, v) :: post) envVars !! k = Some v.
Proof.
  induction post as [|[k' v'] post IH] using rev_ind; intros Hk.
  - rewrite assignAll_snoc. apply lookup_insert_eq.
  - rewrite fmap_app, not_elem_of_app in Hk. destruct Hk as [Hk Hk'].
    replace (pre ++ (k, v) :: post ++ [(k', v')])
      with ((pre ++ (k, v) :: post) ++ [(k', v')])
      by (by rewrite <- app_assoc).
    rewrite assignAll_snoc, lookup_insert_ne; [by apply IH|].
    intros ->. apply Hk'. cbn. apply list_elem_of_here.
Qed.

Lemma lookup_assignAll_none (kvs : list (string * string)) (k : string) envVars :
  k ∉ kvs.*1 → assignAll kvs envVars !! k = envVars !! k.
Proof.
  induction kvs as [|[k' v'] kvs IH] using rev_ind; intros Hk; [done|].
  rewrite fmap_app, not_elem_of_app in Hk. destruct Hk as [Hk Hk'].
  rewrite assignAll_snoc, lookup_insert_ne; [by apply IH|].
  intros ->. apply Hk'. cbn. apply list_elem_of_here.
Qed.

(** With one assignment per key, the order of the assignments does not
    matter. *)
Lemma assignAll_union (kvs : list (string * string)) envVars :
  assignAll kvs envVars = list_to_map (reverse kvs) ∪ envVars.
Proof.
  induction kvs as [|[k v] kvs IH] using rev_ind.
  { symmetry. apply (left_id_L (∅ : gmap string string) (∪)). }
  rewrite assignAll_snoc, IH, reverse_snoc. cbn [list_to_map foldr].
  by rewrite insert_union_l.
Qed.

Lemma assignAll_Permutation (kvs kvs' : list (string * string)) envVars :
  NoDup kvs.*1 → kvs ≡ₚ kvs' → assignAll kvs envVars = assignAll kvs' envVars.
Proof.
  intros Hnodup Hperm. rewrite !assignAll_union. f_equal.
  apply list_to_map_proper.
  - by rewrite fmap_reverse, reverse_Permutation.
  - by rewrite !reverse_Permutation.
Qed.

(** ** Sorting the keys *)

Lemma string_compare_refl (s : string) : String.compare s s = Eq.
Proof. by apply OrderedTypeEx.String_as_OT.cmp_eq. Qed.

Lemma string_ltb_le_ne (a b : string) :
  String.ltb a b = true ↔ String.le a b ∧ a ≠ b.
Proof.
  unfold String.le, String.ltb, String.leb.
  destruct (String.compare a b) eqn:Hcmp; cbn.
  - apply String.compare_eq_iff in Hcmp. split; [done|]. by intros [_ ?].
  - split; [|done]. intros _. split; [done|]. intros ->.
    by rewrite string_compare_refl in Hcmp.
  - split; [done|]. by intros [[] _].
Qed.

Lemma StronglySorted_strict (l : list string) :
  StronglySorted String.le l → NoDup l →
  StronglySorted (λ a b, String.ltb a b = true) l.
Proof.
  induction 1 as [|a l Hsorted IH Hall]; intros Hnodup; [constructor|].
  apply NoDup_cons in Hnodup as [Ha Hnodup].
  constructor; [by apply IH|].
  rewrite Forall_forall in Hall |- *. intros b Hb.
  apply string_ltb_le_ne. split; [by apply Hall|]. by intros ->.
Qed.

Lemma sort_Strings_Permutation (keys : list string) : sort_Strings keys ≡ₚ keys.
Proof. apply merge_sort_Permutation. Qed.

Lemma sort_Strings_sorted (keys : list string) :
  NoDup keys →
  StronglySorted (λ a b, String.ltb a b = true) (sort_Strings keys).
Proof.
  intros Hnodup. apply StronglySorted_strict.
  - apply (StronglySorted_merge_sort String.le).
  - by rewrite sort_Strings_Permutation.
Qed.

(** Sorting forgets the order the keys came in: whatever order Go's
    iteration over the map takes, the sorted slice is the same. *)
Lemma sort_Strings_order_irrelevant (keys keys' : list string) :
  keys ≡ₚ keys' → sort_Strings keys = sort_Strings keys'.
Proof.
  intros Hperm. apply (Sorted_unique String.le).
  - apply (Sorted_merge_sort String.le).
  - apply (Sorted_merge_sort String.le).
  - by rewrite !sort_Strings_Permutation.
Qed.

Lemma NoDup_rangeKeys (envVars : gmap string string) : NoDup (rangeKeys envVars).
Proof. apply NoDup_fst_map_to_list. Qed.

Lemma elem_of_rangeKeys (envVars : gmap string string) (key : string) :
  key ∈ rangeKeys envVars ↔ is_Some (envVars !! key).
Proof.
  unfold rangeKeys. rewrite list_elem_of_fmap. split.
  - intros ([k v] & -> & Hin). apply elem_of_map_to_list in Hin. by exists v.
  - intros [v Hv]. exists (key, v). split; [done|]. by apply elem_of_map_to_list.
Qed.

Lemma rangeKeys_dom (m1 m2 : gmap string string) :
  dom m1 = dom m2 → rangeKeys m1 ≡ₚ rangeKeys m2.
Proof.
  intros Hdom. apply NoDup_Permutation; [apply NoDup_rangeKeys..|].
  intros key. rewrite !elem_of_rangeKeys, <- !elem_of_dom. by rewrite Hdom.
Qed.

Lemma mergedEnvVars_wellFormed (env : Env) (cfg : Config) :
  Forall wellFormedVar (elems (Vars cfg)) →
  mergedEnvVars env cfg
  = Some (assignAll (parseVars (elems (Vars cfg))) (reservedEnvVars env cfg)).
Proof.
  intros Hwf. unfold mergedEnvVars. by rewrite assignVars_wellFormed.
Qed.

Lemma keyOf_parseVars (vars : list string) :
  Forall wellFormedVar vars → keyOf <$> vars = Some <$> (parseVars vars).*1.
Proof.
  induction 1 as [|kv vars [[k v] Hkv] _ IH]; [done|].
  unfold parseVars. cbn [fmap list_fmap omap list_omap].
  unfold keyOf at 1. rewrite Hkv. cbn. f_equal. exact IH.
Qed.

(** C5.  For environment variables that are all of the form [key=value]
    and for either value of the elevation flag, [createFlattenedEnvVars]
    returns the entries [Sprintf(format, key, value)] of the merged
    variables one after the other, with nothing in between, in the list
    [keys] of the keys of the merged map, which is strictly ascending in the
    byte-wise order of strings and holds each key once.  This list depends
    neither on the order in which Go iterates over the map nor on the order
    of the configured variables; and when no key is configured twice, the
    whole string does not depend on the order of the configured variables
    either. *)
Theorem flattened_in_key_order (env : Env) (cfg : Config) (elevated : bool) :
  Forall wellFormedVar (elems (Vars cfg)) →
  ∃ envVars keys,
    mergedEnvVars env cfg = Some envVars
    ∧ createFlattenedEnvVars env cfg elevated
      = Some (concat_all (entry env (formatOf cfg elevated) envVars <$> keys))
    ∧ StronglySorted (λ a b, String.ltb a b = true) keys
    ∧ (∀ key, key ∈ keys ↔ is_Some (envVars !! key))
    ∧ (∀ order, order ≡ₚ rangeKeys envVars → sort_Strings order = keys)
    ∧ (∀ vars',
         vars' ≡ₚ elems (Vars cfg) →
         ∃ envVars',
           mergedEnvVars env (withVars (Some vars') cfg) = Some envVars'
           ∧ sort_Strings (rangeKeys envVars') = keys
           ∧ (NoDup (keyOf <$> vars') →
              createFlattenedEnvVars env (withVars (Some vars') cfg) elevated
              = createFlattenedEnvVars env cfg elevated)).
Proof.
  intros Hwf.
  set (envVars := assignAll (parseVars (elems (Vars cfg)))
                    (reservedEnvVars env cfg)).
  pose proof (mergedEnvVars_wellFormed env cfg Hwf) as Hmerged.
  fold envVars in Hmerged.
  exists envVars, (sort_Strings (rangeKeys envVars)).
  split; [exact Hmerged|]. split.
  { unfold createFlattenedEnvVars. rewrite Hmerged.
    by rewrite flatten_concat_all. }
  split; [apply sort_Strings_sorted, NoDup_rangeKeys|]. split.
  { intros key. by rewrite sort_Strings_Permutation, elem_of_rangeKeys. }
  split; [intros order; apply sort_Strings_order_irrelevant|].
  intros vars' Hperm.
  assert (Hwf' : Forall wellFormedVar (elems (Vars (withVars (Some vars') cfg)))).
  { cbn. by rewrite Hperm. }
  pose proof (mergedEnvVars_wellFormed env _ Hwf') as Hmerged'.
  cbn [Vars withVars elems default] in Hmerged'. unfold id in Hmerged'.
  change (reservedEnvVars env (withVars (Some vars') cfg))
    with (reservedEnvVars env cfg) in Hmerged'.
  eexists. split; [exact Hmerged'|]. split.
  - apply sort_Strings_order_irrelevant, rangeKeys_dom.
    unfold envVars. rewrite !dom_assignAll. f_equal.
    apply set_eq. intros key. rewrite !elem_of_list_to_set.
    unfold parseVars. by rewrite Hperm.
  - intros Hnodup. unfold createFlattenedEnvVars.
    rewrite Hmerged, Hmerged'.
    change (ElevatedEnvVarFormat (withVars (Some vars') cfg))
      with (ElevatedEnvVarFormat cfg).
    change (EnvVarFormat (withVars (Some vars') cfg))
      with (EnvVarFormat cfg).
    assert (Heq : assignAll (parseVars vars') (reservedEnvVars env cfg) = envVars).
    { apply assignAll_Permutation.
      - cbn in Hwf'. rewrite keyOf_parseVars in Hnodup by done.
        eapply NoDup_fmap_1. exact Hnodup.
      - unfold parseVars. by rewrite Hperm. }
    by rewrite Heq.
Qed.

Lemma flattened_in_key_order_witness :
  createFlattenedEnvVars (demo_env never_start) demo_config false
  = Some ("$env:BAR=" +:+ dquote +:+ "baz=qux" +:+ dquote +:+ "; "
          +:+ "$env:FOO=" +:+ dquote +:+ "bar" +:+ dquote +:+ "; "
          +:+ "$env:PACKER_BUILDER_TYPE=" +:+ dquote +:+ "amazon-ebs" +:+ dquote +:+ "; "
          +:+ "$env:PACKER_BUILD_NAME=" +:+ dquote +:+ "build" +:+ dquote +:+ "; ")
  ∧ ∃ envVars keys,
      mergedEnvVars (demo_env never_start) demo_config = Some envVars
      ∧ createFlattenedEnvVars (demo_env never_start) demo_config false
        = Some (concat_all
                  (entry (demo_env never_start) (formatOf demo_config false)
                     envVars <$> keys))
      ∧ StronglySorted (λ a b, String.ltb a b = true) keys.
Proof.
  split; [vm_compute; reflexivity|].
  destruct (flattened_in_key_order (demo_env never_start) demo_config false)
    as (envVars & keys & H1 & H2 & H3 & _).
  - repeat constructor; vm_compute; eauto.
  - exists envVars, keys. split; [exact H1|]. split; [exact H2|exact H3].
Defined.

(** ** Reserved keys *)

Lemma lookup_reserved_build_name (env : Env) (cfg : Config) :
  reservedEnvVars env cfg !! "PACKER_BUILD_NAME" = Some (PackerBuildName cfg).
Proof.
  unfold reservedEnvVars. destruct (decide _).
  - rewrite lookup_insert_ne by done. rewrite lookup_insert_ne by done.
    apply lookup_insert_eq.
  - rewrite lookup_insert_ne by done. apply lookup_insert_eq.
Qed.

Lemma lookup_reserved_builder_type (env : Env) (cfg : Config) :
  reservedEnvVars env cfg !! "PACKER_BUILDER_TYPE"
  = Some (PackerBuilderType cfg).
Proof.
  unfold reservedEnvVars. destruct (decide _).
  - rewrite lookup_insert_ne by done. apply lookup_insert_eq.
  - apply lookup_insert_eq.
Qed.

Lemma lookup_reserved_http_addr (env : Env) (cfg : Config) :
  env_httpAddr env ≠ "" →
  reservedEnvVars env cfg !! "PACKER_HTTP_ADDR" = Some (env_httpAddr env).
Proof.
  intros Haddr. unfold reservedEnvVars.
  destruct (decide _); [|done]. apply lookup_insert_eq.
Qed.

Lemma not_elem_of_keys (vars : list string) (key : string) :
  Forall wellFormedVar vars →
  Some key ∉ keyOf <$> vars → key ∉ (parseVars vars).*1.
Proof.
  intros Hwf Hk. rewrite keyOf_parseVars in Hk by done.
  intros Hin. apply Hk. by apply list_elem_of_fmap_2.
Qed.

(** Every binding of the merged map has its entry in the flattened
    string. *)
Lemma binding_rendered (env : Env) (cfg : Config) (elevated : bool)
    (envVars : gmap string string) (key value : string) :
  mergedEnvVars env cfg = Some envVars →
  envVars !! key = Some value →
  ∃ before after,
    createFlattenedEnvVars env cfg elevated
    = Some (before
            +:+ env_sprintf env (formatOf cfg elevated) key value
            +:+ after).
Proof.
  intros Hmerged Hkey. unfold createFlattenedEnvVars. rewrite Hmerged.
  rewrite flatten_concat_all. fold (formatOf cfg elevated).
  assert (Hin : key ∈ sort_Strings (rangeKeys envVars)).
  { rewrite sort_Strings_Permutation, elem_of_rangeKeys. by exists value. }
  apply list_elem_of_split in Hin as (l1 & l2 & ->).
  exists (concat_all (entry env (formatOf cfg elevated) envVars <$> l1)),
         (concat_all (entry env (formatOf cfg elevated) envVars <$> l2)).
  rewrite fmap_app, concat_all_app. cbn [fmap list_fmap].
  unfold entry at 2. by rewrite Hkey.
Qed.

(** C6.  For environment variables that are all of the form [key=value],
    the merged map holds [PACKER_BUILD_NAME] and [PACKER_BUILDER_TYPE], and
    [PACKER_HTTP_ADDR] when the HTTP address is not empty; each has its
    reserved value unless a configured variable has that key.  A configured
    variable [key=value], the last one with its key, binds [key] to [value]
    in the merged map, whatever the key, a reserved one included.  And
    every binding of the merged map is rendered in the flattened string, so
    a reserved key is rendered with the user's value when there is one. *)
Theorem reserved_keys_and_overrides (env : Env) (cfg : Config)
    (elevated : bool) :
  Forall wellFormedVar (elems (Vars cfg)) →
  ∃ envVars,
    mergedEnvVars env cfg = Some envVars
    ∧ is_Some (envVars !! "PACKER_BUILD_NAME")
    ∧ is_Some (envVars !! "PACKER_BUILDER_TYPE")
    ∧ (env_httpAddr env ≠ "" → is_Some (envVars !! "PACKER_HTTP_ADDR"))
    ∧ (Some "PACKER_BUILD_NAME" ∉ keyOf <$> elems (Vars cfg) →
       envVars !! "PACKER_BUILD_NAME" = Some (PackerBuildName cfg))
    ∧ (Some "PACKER_BUILDER_TYPE" ∉ keyOf <$> elems (Vars cfg) →
       envVars !! "PACKER_BUILDER_TYPE" = Some (PackerBuilderType cfg))
    ∧ (env_httpAddr env ≠ "" →
       Some "PACKER_HTTP_ADDR" ∉ keyOf <$> elems (Vars cfg) →
       envVars !! "PACKER_HTTP_ADDR" = Some (env_httpAddr env))
    ∧ (∀ pre kv post key value,
         elems (Vars cfg) = pre ++ kv :: post →
         cut "="%char kv = Some (key, value) →
         Some key ∉ keyOf <$> post →
         envVars !! key = Some value)
    ∧ (∀ key value,
         envVars !! key = Some value →
         ∃ before after,
           createFlattenedEnvVars env cfg elevated
           = Some (before
                   +:+ env_sprintf env (formatOf cfg elevated) key value
                   +:+ after)).
Proof.
  intros Hwf.
  pose proof (mergedEnvVars_wellFormed env cfg Hwf) as Hmerged.
  set (kvs := parseVars (elems (Vars cfg))) in *.
  set (envVars := assignAll kvs (reservedEnvVars env cfg)) in *.
  assert (Hdom : ∀ key, is_Some (reservedEnvVars env cfg !! key) →
                        is_Some (envVars !! key)).
  { intros key. rewrite <- !elem_of_dom. unfold envVars.
    rewrite dom_assignAll. apply elem_of_union_r. }
  assert (Hkeep : ∀ key, Some key ∉ keyOf <$> elems (Vars cfg) →
                         envVars !! key = reservedEnvVars env cfg !! key).
  { intros key Hk. apply lookup_assignAll_none. by apply not_elem_of_keys. }
  exists envVars. split; [exact Hmerged|].
  split; [apply Hdom; by rewrite lookup_reserved_build_name|].
  split; [apply Hdom; by rewrite lookup_reserved_builder_type|].
  split; [intros Haddr; apply Hdom; by rewrite lookup_reserved_http_addr|].
  split; [intros Hk; by rewrite Hkeep, lookup_reserved_build_name|].
  split; [intros Hk; by rewrite Hkeep, lookup_reserved_builder_type|].
  split; [intros Haddr Hk; by rewrite Hkeep, lookup_reserved_http_addr|].
  split.
  - intros pre kv post key value Hvars Hkv Hlast.
    unfold envVars, kvs, parseVars. rewrite Hvars, omap_app.
    cbn [omap list_omap]. rewrite Hkv. cbn.
    apply lookup_assignAll_last. apply not_elem_of_keys; [|done].
    rewrite Hvars in Hwf. apply Forall_app in Hwf as [_ Hwf].
    by apply Forall_cons in Hwf as [_ ?].
  - intros key value. by apply binding_rendered.
Qed.

Lemma reserved_keys_and_overrides_witness :
  let cfg := withVars (Some ["PACKER_BUILD_NAME=mine"; "FOO=bar"]) demo_config in
  createFlattenedEnvVars (demo_env never_start) cfg false
  = Some ("$env:FOO=" +:+ dquote +:+ "bar" +:+ dquote +:+ "; "
          +:+ "$env:PACKER_BUILDER_TYPE=" +:+ dquote +:+ "amazon-ebs" +:+ dquote +:+ "; "
          +:+ "$env:PACKER_BUILD_NAME=" +:+ dquote +:+ "mine" +:+ dquote +:+ "; ")
  ∧ ∃ envVars,
      mergedEnvVars (demo_env never_start) cfg = Some envVars
      ∧ envVars !! "PACKER_BUILD_NAME" = Some "mine"
      ∧ envVars !! "PACKER_BUILDER_TYPE" = Some "amazon-ebs".
Proof.
  intros cfg. split; [vm_compute; reflexivity|].
  destruct (reserved_keys_and_overrides (demo_env never_start) cfg false)
    as (envVars & Hm & _ & _ & _ & _ & Htype & _ & Huser & _).
  - repeat constructor; vm_compute; eauto.
  - exists envVars. split; [exact Hm|]. split.
    + apply (Huser [] "PACKER_BUILD_NAME=mine" ["FOO=bar"]); [done|done|].
      vm_compute. intros Hin.
      repeat (apply elem_of_cons in Hin as [?|Hin]; [done|]).
      by apply elem_of_nil in Hin.
    + apply Htype. vm_compute. intros Hin.
      repeat (apply elem_of_cons in Hin as [?|Hin]; [done|]).
      by apply elem_of_nil in Hin.
Defined.

(** * Configuration errors *)

Lemma elem_of_MultiErrorAppend (errs : option MultiError) (err x : error) :
  x ∈ elems (MultiErrorAppend errs err) ↔ x ∈ elems errs ∨ x = err.
Proof.
  unfold MultiErrorAppend. cbn.
  rewrite elem_of_app, list_elem_of_singleton. done.
Qed.

Lemma when_keeps (b : bool) (err x : error) (errs : option MultiError) :
  x ∈ elems errs → x ∈ elems (when b err errs).
Proof.
  destruct b; [|done]. intros Hx. apply elem_of_MultiErrorAppend. by left.
Qed.

Lemma when_adds (err : error) (errs : option MultiError) :
  err ∈ elems (when true err errs).
Proof. apply elem_of_MultiErrorAppend. by right. Qed.

Lemma checkScripts_keeps (stat : string → option error) (scripts : list string)
    (errs : option MultiError) (x : error) :
  x ∈ elems errs → x ∈ elems (checkScripts stat scripts errs).
Proof.
  revert errs. induction scripts as [|path scripts IH]; intros errs Hx; [done|].
  unfold checkScripts. cbn [foldl]. apply IH.
  destruct (stat path); [|done]. apply elem_of_MultiErrorAppend. by left.
Qed.

Lemma checkScripts_adds (stat : string → option error) (scripts : list string)
    (errs : option MultiError) (path : string) (e : error) :
  path ∈ scripts → stat path = Some e →
  ("Bad script '" +:+ path +:+ "': " +:+ e)
    ∈ elems (checkScripts stat scripts errs).
Proof.
  revert errs. induction scripts as [|p scripts IH]; intros errs Hin Hstat.
  { by apply elem_of_nil in Hin. }
  apply elem_of_cons in Hin as [<-|Hin].
  - unfold checkScripts. cbn [foldl]. rewrite Hstat.
    apply checkScripts_keeps, elem_of_MultiErrorAppend. by right.
  - unfold checkScripts. cbn [foldl]. by apply IH.
Qed.

Lemma checkVars_keeps (vars : list string) (errs : option MultiError)
    (x : error) :
  x ∈ elems errs → x ∈ elems (checkVars vars errs).
Proof.
  revert errs. induction vars as [|kv vars IH]; intros errs Hx; [done|].
  unfold checkVars. cbn [foldl]. apply IH. by apply when_keeps.
Qed.

Lemma checkVars_adds (vars : list string) (errs : option MultiError)
    (kv : string) :
  kv ∈ vars → badVar kv = true →
  ("Environment variable not in format 'key=value': " +:+ kv)
    ∈ elems (checkVars vars errs).
Proof.
  revert errs. induction vars as [|kv' vars IH]; intros errs Hin Hbad.
  { by apply elem_of_nil in Hin. }
  apply elem_of_cons in Hin as [<-|Hin].
  - unfold checkVars. cbn [foldl]. rewrite Hbad.
    apply checkVars_keeps, when_adds.
  - unfold checkVars. cbn [foldl]. by apply IH.
Qed.

(** The scripts [Prepare] goes on with: the single [script] if there is
    one, else the list [scripts]. *)
Lemma validate_Scripts (stat : string → option error) (c : Config) :
  elems (Scripts (validate stat c).1)
  = if decide (Script c = "") then elems (Scripts c) else [Script c].
Proof.
  unfold validate. cbn [fst].
  destruct (decide (Script c ≠ "")), (decide (Script c = "")); done.
Qed.

Lemma length_pos_bool {A} (l : list A) : (0 <? length l)%nat = true ↔ l ≠ [].
Proof. destruct l; cbn; split; done. Qed.

Lemma length_zero_bool {A} (l : list A) : (length l =? 0)%nat = true ↔ l = [].
Proof. destruct l; cbn; split; done. Qed.

(** Every check of [validate] that fails leaves its message in the
    aggregate. *)
Lemma validate_collects (stat : string → option error) (c : Config) :
  let errs := elems (validate stat c).2 in
  (Script c ≠ "" → elems (Scripts c) ≠ [] →
   "Only one of script or scripts can be specified." ∈ errs)
  ∧ (ElevatedUser c ≠ "" → ElevatedPassword c = "" →
     "Must supply an 'elevated_password' if 'elevated_user' provided" ∈ errs)
  ∧ (ElevatedUser c = "" → ElevatedPassword c ≠ "" →
     "Must supply an 'elevated_user' if 'elevated_password' provided" ∈ errs)
  ∧ (Script c = "" → elems (Scripts c) = [] → Inline c = None →
     "Either a script file or inline script must be specified." ∈ errs)
  ∧ (Script c ≠ "" ∨ elems (Scripts c) ≠ [] → Inline c ≠ None →
     "Only a script file or an inline script can be specified, not both."
       ∈ errs)
  ∧ (∀ path e,
       path ∈ elems (Scripts (validate stat c).1) → stat path = Some e →
       ("Bad script '" +:+ path +:+ "': " +:+ e) ∈ errs)
  ∧ (∀ kv,
       kv ∈ elems (Vars c) → badVar kv = true →
       ("Environment variable not in format 'key=value': " +:+ kv) ∈ errs).
Proof.
  unfold validate. cbn [fst snd].
  set (e1 := when _ "Only one of script or scripts can be specified." None).
  set (e2 := when _ "Must supply an 'elevated_password' if 'elevated_user' provided" e1).
  set (e3 := when _ "Must supply an 'elevated_user' if 'elevated_password' provided" e2).
  set (c' := if decide (Script c ≠ "") then singleScript c else c).
  set (e4 := if (length (elems (Scripts c')) =? 0)%nat && _ then _ else _).
  assert (Hvars : Vars c' = Vars c) by (unfold c'; by destruct (decide _)).
  assert (Hinline : Inline c' = Inline c) by (unfold c'; by destruct (decide _)).
  assert (H34 : ∀ x, x ∈ elems e3 → x ∈ elems e4).
  { intros x Hx. unfold e4.
    repeat case_match; try done; apply elem_of_MultiErrorAppend; by left. }
  assert (Hend : ∀ x, x ∈ elems e4 →
            x ∈ elems (checkVars (elems (Vars c'))
                         (checkScripts stat (elems (Scripts c')) e4))).
  { intros x Hx. by apply checkVars_keeps, checkScripts_keeps. }
  repeat split.
  - intros Hscript Hscripts. apply Hend, H34. unfold e3, e2.
    do 2 apply when_keeps. unfold e1.
    rewrite bool_decide_eq_true_2 by done.
    apply length_pos_bool in Hscripts. rewrite Hscripts. apply when_adds.
  - intros Huser Hpass. apply Hend, H34. unfold e3. apply when_keeps.
    unfold e2. rewrite !bool_decide_eq_true_2 by done. apply when_adds.
  - intros Huser Hpass. apply Hend, H34. unfold e3.
    rewrite !bool_decide_eq_true_2 by done. apply when_adds.
  - intros Hscript Hscripts Hnone. apply Hend. unfold e4, c'.
    destruct (decide (Script c ≠ "")); [done|].
    rewrite Hscripts. cbn. rewrite bool_decide_eq_true_2 by done.
    apply elem_of_MultiErrorAppend. by right.
  - intros Hfile Hsome. apply Hend. unfold e4.
    rewrite Hinline. rewrite (bool_decide_eq_false_2 (Inline c = None)) by done.
    rewrite andb_false_r.
    rewrite (bool_decide_eq_true_2 (Inline c ≠ None)) by done.
    assert (Hpos : (0 <? length (elems (Scripts c')))%nat = true).
    { apply length_pos_bool. unfold c'.
      destruct (decide (Script c ≠ "")); [done|].
      destruct Hfile as [?|?]; [|done]. by destruct (decide (Script c = "")). }
    rewrite Hpos. cbn. apply elem_of_MultiErrorAppend. by right.
  - intros path e Hin Hstat. apply checkVars_keeps.
    by apply checkScripts_adds.
  - intros kv Hin Hbad. rewrite Hvars. by apply checkVars_adds.
Qed.

Lemma applyDefaults_Scripts (uuid : string) (c : Config) :
  elems (Scripts (applyDefaults uuid c)) = elems (Scripts c).
Proof. cbn. by destruct (Scripts c). Qed.

Lemma applyDefaults_Vars (uuid : string) (c : Config) :
  elems (Vars (applyDefaults uuid c)) = elems (Vars c).
Proof. cbn. by destruct (Vars c). Qed.

Lemma applyDefaults_Inline (uuid : string) (c : Config) :
  Inline (applyDefaults uuid c) = None ↔ elems (Inline c) = [].
Proof. cbn. by destruct (Inline c) as [[|]|]. Qed.

(** C7.  When the configuration has been decoded, [Prepare] runs every
    check and returns the messages of all the checks that failed in one
    aggregate, [errs]: the message about [script] and [scripts] both being
    set; the message that names [elevated_password] when only the elevated
    user is set, and the one that names [elevated_user] when only the
    elevated password is set; the message about neither a script file nor
    an inline script; the message about both a script file and an inline
    script; one message for each script that [os.Stat] rejects and for each
    environment variable that is not of the form [key=value].  In
    particular, when [script], [scripts] and [inline] are all set, both
    conflict messages are in the aggregate.  Whenever [errs] is not empty,
    it is what [Prepare] returns. *)
Theorem prepare_collects_all_errors (stat : string → option error)
    (uuid : string) (decoded : Config) :
  let result := Prepare stat uuid None decoded in
  let errs :=
    match result.2 with
    | Some (Aggregate errs) => errs
    | _ => []
    end in
  (Script decoded ≠ "" → elems (Scripts decoded) ≠ [] →
   "Only one of script or scripts can be specified." ∈ errs)
  ∧ (ElevatedUser decoded ≠ "" → ElevatedPassword decoded = "" →
     "Must supply an 'elevated_password' if 'elevated_user' provided" ∈ errs)
  ∧ (ElevatedUser decoded = "" → ElevatedPassword decoded ≠ "" →
     "Must supply an 'elevated_user' if 'elevated_password' provided" ∈ errs)
  ∧ (Script decoded = "" → elems (Scripts decoded) = [] →
     elems (Inline decoded) = [] →
     "Either a script file or inline script must be specified." ∈ errs)
  ∧ (Script decoded ≠ "" ∨ elems (Scripts decoded) ≠ [] →
     elems (Inline decoded) ≠ [] →
     "Only a script file or an inline script can be specified, not both."
       ∈ errs)
  ∧ (Script decoded ≠ "" → elems (Scripts decoded) ≠ [] →
     elems (Inline decoded) ≠ [] →
     "Only one of script or scripts can be specified." ∈ errs
     ∧ "Only a script file or an inline script can be specified, not both."
         ∈ errs)
  ∧ (∀ path e,
       path ∈ (if decide (Script decoded = "") then elems (Scripts decoded)
               else [Script decoded]) →
       stat path = Some e →
       ("Bad script '" +:+ path +:+ "': " +:+ e) ∈ errs)
  ∧ (∀ kv,
       kv ∈ elems (Vars decoded) → badVar kv = true →
       ("Environment variable not in format 'key=value': " +:+ kv) ∈ errs)
  ∧ (errs ≠ [] → result.2 = Some (Aggregate errs)).
Proof.
  intros result errs.
  pose proof (validate_collects stat (applyDefaults uuid decoded))
    as (H1 & H2 & H3 & H4 & H5 & H6 & H7).
  pose proof (validate_Scripts stat (applyDefaults uuid decoded)) as Hscripts.
  assert (Herrs : errs = elems (validate stat (applyDefaults uuid decoded)).2).
  { unfold errs, result, Prepare.
    destruct (validate stat (applyDefaults uuid decoded)) as [c [l|]]; done. }
  rewrite <- Herrs in *. clear Herrs.
  rewrite applyDefaults_Scripts in *. rewrite applyDefaults_Vars in *.
  change (Script (applyDefaults uuid decoded)) with (Script decoded) in *.
  change (ElevatedUser (applyDefaults uuid decoded))
    with (ElevatedUser decoded) in *.
  change (ElevatedPassword (applyDefaults uuid decoded))
    with (ElevatedPassword decoded) in *.
  assert (Hinline : elems (Inline decoded) ≠ [] →
                    Inline (applyDefaults uuid decoded) ≠ None).
  { intros Hne Hnone. by apply applyDefaults_Inline in Hnone. }
  repeat split; auto.
  - intros ? ? Hnone. apply H4; auto. by apply applyDefaults_Inline.
  - intros path e Hin. apply H6. by rewrite Hscripts.
  - unfold errs. by destruct (result.2) as [[|]|].
Qed.

Lemma prepare_collects_all_errors_witness :
  let decoded :=
    {| PackerBuildName := "build"; PackerBuilderType := "amazon-ebs";
       Binary := false; Inline := Some ["dir"]; Script := "a.ps1";
       Scripts := Some ["b.ps1"]; Vars := Some ["FOO=bar"; "=oops"];
       RemotePath := ""; ExecuteCommand := ""; ElevatedExecuteCommand := "";
       StartRetryTimeout := 0; EnvVarFormat := ""; ElevatedEnvVarFormat := "";
       ElevatedUser := "admin"; ElevatedPassword := "";
       ValidExitCodes := None |} in
  (Prepare (λ _, None) "uuid" None decoded).2
  = Some (Aggregate
            ["Only one of script or scripts can be specified.";
             "Must supply an 'elevated_password' if 'elevated_user' provided";
             "Only a script file or an inline script can be specified, not both.";
             "Environment variable not in format 'key=value': =oops"])
  ∧ match (Prepare (λ _, None) "uuid" None decoded).2 with
    | Some (Aggregate errs) =>
        "Only one of script or scripts can be specified." ∈ errs
        ∧ "Only a script file or an inline script can be specified, not both."
            ∈ errs
    | _ => False
    end.
Proof.
  intros decoded. split; [vm_compute; reflexivity|].
  pose proof (prepare_collects_all_errors (λ _, None) "uuid" decoded)
    as (_ & _ & _ & _ & _ & Hboth & _).
  cbv zeta in Hboth.
  destruct ((Prepare (λ _, None) "uuid" None decoded).2) as [[|errs]|] eqn:Hp;
    [done| |done].
  apply Hboth; done.
Defined.

(** * The elevated wrapper *)

(** C8.  When [generateElevatedRunner] returns a path, the last thing it
    did was to upload the wrapper, without error, under the path
    [${env:TEMP}\packer-elevated-shell-<uuid>.ps1], which is PowerShell
    syntax, and the path it returns is
    [%TEMP%\packer-elevated-shell-<uuid>.ps1], which is CMD syntax, with the
    same [uuid], the second one it generated: two different strings that
    name the same file [packer-elevated-shell-<uuid>.ps1] of the directory
    that the variable [TEMP] holds. *)
Theorem elevated_runner_two_paths (env : Env) (cfg : Config)
    (command : string) (w : World) (path : string) (w' : World) :
  generateElevatedRunner env cfg command w = (inr path, w') →
  ∃ uuid buffer h,
    let file := "\packer-elevated-shell-" +:+ uuid +:+ ".ps1" in
    path = "%TEMP%" +:+ file
    ∧ hist w' = h ++ [CommUpload ("${env:TEMP}" +:+ file) (FromBytes buffer) None]
    ∧ TimeOrderedUUID uuid ∈ h
    ∧ path ≠ "${env:TEMP}" +:+ file.
Proof.
  unfold generateElevatedRunner, uuid_TimeOrderedUUID, comm_Upload.
  destruct (env_powershellEncode env command) as [e|encoded]; [done|].
  cbn [fst snd].
  destruct (env_elevatedTemplate env _) as [e|buffer]; [done|].
  set (w2 := emit env (TimeOrderedUUID _) (log_Print env _ w)).
  set (uuid := env_uuid env (hist w2)).
  set (w4 := log_Print env _ (emit env (TimeOrderedUUID uuid) w2)).
  destruct (env_upload env (hist w4) _ _) as [e|] eqn:Hupload; [done|].
  intros [= <- <-]. exists uuid, buffer, (hist w4).
  split; [reflexivity|]. split; [reflexivity|]. split.
  - unfold w4, log_Print. cbn [hist emit].
    apply elem_of_app. left. apply elem_of_app. right.
    apply list_elem_of_here.
  - intros Heq. unfold elevatedReturnPath in Heq. discriminate Heq.
Qed.

Lemma elevated_runner_two_paths_witness :
  ∃ w',
    generateElevatedRunner (demo_env never_start) demo_config "dir" world0
    = (inr "%TEMP%\packer-elevated-shell-uuid-2.ps1", w')
    ∧ last (hist w')
      = Some (CommUpload "${env:TEMP}\packer-elevated-shell-uuid-2.ps1"
                (FromBytes "schtasks packer-uuid-1") None)
    ∧ ∃ uuid buffer h,
        "%TEMP%\packer-elevated-shell-uuid-2.ps1"
        = "%TEMP%" +:+ "\packer-elevated-shell-" +:+ uuid +:+ ".ps1"
        ∧ hist w'
          = h ++ [CommUpload
                    ("${env:TEMP}" +:+ "\packer-elevated-shell-" +:+ uuid +:+ ".ps1")
                    (FromBytes buffer) None].
Proof.
  eexists. split; [vm_compute; reflexivity|]. split; [reflexivity|].
  edestruct (elevated_runner_two_paths (demo_env never_start) demo_config
               "dir" world0) as (uuid & buffer & h & Hpath & Hhist & _).
  { vm_compute. reflexivity. }
  exists uuid, buffer, h. split; [exact Hpath | exact Hhist].
Defined.

(** * More on the environment variables *)

Lemma cut_None (s : string) : cut "="%char s = None ↔ occurs "="%char s = false.
Proof.
  induction s as [|a s IH]; [done|]. cbn [cut occurs].
  destruct (decide (a = "="%char)) as [->|Hne].
  - rewrite bool_decide_eq_true_2 by done. done.
  - rewrite bool_decide_eq_false_2 by done. cbn [orb]. rewrite <- IH.
    destruct (cut "="%char s) as [[k v]|]; done.
Qed.

Lemma cut_app (k v : string) :
  occurs "="%char k = false →
  cut "="%char (k +:+ "=" +:+ v) = Some (k, v).
Proof.
  induction k as [|a k IH]; intros Hk; [done|].
  cbn [occurs] in Hk. apply orb_false_elim in Hk as [Ha Hk].
  apply bool_decide_eq_false in Ha.
  change (String a k +:+ "=" +:+ v) with (String a (k +:+ "=" +:+ v)).
  cbn [cut]. destruct (decide (a = "="%char)); [done|]. by rewrite IH.
Qed.

Lemma cut_Some (s k v : string) :
  cut "="%char s = Some (k, v) →
  s = k +:+ "=" +:+ v ∧ occurs "="%char k = false.
Proof.
  revert k. induction s as [|a s IH]; intros k; [done|]. cbn [cut].
  destruct (decide (a = "="%char)) as [->|Hne].
  - by intros [= <- <-].
  - destruct (cut "="%char s) as [[k' v']|]; [|done]. intros [= <- <-].
    destruct (IH k' eq_refl) as [-> Hk']. split; [done|].
    cbn [occurs]. by rewrite bool_decide_eq_false_2, Hk'.
Qed.

(** X1.  The check that [Prepare] makes on an environment variable lets
    through exactly the strings [key=value] with a key that is not empty
    and, being what comes before the first [=], has no [=] in it; the value
    is arbitrary.  So [foobar] and [=foo] are rejected, as the comment in
    the source says, and [FOO=] and [FOO=a=b] are accepted. *)
Theorem badVar_false_iff (kv : string) :
  badVar kv = false
  ↔ ∃ key value,
      kv = key +:+ "=" +:+ value ∧ key ≠ "" ∧ occurs "="%char key = false.
Proof.
  unfold badVar, SplitN_eq_2. split.
  - destruct (cut "="%char kv) as [[k v]|] eqn:Hcut; [|done].
    cbn. intros Hk. apply bool_decide_eq_false in Hk.
    apply cut_Some in Hcut as [-> Hocc]. exists k, v.
    split; [done|]. split; [|done]. by intros ->.
  - intros (k & v & -> & Hne & Hocc). rewrite (cut_app k v Hocc). cbn.
    apply bool_decide_eq_false. by intros [= ->].
Qed.

Lemma assignVars_None (vars : list string) :
  ∀ envVars,
    assignVars vars envVars = None
    ↔ ∃ kv, kv ∈ vars ∧ occurs "="%char kv = false.
Proof.
  induction vars as [|kv vars IH]; intros envVars.
  { split; [done|]. intros (kv & Hin & _). by apply elem_of_nil in Hin. }
  cbn [assignVars]. unfold SplitN_eq_2.
  destruct (cut "="%char kv) as [[k v]|] eqn:Hcut; cbn.
  - rewrite IH. split.
    + intros (kv' & Hin & Hocc). exists kv'. split; [|done].
      by apply elem_of_cons; right.
    + intros (kv' & Hin & Hocc). apply elem_of_cons in Hin as [->|Hin].
      * apply cut_None in Hocc. by rewrite Hocc in Hcut.
      * by exists kv'.
  - split; [|done]. intros _. exists kv. split; [apply list_elem_of_here|].
    by apply cut_None.
Qed.

Lemma createFlattenedEnvVars_panics_aux (env : Env) (cfg : Config)
    (elevated : bool) :
  createFlattenedEnvVars env cfg elevated = None →
  ∃ kv, kv ∈ elems (Vars cfg) ∧ occurs "="%char kv = false.
Proof.
  unfold createFlattenedEnvVars.
  rewrite <- (assignVars_None (elems (Vars cfg)) (reservedEnvVars env cfg)).
  change (assignVars (elems (Vars cfg)) (reservedEnvVars env cfg))
    with (mergedEnvVars env cfg).
  by destruct (mergedEnvVars env cfg).
Qed.

(** X2.  [createFlattenedEnvVars] panics, on indexing [keyValue[1]],
    exactly when one of the configured environment variables has no [=];
    the elevation flag, the reserved variables and the format strings play
    no part in it. *)
Theorem createFlattenedEnvVars_panics_iff (env : Env) (cfg : Config)
    (elevated : bool) :
  createFlattenedEnvVars env cfg elevated = None
  ↔ ∃ kv, kv ∈ elems (Vars cfg) ∧ occurs "="%char kv = false.
Proof.
  unfold createFlattenedEnvVars.
  rewrite <- (assignVars_None (elems (Vars cfg)) (reservedEnvVars env cfg)).
  change (assignVars (elems (Vars cfg)) (reservedEnvVars env cfg))
    with (mergedEnvVars env cfg).
  destruct (mergedEnvVars env cfg); split; done.
Qed.

(** X3.  Only the first [=] of an environment variable separates the key
    from the value: when [key] has no [=], the variable [key=value] (the
    last one with this key) is rendered with exactly [value], whatever
    [value] is made of, further [=] included. *)
Theorem value_kept_whole (env : Env) (cfg : Config) (elevated : bool)
    (pre post : list string) (key value : string) :
  Forall wellFormedVar (elems (Vars cfg)) →
  elems (Vars cfg) = pre ++ (key +:+ "=" +:+ value) :: post →
  occurs "="%char key = false →
  Some key ∉ keyOf <$> post →
  ∃ envVars before after,
    mergedEnvVars env cfg = Some envVars
    ∧ envVars !! key = Some value
    ∧ createFlattenedEnvVars env cfg elevated
      = Some (before
              +:+ env_sprintf env (formatOf cfg elevated) key value
              +:+ after).
Proof.
  intros Hwf Hvars Hkey Hlast.
  pose proof (mergedEnvVars_wellFormed env cfg Hwf) as Hmerged.
  set (envVars := assignAll _ _) in Hmerged.
  assert (Hlookup : envVars !! key = Some value).
  { unfold envVars, parseVars. rewrite Hvars, omap_app.
    cbn [omap list_omap]. rewrite (cut_app key value Hkey). cbn.
    apply lookup_assignAll_last. apply not_elem_of_keys; [|done].
    rewrite Hvars in Hwf. apply Forall_app in Hwf as [_ Hwf].
    by apply Forall_cons in Hwf as [_ ?]. }
  destruct (binding_rendered env cfg elevated envVars key value Hmerged Hlookup)
    as (before & after & Hout).
  by exists envVars, before, after.
Qed.

Lemma value_kept_whole_witness :
  ∃ envVars before after,
    mergedEnvVars (demo_env never_start) demo_config = Some envVars
    ∧ envVars !! "BAR" = Some "baz=qux"
    ∧ createFlattenedEnvVars (demo_env never_start) demo_config false
      = Some (before
              +:+ env_sprintf (demo_env never_start)
                    (formatOf demo_config false) "BAR" "baz=qux"
              +:+ after).
Proof.
  apply (value_kept_whole (demo_env never_start) demo_config false
           ["FOO=bar"] [] "BAR" "baz=qux").
  - repeat constructor; vm_compute; eauto.
  - reflexivity.
  - reflexivity.
  - cbn. apply not_elem_of_nil.
Defined.

(** * More on [Prepare] *)

Lemma when_None (b : bool) (err : error) (errs : option MultiError) :
  when b err errs = None ↔ b = false ∧ errs = None.
Proof. destruct b; cbn; split; try done; by intros [? ?]. Qed.

Lemma checkScripts_cons (stat : string → option error) (path : string)
    (scripts : list string) (errs : option MultiError) :
  checkScripts stat (path :: scripts) errs
  = checkScripts stat scripts
      match stat path with
      | Some err =>
          MultiErrorAppend errs ("Bad script '" +:+ path +:+ "': " +:+ err)
      | None => errs
      end.
Proof. reflexivity. Qed.

Lemma checkVars_cons (kv : string) (vars : list string)
    (errs : option MultiError) :
  checkVars (kv :: vars) errs
  = checkVars vars
      (when (badVar kv)
         ("Environment variable not in format 'key=value': " +:+ kv) errs).
Proof. reflexivity. Qed.

Lemma checkScripts_None (stat : string → option error) (scripts : list string)
    (errs : option MultiError) :
  checkScripts stat scripts errs = None
  ↔ errs = None ∧ Forall (λ path, stat path = None) scripts.
Proof.
  revert errs. induction scripts as [|path scripts IH]; intros errs.
  { cbn. split; [by intros ->|by intros [-> _]]. }
  rewrite checkScripts_cons, IH, Forall_cons. destruct (stat path) as [e|].
  - split; [by intros [? _]|by intros [_ [? _]]].
  - tauto.
Qed.

Lemma checkVars_None (vars : list string) (errs : option MultiError) :
  checkVars vars errs = None
  ↔ errs = None ∧ Forall (λ kv, badVar kv = false) vars.
Proof.
  revert errs. induction vars as [|kv vars IH]; intros errs.
  { cbn. split; [by intros ->|by intros [-> _]]. }
  rewrite checkVars_cons, IH, when_None, Forall_cons. tauto.
Qed.

Lemma andb_false_not (a b : bool) : a && b = false ↔ ¬ (a = true ∧ b = true).
Proof. destruct a, b; cbn; intuition congruence. Qed.

Lemma scriptsToRun_nil (c : Config) :
  scriptsToRun c = [] ↔ Script c = "" ∧ elems (Scripts c) = [].
Proof.
  unfold scriptsToRun. destruct (decide (Script c = "")); [tauto|].
  split; [done|]. by intros [? _].
Qed.

Lemma validate_None (stat : string → option error) (c : Config) :
  (validate stat c).2 = None
  ↔ ¬ (Script c ≠ "" ∧ elems (Scripts c) ≠ [])
    ∧ (ElevatedUser c = "" ↔ ElevatedPassword c = "")
    ∧ ((Script c ≠ "" ∨ elems (Scripts c) ≠ []) ↔ Inline c = None)
    ∧ Forall (λ path, stat path = None) (scriptsToRun c)
    ∧ Forall (λ kv, badVar kv = false) (elems (Vars c)).
Proof.
  pose proof (validate_Scripts stat c) as Hrun. revert Hrun.
  unfold validate. cbn [fst snd].
  set (e1 := when _ "Only one of script or scripts can be specified." None).
  set (e2 := when _ "Must supply an 'elevated_password' if 'elevated_user' provided" e1).
  set (e3 := when _ "Must supply an 'elevated_user' if 'elevated_password' provided" e2).
  set (c' := if decide (Script c ≠ "") then singleScript c else c).
  assert (Hvars : Vars c' = Vars c) by (unfold c'; by destruct (decide _)).
  assert (Hinline : Inline c' = Inline c) by (unfold c'; by destruct (decide _)).
  intros Hrun. fold (scriptsToRun c) in Hrun.
  rewrite Hvars, Hinline, Hrun. clear Hrun Hvars Hinline.
  rewrite checkVars_None, checkScripts_None.
  assert (He3 : e3 = None
                ↔ ¬ (Script c ≠ "" ∧ elems (Scripts c) ≠ [])
                  ∧ ¬ (ElevatedUser c ≠ "" ∧ ElevatedPassword c = "")
                  ∧ ¬ (ElevatedUser c = "" ∧ ElevatedPassword c ≠ "")).
  { unfold e3, e2, e1. rewrite !when_None, !andb_false_not.
    rewrite !bool_decide_eq_true, length_pos_bool. tauto. }
  set (e4 := if _ && _ then _ else _).
  assert (He4 : e4 = None
                ↔ e3 = None
                  ∧ ¬ (scriptsToRun c = [] ∧ Inline c = None)
                  ∧ ¬ (scriptsToRun c ≠ [] ∧ Inline c ≠ None)).
  { unfold e4.
    destruct (_ && bool_decide (Inline c = None)) eqn:E1.
    { apply andb_true_iff in E1 as [H1 H2].
      apply length_zero_bool in H1. apply bool_decide_eq_true in H2.
      split; [done|]. by intros (_ & Hn & _); destruct Hn. }
    destruct (_ && bool_decide (Inline c ≠ None)) eqn:E2.
    { apply andb_true_iff in E2 as [H1 H2].
      apply length_pos_bool in H1. apply bool_decide_eq_true in H2.
      split; [done|]. by intros (_ & _ & Hn); destruct Hn. }
    apply andb_false_not in E1, E2.
    rewrite length_zero_bool, bool_decide_eq_true in E1.
    rewrite length_pos_bool, bool_decide_eq_true in E2. tauto. }
  rewrite He4, He3, scriptsToRun_nil. clear.
  destruct (decide (Script c = "")), (decide (elems (Scripts c) = [])),
    (decide (Inline c = None)), (decide (ElevatedUser c = "")),
    (decide (ElevatedPassword c = "")); tauto.
Qed.

Lemma prepare_accepts_iff_aux (stat : string → option error) (uuid : string)
    (decoded : Config) :
  (Prepare stat uuid None decoded).2 = None
  ↔ ¬ (Script decoded ≠ "" ∧ elems (Scripts decoded) ≠ [])
    ∧ (ElevatedUser decoded = "" ↔ ElevatedPassword decoded = "")
    ∧ ((Script decoded ≠ "" ∨ elems (Scripts decoded) ≠ [])
       ↔ elems (Inline decoded) = [])
    ∧ Forall (λ path, stat path = None) (scriptsToRun decoded)
    ∧ Forall (λ kv, badVar kv = false) (elems (Vars decoded)).
Proof.
  pose proof (validate_None stat (applyDefaults uuid decoded)) as Hv.
  unfold scriptsToRun in *.
  rewrite applyDefaults_Scripts, applyDefaults_Vars, applyDefaults_Inline in Hv.
  change (Script (applyDefaults uuid decoded)) with (Script decoded) in Hv.
  change (ElevatedUser (applyDefaults uuid decoded))
    with (ElevatedUser decoded) in Hv.
  change (ElevatedPassword (applyDefaults uuid decoded))
    with (ElevatedPassword decoded) in Hv.
  rewrite <- Hv. unfold Prepare.
  destruct (validate stat (applyDefaults uuid decoded)) as [c [errs|]];
    cbn; split; done.
Qed.

(** X4.  With the configuration decoded, [Prepare] returns nil in exactly
    these circumstances: [script] and [scripts] are not both set; the
    elevated user and the elevated password are both set or both unset;
    either a script file or an inline script is set, and not both; [os.Stat]
    accepts every script that is to be run; and every environment variable
    passes the check of its format.  ([inline] set means: not nil and not
    empty.) *)
Theorem prepare_accepts_iff (stat : string → option error) (uuid : string)
    (decoded : Config) :
  (Prepare stat uuid None decoded).2 = None
  ↔ ¬ (Script decoded ≠ "" ∧ elems (Scripts decoded) ≠ [])
    ∧ (ElevatedUser decoded = "" ↔ ElevatedPassword decoded = "")
    ∧ ((Script decoded ≠ "" ∨ elems (Scripts decoded) ≠ [])
       ↔ elems (Inline decoded) = [])
    ∧ Forall (λ path, stat path = None)
        (if decide (Script decoded = "") then elems (Scripts decoded)
         else [Script decoded])
    ∧ Forall (λ kv, badVar kv = false) (elems (Vars decoded)).
Proof. apply prepare_accepts_iff_aux. Qed.

Lemma badVar_wellFormed (kv : string) : badVar kv = false → wellFormedVar kv.
Proof.
  unfold badVar, wellFormedVar, SplitN_eq_2.
  destruct (cut "="%char kv) as [[k v]|]; [eauto|done].
Qed.

(** The configuration [Prepare] leaves is the defaulted one, with the
    single [script], if any, as its script list. *)
Lemma Prepare_config (stat : string → option error) (uuid : string)
    (decoded : Config) :
  (Prepare stat uuid None decoded).1
  = if decide (Script decoded ≠ "")
    then singleScript (applyDefaults uuid decoded)
    else applyDefaults uuid decoded.
Proof.
  unfold Prepare.
  destruct (validate stat (applyDefaults uuid decoded)) as [c errs] eqn:Hv.
  cbn [fst]. apply (f_equal fst) in Hv. cbn [fst] in Hv. rewrite <- Hv.
  reflexivity.
Qed.

Lemma Prepare_accepted_wellFormed (stat : string → option error)
    (uuid : string) (decoded c : Config) :
  Prepare stat uuid None decoded = (c, None) →
  Forall wellFormedVar (elems (Vars c)).
Proof.
  intros Hprep.
  pose proof (Prepare_config stat uuid decoded) as Hc.
  pose proof (proj1 (prepare_accepts_iff_aux stat uuid decoded)) as Hacc.
  rewrite Hprep in Hc, Hacc. cbn [fst snd] in Hc, Hacc.
  destruct (Hacc eq_refl) as (_ & _ & _ & _ & Hvars).
  assert (Hv : elems (Vars c) = elems (Vars decoded)).
  { rewrite Hc. destruct (decide _); cbn; by destruct (Vars decoded). }
  rewrite Hv. eapply Forall_impl; [exact Hvars|]. apply badVar_wellFormed.
Qed.

(** X5.  A configuration that [Prepare] accepts comes out with the
    invariants the rest of the provisioner relies on: its script list is
    the single [script] if one was given; exactly one of the script list
    and the inline commands is present, and the inline commands are never
    an empty non-nil slice; the elevated user and password are both there
    or both absent; every environment variable has a [=], so that
    flattening them cannot panic; and the retry timeout, the list of valid
    exit codes, the remote path, both command templates and both format
    strings are set. *)
Theorem prepared_config_invariants (stat : string → option error)
    (uuid : string) (decoded c : Config) :
  Prepare stat uuid None decoded = (c, None) →
  (Script decoded ≠ "" → Scripts c = Some [Script decoded])
  ∧ (elems (Scripts c) ≠ [] ↔ Inline c = None)
  ∧ Inline c ≠ Some []
  ∧ (ElevatedUser c = "" ↔ ElevatedPassword c = "")
  ∧ Forall wellFormedVar (elems (Vars c))
  ∧ (∀ env elevated, createFlattenedEnvVars env c elevated ≠ None)
  ∧ StartRetryTimeout c ≠ 0
  ∧ ValidExitCodes c ≠ None
  ∧ RemotePath c ≠ ""
  ∧ ExecuteCommand c ≠ "" ∧ ElevatedExecuteCommand c ≠ ""
  ∧ EnvVarFormat c ≠ "" ∧ ElevatedEnvVarFormat c ≠ "".
Proof.
  intros Hprep.
  pose proof (Prepare_config stat uuid decoded) as Hc.
  pose proof (proj1 (prepare_accepts_iff_aux stat uuid decoded)) as Hacc.
  rewrite Hprep in Hc, Hacc. cbn [fst snd] in Hc, Hacc.
  destruct (Hacc eq_refl) as (Hboth & Helev & Hone & _ & Hvars).
  assert (Hwf : Forall wellFormedVar (elems (Vars c))).
  { assert (Hv : elems (Vars c) = elems (Vars decoded)).
    { rewrite Hc. destruct (decide _); cbn; by destruct (Vars decoded). }
    rewrite Hv. eapply Forall_impl; [exact Hvars|]. apply badVar_wellFormed. }
  assert (Hdefault : ∀ s d : string, d ≠ "" → orDefault s d ≠ "").
  { intros s d Hd. unfold orDefault. by destruct (decide (s = "")). }
  split; [|split; [|split; [|split; [|split; [exact Hwf|split]]]]].
  - intros Hs. rewrite Hc. by destruct (decide _).
  - rewrite Hc. destruct (decide (Script decoded ≠ "")) as [Hs|Hs]; cbn.
    + destruct (Inline decoded) as [[|]|]; cbn in *; intuition congruence.
    + destruct (Scripts decoded) as [[|]|], (Inline decoded) as [[|]|];
        cbn in *; intuition congruence.
  - rewrite Hc. destruct (decide _); cbn; by destruct (Inline decoded) as [[|]|].
  - rewrite Hc. by destruct (decide _).
  - intros env elevated Hpanic.
    apply createFlattenedEnvVars_panics_aux in Hpanic as (kv & Hin & Hocc).
    rewrite Forall_forall in Hwf. destruct (Hwf kv Hin) as [x Hx].
    apply cut_None in Hocc. by rewrite Hocc in Hx.
  - rewrite Hc.
    destruct (decide _); cbn;
      (split; [by destruct (decide (StartRetryTimeout decoded = 0))|]);
      (split; [by destruct (ValidExitCodes decoded)|]);
      (split; [apply Hdefault; by destruct uuid|]);
      repeat split; by apply Hdefault.
Qed.

Lemma prepared_config_invariants_witness :
  let decoded :=
    {| PackerBuildName := "build"; PackerBuilderType := "amazon-ebs";
       Binary := false; Inline := Some []; Script := "a.ps1";
       Scripts := None; Vars := Some ["FOO=bar"];
       RemotePath := ""; ExecuteCommand := ""; ElevatedExecuteCommand := "";
       StartRetryTimeout := 0; EnvVarFormat := ""; ElevatedEnvVarFormat := "";
       ElevatedUser := ""; ElevatedPassword := "";
       ValidExitCodes := None |} in
  let c := (Prepare (λ _, None) "uuid" None decoded).1 in
  Scripts c = Some ["a.ps1"] ∧ Inline c = None
  ∧ StartRetryTimeout c = 5 * Time.Minute
  ∧ RemotePath c = "c:/Windows/Temp/script-uuid.ps1"
  ∧ Forall wellFormedVar (elems (Vars c)).
Proof.
  intros decoded c.
  destruct (prepared_config_invariants (λ _, None) "uuid" decoded c)
    as (_ & _ & _ & _ & Hwf & _); [reflexivity|].
  split; [reflexivity|]. split; [reflexivity|]. split; [reflexivity|].
  split; [reflexivity|exact Hwf].
Defined.

(** * More on [Provision] and the retry loop *)

Section Returns.

Variable env : Env.
Variable cfg : Config.

Lemma createFlattenedEnvVars_wellFormed (elevated : bool) :
  Forall wellFormedVar (elems (Vars cfg)) →
  is_Some (createFlattenedEnvVars env cfg elevated).
Proof.
  intros Hwf. unfold createFlattenedEnvVars.
  rewrite (mergedEnvVars_wellFormed env cfg Hwf). eauto.
Qed.

Lemma createCommandText_wellFormed (w : World) :
  Forall wellFormedVar (elems (Vars cfg)) →
  is_Some (createCommandText env cfg w).
Proof.
  intros Hwf. unfold createCommandText, createCommandTextNonPrivileged,
    createCommandTextPrivileged.
  destruct (decide _).
  - destruct (createFlattenedEnvVars_wellFormed false Hwf) as [s ->].
    destruct (env_render env _ _); [eauto|].
    destruct (generateCommandLineRunner env _ w) as [[?|?] ?]; eauto.
  - destruct (createFlattenedEnvVars_wellFormed true Hwf) as [s ->].
    destruct (uuid_TimeOrderedUUID env w) as [uuid w1].
    destruct (comm_Upload env _ _ _) as [[?|] w3]; [eauto|].
    destruct (env_render env _ _); [eauto|].
    destruct (generateElevatedRunner env cfg _ w3) as [[?|?] ?]; eauto.
Qed.

(** With fuel for the longest run, the retry loop of a closure that keeps
    the clock steady comes back. *)
Lemma retryable_returns {C} (f : Closure C) (fuel : nat) (c : C) (w : World) :
  steady f →
  (retry_fuel (StartRetryTimeout cfg) ≤ fuel)%nat →
  is_Some (retryable env fuel cfg f c w).
Proof.
  intros Hsteady Hfuel. unfold retryable.
  destruct (retryable_loop_run env f fuel (now w + StartRetryTimeout cfg)
              Hsteady c [] w)
    as (r & c' & calls & w' & Hrun & _).
  { replace (now w + StartRetryTimeout cfg - now w)
      with (StartRetryTimeout cfg) by lia. done. }
  rewrite (retryable_loop_recording env f fuel _ c [] w), Hrun. cbn. eauto.
Qed.

Lemma provisionScript_returns (fuel : nat) (path : string)
    (deferred : list string) (w : World) :
  Forall wellFormedVar (elems (Vars cfg)) →
  (retry_fuel (StartRetryTimeout cfg) ≤ fuel)%nat →
  ∃ r d' w', provisionScript env fuel cfg path deferred w = Done (r, d', w').
Proof.
  intros Hwf Hfuel. unfold provisionScript.
  destruct (os_Open env path _) as [[e|] w3]; [eauto|].
  destruct (createCommandText_wellFormed w3 Hwf) as [[[e|command] w4] ->];
    [eauto|].
  destruct (retryable_returns (uploadAndStart env cfg path command) fuel None w4
              (uploadAndStart_steady env cfg path command) Hfuel)
    as [[[[e|] cmd] w5] Hretry]; rewrite Hretry; [eauto|].
  unfold retryable in Hretry.
  apply retryable_loop_uploadAndStart in Hretry as [_ Hcmd].
  destruct (Hcmd eq_refl) as (h & status & _ & ->). cbn [ExitStatus].
  destruct (validExitCode status _); eauto.
Qed.

Lemma provisionScripts_returns (fuel : nat) (scripts : list string) :
  Forall wellFormedVar (elems (Vars cfg)) →
  (retry_fuel (StartRetryTimeout cfg) ≤ fuel)%nat →
  ∀ deferred w,
    ∃ r d' w', provisionScripts env fuel cfg scripts deferred w = Done (r, d', w').
Proof.
  intros Hwf Hfuel. induction scripts as [|path scripts IH]; intros deferred w.
  { cbn. eauto. }
  cbn [provisionScripts].
  destruct (provisionScript_returns fuel path deferred w Hwf Hfuel)
    as ([e|] & d' & w' & ->); [eauto|]. apply IH.
Qed.

End Returns.

(** X6.  [Provision] always returns when every environment variable has a
    [=]: it does not panic, and each of its retry loops ends, within
    [retry_fuel] iterations, whatever the outside world answers. *)
Theorem provision_returns (env : Env) (fuel : nat) (cfg : Config) (w : World) :
  Forall wellFormedVar (elems (Vars cfg)) →
  (retry_fuel (StartRetryTimeout cfg) ≤ fuel)%nat →
  ∃ r w', Provision env fuel cfg w = Done (r, w').
Proof.
  intros Hwf Hfuel. unfold Provision.
  destruct (scriptList env cfg _) as [scripts w2].
  destruct (provisionScripts_returns env cfg fuel scripts Hwf Hfuel [] w2)
    as (r & d' & w' & ->). eauto.
Qed.

Lemma provision_returns_witness :
  ∃ r w', Provision (demo_env never_start) 4 demo_config world0 = Done (r, w').
Proof.
  apply (provision_returns (demo_env never_start) 4 demo_config world0).
  - repeat constructor; vm_compute; eauto.
  - vm_compute. lia.
Defined.

(** X7.  [Prepare] and [Provision] fit together: on a configuration that
    [Prepare] accepted, [Provision] returns, whatever the outside world
    answers; the check of the environment variables in [Prepare] is what
    rules out the panic in [createFlattenedEnvVars]. *)
Theorem prepared_provision_returns (stat : string → option error)
    (uuid : string) (decoded c : Config) (env : Env) (w : World) :
  Prepare stat uuid None decoded = (c, None) →
  ∃ r w',
    Provision env (retry_fuel (StartRetryTimeout c)) c w = Done (r, w').
Proof.
  intros Hprep. unfold Provision.
  destruct (scriptList env c _) as [scripts w2].
  destruct (provisionScripts_returns env c (retry_fuel (StartRetryTimeout c))
              scripts (Prepare_accepted_wellFormed stat uuid decoded c Hprep)
              (le_n _) [] w2)
    as (r & d' & w' & ->). eauto.
Qed.

Lemma prepared_provision_returns_witness :
  let decoded :=
    {| PackerBuildName := "build"; PackerBuilderType := "amazon-ebs";
       Binary := false; Inline := None; Script := "a.ps1";
       Scripts := None; Vars := Some ["FOO=bar"];
       RemotePath := ""; ExecuteCommand := ""; ElevatedExecuteCommand := "";
       StartRetryTimeout := 3 * Time.Second; EnvVarFormat := "";
       ElevatedEnvVarFormat := "";
       ElevatedUser := ""; ElevatedPassword := "";
       ValidExitCodes := None |} in
  let c := (Prepare (λ _, None) "uuid" None decoded).1 in
  ∃ r w',
    Provision (demo_env never_start) (retry_fuel (StartRetryTimeout c)) c world0
    = Done (r, w').
Proof.
  intros decoded c.
  apply (prepared_provision_returns (λ _, None) "uuid" decoded c
           (demo_env never_start) world0).
  reflexivity.
Defined.

Section Attempts.

Variable env : Env.
Context {C : Type}.
Variable f : Closure C.
Hypothesis Hsteady : steady f.

Lemma retryable_loop_attempts (fuel : nat) (dl : Z) :
  ∀ c calls0 w r cl w',
    retryable_loop env fuel dl (recording f) (c, calls0) w = Some (r, cl, w') →
    (length cl.2 ≤ length calls0 + retry_fuel (dl - now w))%nat
    ∧ now w + (Z.of_nat (length cl.2) - Z.of_nat (length calls0) - 1)
              * retryableSleep ≤ now w'.
Proof.
  induction fuel as [|fuel IH]; intros c calls0 w r cl w'; [done|].
  cbn [retryable_loop]. unfold recording at 1. cbn [fst snd].
  pose proof (Hsteady c w) as Hmono.
  destruct (f c w) as [[[e|] c1] w1] eqn:Hf; cbn [snd] in Hmono.
  - set (w2 := log_Print env ("Retryable error: " +:+ e) w1).
    assert (now w1 ≤ now w2) by apply now_emit.
    destruct (decide _) as [Hdue|Hearly].
    + intros [= <- <- <-]. cbn [snd]. rewrite length_app. cbn [length].
      unfold retry_fuel. split; lia.
    + intros Hloop. apply IH in Hloop as [Hlen Htime].
      rewrite length_app in Hlen, Htime. cbn [length] in Hlen, Htime.
      pose proof (now_time_Sleep env retryableSleep w2) as Hsleep.
      pose proof retryableSleep_pos.
      pose proof (retry_fuel_step (dl - now w)
                    (dl - now (time_Sleep env retryableSleep w2))).
      split; [lia|]. nia.
  - intros [= <- <- <-]. cbn [snd]. rewrite length_app. cbn [length].
    unfold retry_fuel. split; lia.
Qed.

End Attempts.

(** X8.  The number of times [retryable] invokes a closure that keeps the
    clock steady is bounded by the timeout: at most
    [(timeout + 2s) / 2s + 1] invocations, which is 152 for the default
    timeout of five minutes. *)
Theorem retry_attempts_bounded (env : Env) {C} (f : Closure C) (cfg : Config)
    (c : C) (w : World) (fuel : nat) r c' calls w' :
  steady f →
  retryable env fuel cfg (recording f) (c, []) w = Some (r, (c', calls), w') →
  (length calls ≤ retry_fuel (StartRetryTimeout cfg))%nat
  ∧ retry_fuel (StartRetryTimeout cfg)
    = S (Z.to_nat ((StartRetryTimeout cfg + 2 * Time.Second)
                   / (2 * Time.Second)))
  ∧ retry_fuel (5 * Time.Minute) = 152%nat.
Proof.
  intros Hsteady Hrun. unfold retryable in Hrun.
  apply (retryable_loop_attempts env f Hsteady) in Hrun as [Hlen _].
  cbn [snd length] in Hlen.
  replace (now w + StartRetryTimeout cfg - now w)
    with (StartRetryTimeout cfg) in Hlen by lia.
  split; [lia|]. split; reflexivity.
Qed.

Lemma retry_attempts_bounded_witness :
  let f : Closure nat := λ n w, (Some "boom", S n, w) in
  ∃ r c' calls w',
    retryable (demo_env never_start) 10 demo_config (recording f) (0%nat, []) world0
    = Some (r, (c', calls), w')
    ∧ (length calls ≤ retry_fuel (StartRetryTimeout demo_config))%nat.
Proof.
  intros f. eexists _, _, _, _. split; [vm_compute; reflexivity|].
  eapply (retry_attempts_bounded (demo_env never_start) f demo_config
            0%nat world0 10).
  - intros c w. simpl. lia.
  - vm_compute. reflexivity.
Defined.

(** X9.  Between two invocations [retryable] sleeps: when it comes back
    after [n] invocations of a closure that keeps the clock steady, at
    least [(n - 1) * 2s] have gone by since it was called. *)
Theorem retry_attempts_spaced (env : Env) {C} (f : Closure C) (cfg : Config)
    (c : C) (w : World) (fuel : nat) r c' calls w' :
  steady f →
  retryable env fuel cfg (recording f) (c, []) w = Some (r, (c', calls), w') →
  now w + (Z.of_nat (length calls) - 1) * (2 * Time.Second) ≤ now w'.
Proof.
  intros Hsteady Hrun. unfold retryable in Hrun.
  apply (retryable_loop_attempts env f Hsteady) in Hrun as [_ Htime].
  cbn [snd length] in Htime.
  change (2 * Time.Second) with retryableSleep. lia.
Qed.

Lemma retry_attempts_spaced_witness :
  let f : Closure nat := λ n w, (Some "boom", S n, w) in
  ∃ r c' calls w',
    retryable (demo_env never_start) 10 demo_config (recording f) (0%nat, []) world0
    = Some (r, (c', calls), w')
    ∧ length calls = 4%nat
    ∧ now world0 + (Z.of_nat (length calls) - 1) * (2 * Time.Second) ≤ now w'.
Proof.
  intros f. eexists _, _, _, _. split; [vm_compute; reflexivity|].
  split; [reflexivity|].
  eapply (retry_attempts_spaced (demo_env never_start) f demo_config
            0%nat world0 10).
  - intros c w. simpl. lia.
  - vm_compute. reflexivity.
Defined.

(** * More on [extractScript] *)

Section Extract.

Variable env : Env.

(** The loop over the inline commands either writes them all, or stops at
    the first write that fails. *)
Lemma writeCommands_spec (temp : string) (commands : list string) :
  ∀ w,
    match writeCommands env temp commands w with
    | (None, w') =>
        hist w' = hist w ++ concat (command_written temp <$> commands)
    | (Some err, w') =>
        ∃ written command rest e,
          commands = written ++ command :: rest
          ∧ err = "Error preparing powershell script: " +:+ e
          ∧ hist w' = hist w ++ concat (command_written temp <$> written)
                      ++ [LogPrint ("Found command: " +:+ command);
                          WriteString temp (command +:+ newline) (Some e)]
    end.
Proof.
  induction commands as [|command commands IH]; intros w.
  { cbn. by rewrite app_nil_r. }
  cbn [writeCommands]. unfold writer_WriteString.
  set (w1 := log_Print env _ w).
  destruct (env_write env (hist w1) temp _) as [e|] eqn:Hwrite.
  - exists [], command, commands, e. split; [done|]. split; [done|].
    unfold w1, log_Print. cbn [hist emit fmap list_fmap concat app].
    by rewrite <- app_assoc.
  - specialize (IH (emit env (WriteString temp (command +:+ newline) None) w1)).
    destruct (writeCommands env temp commands _) as [[err|] w'].
    + destruct IH as (written & c & rest & e & -> & -> & Hhist).
      exists (command :: written), c, rest, e. split; [done|]. split; [done|].
      rewrite Hhist. unfold w1, log_Print.
      cbn [hist emit fmap list_fmap concat]. unfold command_written at 2.
      rewrite <- !app_assoc. reflexivity.
    + rewrite IH. unfold w1, log_Print.
      cbn [hist emit fmap list_fmap concat]. unfold command_written at 2.
      rewrite <- !app_assoc. reflexivity.
Qed.

Lemma writeCommands_ok (temp : string) (commands : list string) :
  (∀ h data, env_write env h temp data = None) →
  ∀ w, (writeCommands env temp commands w).1 = None.
Proof.
  intros Hwrite. induction commands as [|command commands IH]; intros w.
  { done. }
  cbn [writeCommands]. unfold writer_WriteString. rewrite Hwrite. apply IH.
Qed.

End Extract.

Lemma extractScript_outcomes_lemma (env : Env) (cfg : Config) (w : World) :
  let inline := elems (Inline cfg) in
  let '(path, err, w') := extractScript env cfg w in
  (∃ e, path = "" ∧ err = Some e ∧ hist w' = hist w ++ [TempFile (inl e)])
  ∨ (∃ temp written command rest e,
       inline = written ++ command :: rest
       ∧ path = ""
       ∧ err = Some ("Error preparing powershell script: " +:+ e)
       ∧ hist w' = hist w ++ [TempFile (inr temp)]
                   ++ concat (command_written temp <$> written)
                   ++ [LogPrint ("Found command: " +:+ command);
                       WriteString temp (command +:+ newline) (Some e);
                       FileClose temp])
  ∨ (∃ temp e,
       path = ""
       ∧ err = Some ("Error preparing powershell script: " +:+ e)
       ∧ hist w' = hist w ++ [TempFile (inr temp)]
                   ++ concat (command_written temp <$> inline)
                   ++ [Flush temp (Some e); FileClose temp])
  ∨ (err = None
     ∧ hist w' = hist w ++ [TempFile (inr path)]
                 ++ concat (command_written path <$> inline)
                 ++ [Flush path None; FileClose path]).
Proof.
  intros inline. unfold extractScript, ioutil_TempFile.
  destruct (env_tempfile env (hist w)) as [e|temp].
  { left. by exists e. }
  pose proof (writeCommands_spec env temp inline
                (emit env (TempFile (inr temp)) w)) as Hwrite.
  fold inline.
  destruct (writeCommands env temp inline _) as [[err|] w2].
  - destruct Hwrite as (written & command & rest & e & Hinline & -> & Hhist).
    right; left. exists temp, written, command, rest, e.
    split; [done|]. split; [done|]. split; [done|].
    unfold file_Close. rewrite hist_emit, Hhist. cbn [hist emit].
    rewrite <- !app_assoc. reflexivity.
  - unfold writer_Flush.
    destruct (env_flush env (hist w2) temp) as [e|]; cbn [fst snd].
    + right; right; left. exists temp, e. split; [done|]. split; [done|].
      unfold file_Close. rewrite !hist_emit, Hwrite. cbn [hist emit].
      rewrite <- !app_assoc. reflexivity.
    + right; right; right. split; [done|].
      unfold file_Close. rewrite !hist_emit, Hwrite. cbn [hist emit].
      rewrite <- !app_assoc. reflexivity.
Qed.

(** X10.  What [extractScript] can come to, all told.  Either the
    temporary file cannot be created: the error of the creation is
    returned as it is and nothing else happens.  Or a write fails: the
    commands before it have been written, each followed by a line feed,
    none after it is, nothing is flushed, and the error is returned with
    the prefix of the function.  Or the flush fails, after all commands
    have been written.  Or nothing fails and the name of the file is
    returned.  The path returned is empty in the three cases of failure,
    and once the file has been created, it is closed, once, as the last
    thing done. *)
Theorem extractScript_outcomes (env : Env) (cfg : Config) (w : World) :
  let inline := elems (Inline cfg) in
  let '(path, err, w') := extractScript env cfg w in
  (∃ e, path = "" ∧ err = Some e ∧ hist w' = hist w ++ [TempFile (inl e)])
  ∨ (∃ temp written command rest e,
       inline = written ++ command :: rest
       ∧ path = ""
       ∧ err = Some ("Error preparing powershell script: " +:+ e)
       ∧ hist w' = hist w ++ [TempFile (inr temp)]
                   ++ concat (command_written temp <$> written)
                   ++ [LogPrint ("Found command: " +:+ command);
                       WriteString temp (command +:+ newline) (Some e);
                       FileClose temp])
  ∨ (∃ temp e,
       path = ""
       ∧ err = Some ("Error preparing powershell script: " +:+ e)
       ∧ hist w' = hist w ++ [TempFile (inr temp)]
                   ++ concat (command_written temp <$> inline)
                   ++ [Flush temp (Some e); FileClose temp])
  ∨ (err = None
     ∧ hist w' = hist w ++ [TempFile (inr path)]
                 ++ concat (command_written path <$> inline)
                 ++ [Flush path None; FileClose path]).
Proof. apply extractScript_outcomes_lemma. Qed.

(** X11.  When the temporary file is created and neither a write to it nor
    its flush fails, [extractScript] returns its name without error, having
    written the inline commands in their order, one per line, flushed the
    writer and closed the file. *)
Theorem extractScript_succeeds (env : Env) (cfg : Config) (w : World)
    (temp : string) :
  env_tempfile env (hist w) = inr temp →
  (∀ h data, env_write env h temp data = None) →
  (∀ h, env_flush env h temp = None) →
  ∃ w',
    extractScript env cfg w = (temp, None, w')
    ∧ hist w' = hist w ++ [TempFile (inr temp)]
                ++ concat (command_written temp <$> elems (Inline cfg))
                ++ [Flush temp None; FileClose temp].
Proof.
  intros Htemp Hwrite Hflush.
  unfold extractScript, ioutil_TempFile. rewrite Htemp.
  pose proof (writeCommands_spec env temp (elems (Inline cfg))
                (emit env (TempFile (inr temp)) w)) as Hspec.
  pose proof (writeCommands_ok env temp (elems (Inline cfg)) Hwrite
                (emit env (TempFile (inr temp)) w)) as Hok.
  destruct (writeCommands env temp (elems (Inline cfg)) _) as [[err|] w2];
    [done|].
  unfold writer_Flush. rewrite Hflush. cbn [fst snd].
  eexists. split; [reflexivity|].
  unfold file_Close. rewrite !hist_emit, Hspec. cbn [hist emit].
  rewrite <- !app_assoc. reflexivity.
Qed.

Lemma extractScript_succeeds_witness :
  let cfg :=
    {| PackerBuildName := "build"; PackerBuilderType := "amazon-ebs";
       Binary := false; Inline := Some ["dir"; "whoami"]; Script := "";
       Scripts := None; Vars := None; RemotePath := "";
       ExecuteCommand := ""; ElevatedExecuteCommand := "";
       StartRetryTimeout := 0; EnvVarFormat := "";
       ElevatedEnvVarFormat := ""; ElevatedUser := "";
       ElevatedPassword := ""; ValidExitCodes := None |} in
  ∃ w',
    extractScript (demo_env never_start) cfg world0
    = ("/tmp/packer-powershell-provisioner001", None, w')
    ∧ hist w'
      = [TempFile (inr "/tmp/packer-powershell-provisioner001");
         LogPrint "Found command: dir";
         WriteString "/tmp/packer-powershell-provisioner001"
           ("dir" +:+ newline) None;
         LogPrint "Found command: whoami";
         WriteString "/tmp/packer-powershell-provisioner001"
           ("whoami" +:+ newline) None;
         Flush "/tmp/packer-powershell-provisioner001" None;
         FileClose "/tmp/packer-powershell-provisioner001"].
Proof.
  intros cfg.
  destruct (extractScript_succeeds (demo_env never_start) cfg world0
              "/tmp/packer-powershell-provisioner001")
    as (w' & Hrun & Hhist); [reflexivity..|].
  exists w'. split; [exact Hrun|]. rewrite Hhist. reflexivity.
Defined.

(** * More on the rendering of the command *)

(** X12.  Without an elevated user, rendering the command text is a local
    affair: [createCommandText] makes no upload, starts nothing and draws no
    unique identifier; all it adds to the history is at most one line of
    log. *)
Theorem nonprivileged_rendering_is_local (env : Env) (cfg : Config)
    (w : World) r w' :
  ElevatedUser cfg = "" →
  createCommandText env cfg w = Some (r, w') →
  ∃ t,
    hist w' = hist w ++ t
    ∧ (length t ≤ 1)%nat
    ∧ Forall (λ ev, is_remote ev = false) t.
Proof.
  intros Huser. unfold createCommandText, createCommandTextNonPrivileged,
    generateCommandLineRunner.
  destruct (decide _) as [_|]; [|done].
  destruct (createFlattenedEnvVars env cfg false) as [flattened|]; [|done].
  destruct (env_render env _ _) as [e|rendered].
  { intros [= <- <-]. exists []. rewrite app_nil_r. by repeat constructor. }
  destruct (env_powershellEncode env rendered); intros [= <- <-];
    (eexists [_]; split; [reflexivity|]; split; [done|by repeat constructor]).
Qed.

Lemma nonprivileged_rendering_is_local_witness :
  ∃ t,
    hist (demo_rendered (demo_env never_start))
    = hist (demo_opened (demo_env never_start)) ++ t
    ∧ (length t ≤ 1)%nat
    ∧ Forall (λ ev, is_remote ev = false) t.
Proof.
  eapply (nonprivileged_rendering_is_local (demo_env never_start) demo_config
            (demo_opened (demo_env never_start))).
  - reflexivity.
  - vm_compute. reflexivity.
Defined.

(** X13.  With an elevated user, a rendering that succeeds has done this,
    in this order: drawn an identifier and uploaded the flattened
    environment variables, in their elevated format, as a script named
    after it; rendered the elevated template with the path of that script
    as [Vars] and the remote path as [Path]; encoded the result; drawn an
    identifier for the name of the task and a third one for the wrapper;
    instantiated the wrapper template with the user, the password, the
    task name and the encoded command, and uploaded it.  The command it
    returns runs the wrapper by the CMD spelling of its path.  Two files
    are uploaded and three identifiers drawn, no more. *)
Theorem privileged_rendering_trace (env : Env) (cfg : Config) (w : World)
    (command : string) (w' : World) :
  createCommandTextPrivileged env cfg w = Some (inr command, w') →
  ∃ flattened uuid1 rendered encoded uuid2 buffer uuid3,
    createFlattenedEnvVars env cfg true = Some flattened
    ∧ env_render env (ElevatedExecuteCommand cfg)
        {| Tpl_Vars := envVarUploadPath uuid1; Tpl_Path := RemotePath cfg |}
      = inr rendered
    ∧ env_powershellEncode env rendered = inr encoded
    ∧ env_elevatedTemplate env
        {| User := ElevatedUser cfg;
           Password := ElevatedPassword cfg;
           TaskDescription := "Packer elevated task";
           TaskName := "packer-" +:+ uuid2;
           EncodedCommand := encoded |}
      = inr buffer
    ∧ hist w'
      = hist w
        ++ [TimeOrderedUUID uuid1;
            LogPrint ("Uploading env vars to " +:+ envVarUploadPath uuid1);
            CommUpload (envVarUploadPath uuid1) (FromBytes flattened) None;
            LogPrint ("Building elevated command wrapper for: " +:+ rendered);
            TimeOrderedUUID uuid2;
            TimeOrderedUUID uuid3;
            LogPrint ("Uploading elevated shell wrapper for command ["
                      +:+ rendered +:+ "] to ["
                      +:+ elevatedUploadPath uuid3 +:+ "]");
            CommUpload (elevatedUploadPath uuid3) (FromBytes buffer) None]
    ∧ command
      = "powershell -executionpolicy bypass -file "
        +:+ dquote +:+ elevatedReturnPath uuid3 +:+ dquote.
Proof.
  unfold createCommandTextPrivileged, generateElevatedRunner,
    uuid_TimeOrderedUUID, comm_Upload, log_Print.
  destruct (createFlattenedEnvVars env cfg true) as [flattened|]; [|done].
  cbn [fst snd hist emit].
  set (uuid1 := env_uuid env (hist w)).
  destruct (env_upload env _ (envVarUploadPath uuid1) _) as [e|]; [done|].
  destruct (env_render env _ _) as [e|rendered] eqn:Hrender; [done|].
  destruct (env_powershellEncode env rendered) as [e|encoded] eqn:Hencode;
    [done|].
  cbn [fst snd hist emit].
  set (uuid2 := env_uuid env _).
  destruct (env_elevatedTemplate env _) as [e|buffer] eqn:Htemplate; [done|].
  cbn [fst snd hist emit].
  set (uuid3 := env_uuid env _).
  destruct (env_upload env _ (elevatedUploadPath uuid3) _) as [e|]; [done|].
  intros [= <- <-].
  exists flattened, uuid1, rendered, encoded, uuid2, buffer, uuid3.
  split; [done|]. split; [exact Hrender|]. split; [exact Hencode|].
  split; [exact Htemplate|]. split; [|done].
  cbn [hist emit]. rewrite <- !app_assoc. reflexivity.
Qed.

Lemma privileged_rendering_trace_witness :
  let cfg :=
    {| PackerBuildName := "build"; PackerBuilderType := "amazon-ebs";
       Binary := false; Inline := None; Script := "";
       Scripts := Some ["a.ps1"]; Vars := Some ["FOO=bar"];
       RemotePath := "c:/Windows/Temp/script.ps1";
       ExecuteCommand := defaultExecuteCommand;
       ElevatedExecuteCommand := defaultElevatedExecuteCommand;
       StartRetryTimeout := 5 * Time.Second;
       EnvVarFormat := defaultEnvVarFormat;
       ElevatedEnvVarFormat := defaultEnvVarFormat;
       ElevatedUser := "admin"; ElevatedPassword := "secret";
       ValidExitCodes := Some [0] |} in
  ∃ command w',
    createCommandTextPrivileged (demo_env never_start) cfg world0
    = Some (inr command, w')
    ∧ command
      = "powershell -executionpolicy bypass -file "
        +:+ dquote +:+ "%TEMP%\packer-elevated-shell-uuid-5.ps1" +:+ dquote
    ∧ ∃ flattened uuid1 rendered uuid2 buffer uuid3,
        hist w'
        = hist world0
          ++ [TimeOrderedUUID uuid1;
              LogPrint ("Uploading env vars to " +:+ envVarUploadPath uuid1);
              CommUpload (envVarUploadPath uuid1) (FromBytes flattened) None;
              LogPrint ("Building elevated command wrapper for: " +:+ rendered);
              TimeOrderedUUID uuid2;
              TimeOrderedUUID uuid3;
              LogPrint ("Uploading elevated shell wrapper for command ["
                        +:+ rendered +:+ "] to ["
                        +:+ elevatedUploadPath uuid3 +:+ "]");
              CommUpload (elevatedUploadPath uuid3) (FromBytes buffer) None].
Proof.
  intros cfg. eexists _, _. split; [vm_compute; reflexivity|].
  split; [reflexivity|].
  edestruct (privileged_rendering_trace (demo_env never_start) cfg world0)
    as (flattened & uuid1 & rendered & encoded & uuid2 & buffer & uuid3
        & _ & _ & _ & _ & Hhist & _).
  { vm_compute. reflexivity. }
  exists flattened, uuid1, rendered, uuid2, buffer, uuid3. exact Hhist.
Defined.

(** X14.  The three ways [generateElevatedRunner] fails.  The encoding of
    the command fails: nothing is drawn or uploaded, and the error is
    returned with the prefix of the encoding.  The wrapper template fails:
    the identifier of the task has been drawn, the error is printed on the
    standard output and returned as it is, without a prefix, and nothing is
    uploaded.  The upload of the wrapper fails: its error is returned with
    the prefix of the preparation.  In no case is a file left uploaded. *)
Theorem elevated_runner_failures (env : Env) (cfg : Config) (command : string)
    (w : World) (err : error) (w' : World) :
  generateElevatedRunner env cfg command w = (inl err, w') →
  let building :=
    LogPrint ("Building elevated command wrapper for: " +:+ command) in
  (∃ e, env_powershellEncode env command = inl e
        ∧ err = "Error encoding command: " +:+ e
        ∧ hist w' = hist w ++ [building])
  ∨ (∃ uuid2,
       hist w' = hist w ++ [building; TimeOrderedUUID uuid2;
                            Stdout ("Error creating elevated template: " +:+ err)])
  ∨ (∃ e uuid2 uuid3 buffer,
       err = "Error preparing elevated powershell script: " +:+ e
       ∧ hist w'
         = hist w
           ++ [building; TimeOrderedUUID uuid2; TimeOrderedUUID uuid3;
               LogPrint ("Uploading elevated shell wrapper for command ["
                         +:+ command +:+ "] to ["
                         +:+ elevatedUploadPath uuid3 +:+ "]");
               CommUpload (elevatedUploadPath uuid3) (FromBytes buffer)
                 (Some e)]).
Proof.
  unfold generateElevatedRunner, uuid_TimeOrderedUUID, comm_Upload,
    log_Print, fmt_Printf.
  destruct (env_powershellEncode env command) as [e|encoded] eqn:Hencode.
  { intros [= <- <-]. left. by exists e. }
  cbn [fst snd hist emit].
  set (uuid2 := env_uuid env _).
  destruct (env_elevatedTemplate env _) as [e|buffer].
  { intros [= <- <-]. right; left. exists uuid2.
    cbn [hist emit]. rewrite <- !app_assoc. reflexivity. }
  cbn [fst snd hist emit].
  set (uuid3 := env_uuid env _).
  destruct (env_upload env _ (elevatedUploadPath uuid3) _) as [e|]; [|done].
  intros [= <- <-]. right; right. exists e, uuid2, uuid3, buffer.
  split; [done|]. cbn [hist emit]. rewrite <- !app_assoc. reflexivity.
Qed.

Lemma elevated_runner_failures_witness :
  let env :=
    {| env_elapsed := λ _ _, 0%N;
       env_open := λ _ _, None;
       env_seek := λ _ _, None;
       env_tempfile := λ _, inl "";
       env_write := λ _ _ _, None;
       env_flush := λ _ _, None;
       env_upload := λ _ _ _, None;
       env_start := never_start;
       env_uuid := λ _, "uuid";
       env_render := λ _ data, inr (Tpl_Path data);
       env_powershellEncode := λ command, inr command;
       env_elevatedTemplate := λ _, inl "template: unexpected EOF";
       env_sprintf := λ format key value, sprintf_s format [key; value];
       env_httpAddr := "" |} in
  ∃ w',
    generateElevatedRunner env demo_config "dir" world0
    = (inl "template: unexpected EOF", w')
    ∧ hist w'
      = [LogPrint "Building elevated command wrapper for: dir";
         TimeOrderedUUID "uuid";
         Stdout "Error creating elevated template: template: unexpected EOF"].
Proof.
  intros env. eexists. split; [reflexivity|].
  destruct (elevated_runner_failures env demo_config "dir" world0
              "template: unexpected EOF"
              (generateElevatedRunner env demo_config "dir" world0).2)
    as [(e & He & _)|[(uuid2 & Hhist)|(e & uuid2 & uuid3 & buffer & He & _)]].
  - reflexivity.
  - discriminate He.
  - reflexivity.
  - discriminate He.
Defined.

(** X15.  A template that cannot be rendered ends the iteration of a script
    before anything is sent: without an elevated user, when rendering the
    execute command fails with [e], the iteration returns
    [Error processing command: Error processing command: e] (the prefix is
    put on by [createCommandTextNonPrivileged] and again by [Provision]),
    in the world reached by opening the script: no seek, no upload, no
    start, and the file is left to the deferred [Close]. *)
Theorem render_error_ends_script (env : Env) (fuel : nat) (cfg : Config)
    (path : string) (deferred : list string) (w : World)
    (flattened : string) (e : error) :
  let opened :=
    os_Open env path
      (log_Print env ("Opening " +:+ path +:+ " for reading")
         (ui_Say env ("Provisioning with powershell script: " +:+ path) w)) in
  opened.1 = None →
  ElevatedUser cfg = "" →
  createFlattenedEnvVars env cfg false = Some flattened →
  env_render env (ExecuteCommand cfg)
    {| Tpl_Vars := flattened; Tpl_Path := RemotePath cfg |} = inl e →
  provisionScript env fuel cfg path deferred w
  = Done (Some ("Error processing command: Error processing command: " +:+ e),
          path :: deferred, opened.2).
Proof.
  intros opened Hopen Huser Hflat Hrender.
  unfold provisionScript. fold opened.
  destruct opened as [r w3]; cbn [fst snd] in *; subst r.
  unfold createCommandText, createCommandTextNonPrivileged.
  rewrite Huser. cbn [decide]. rewrite decide_True by done.
  rewrite Hflat, Hrender. reflexivity.
Qed.

Lemma render_error_ends_script_witness :
  let env :=
    {| env_elapsed := λ _ _, 0%N;
       env_open := λ _ _, None;
       env_seek := λ _ _, None;
       env_tempfile := λ _, inl "";
       env_write := λ _ _ _, None;
       env_flush := λ _ _, None;
       env_upload := λ _ _ _, None;
       env_start := never_start;
       env_uuid := λ _, "uuid";
       env_render := λ _ _, inl "template: unexpected EOF";
       env_powershellEncode := λ command, inr command;
       env_elevatedTemplate := λ _, inr "";
       env_sprintf := λ format key value, sprintf_s format [key; value];
       env_httpAddr := "" |} in
  provisionScript env 1 demo_config "a.ps1" [] world0
  = Done (Some "Error processing command: Error processing command: template: unexpected EOF",
          ["a.ps1"],
          {| now := 0;
             hist := [UiSay "Provisioning with powershell script: a.ps1";
                      LogPrint "Opening a.ps1 for reading";
                      OsOpen "a.ps1" None] |}).
Proof.
  intros env.
  apply (render_error_ends_script env 1 demo_config "a.ps1" [] world0
           (default "" (createFlattenedEnvVars env demo_config false))
           "template: unexpected EOF");
    reflexivity.
Defined.

(** X21.  The three ways the rendering fails with an elevated user.  The
    upload of the environment variables fails: nothing else is done.  The
    elevated template cannot be rendered: the script of the environment
    variables has been uploaded, and stays so; the wrapper is not begun.
    The wrapper cannot be made: the error of [generateElevatedRunner] is
    returned behind the prefix of the runner.  Each error has the prefix
    of its step. *)
Theorem privileged_rendering_failures (env : Env) (cfg : Config) (w : World)
    (err : error) (w' : World) :
  createCommandTextPrivileged env cfg w = Some (inl err, w') →
  ∃ flattened uuid1,
    createFlattenedEnvVars env cfg true = Some flattened
    ∧ let drawn :=
        [TimeOrderedUUID uuid1;
         LogPrint ("Uploading env vars to " +:+ envVarUploadPath uuid1)] in
      (∃ e, err = "Error preparing elevated powershell script: " +:+ e
            ∧ hist w' = hist w ++ drawn
                        ++ [CommUpload (envVarUploadPath uuid1)
                              (FromBytes flattened) (Some e)])
      ∨ (∃ e, err = "Error processing command: " +:+ e
              ∧ hist w' = hist w ++ drawn
                          ++ [CommUpload (envVarUploadPath uuid1)
                                (FromBytes flattened) None])
      ∨ (∃ e rendered w3,
           err = "Error generating elevated runner: " +:+ e
           ∧ hist w3 = hist w ++ drawn
                       ++ [CommUpload (envVarUploadPath uuid1)
                             (FromBytes flattened) None]
           ∧ generateElevatedRunner env cfg rendered w3 = (inl e, w')).
Proof.
  unfold createCommandTextPrivileged, uuid_TimeOrderedUUID, comm_Upload,
    log_Print.
  destruct (createFlattenedEnvVars env cfg true) as [flattened|]; [|done].
  cbn [fst snd hist emit].
  set (uuid1 := env_uuid env (hist w)).
  intros Hrun. exists flattened, uuid1. split; [done|]. cbv zeta. revert Hrun.
  destruct (env_upload env _ (envVarUploadPath uuid1) _) as [e|].
  { intros [= <- <-]. left. exists e. split; [done|].
    cbn [hist emit]. by rewrite <- !app_assoc. }
  destruct (env_render env _ _) as [e|rendered].
  { intros [= <- <-]. right; left. exists e. split; [done|].
    cbn [hist emit]. by rewrite <- !app_assoc. }
  set (w3 := emit env (CommUpload _ _ None) _).
  destruct (generateElevatedRunner env cfg rendered w3) as [[e|path] w4] eqn:Hgen;
    [|done].
  intros [= <- <-]. right; right. exists e, rendered, w3.
  split; [done|]. split; [|exact Hgen].
  unfold w3. cbn [hist emit]. by rewrite <- !app_assoc.
Qed.

Lemma privileged_rendering_failures_witness :
  let env :=
    {| env_elapsed := λ _ _, 0%N;
       env_open := λ _ _, None;
       env_seek := λ _ _, None;
       env_tempfile := λ _, inl "";
       env_write := λ _ _ _, None;
       env_flush := λ _ _, None;
       env_upload := λ _ _ _, None;
       env_start := never_start;
       env_uuid := λ _, "uuid";
       env_render := λ _ _, inl "template: unexpected EOF";
       env_powershellEncode := λ command, inr command;
       env_elevatedTemplate := λ _, inr "";
       env_sprintf := λ format key value, sprintf_s format [key; value];
       env_httpAddr := "" |} in
  ∃ w' flattened,
    createCommandTextPrivileged env demo_config world0
    = Some (inl "Error processing command: template: unexpected EOF", w')
    ∧ hist w'
      = [TimeOrderedUUID "uuid";
         LogPrint "Uploading env vars to ${env:TEMP}\packer-env-vars-uuid.ps1";
         CommUpload "${env:TEMP}\packer-env-vars-uuid.ps1"
           (FromBytes flattened) None].
Proof.
  intros env. eexists _, _. split; [vm_compute; reflexivity|].
  edestruct (privileged_rendering_failures env demo_config world0)
    as (flattened & uuid1 & _ & [(e & He & _)|[(e & _ & Hhist)|(e & r & w3 & He & _)]]).
  - vm_compute. reflexivity.
  - discriminate He.
  - reflexivity.
  - discriminate He.
Defined.

(** * Files opened, files closed *)

Lemma opened_in_app (a b : list Event) :
  opened_in (a ++ b) = opened_in a ++ opened_in b.
Proof. apply omap_app. Qed.

Lemma opened_in_written (temp : string) (commands : list string) :
  opened_in (concat (command_written temp <$> commands)) = [].
Proof.
  induction commands as [|c commands IH]; [done|].
  cbn [fmap list_fmap concat]. by rewrite opened_in_app, IH.
Qed.

Lemma file_uploads_app (a b : list Event) :
  file_uploads (a ++ b) = file_uploads a ++ file_uploads b.
Proof. apply omap_app. Qed.

Lemma file_uploads_written (temp : string) (commands : list string) :
  file_uploads (concat (command_written temp <$> commands)) = [].
Proof.
  induction commands as [|c commands IH]; [done|].
  cbn [fmap list_fmap concat]. by rewrite file_uploads_app, IH.
Qed.

Section Opened.

Variable env : Env.
Variable cfg : Config.

(** Closing a history that was opened up by the primitives. *)
Local Ltac trace :=
  cbn [hist emit fst snd]; rewrite <- ?app_assoc;
  first [ by (exists []; rewrite app_nil_r)
        | by (eexists; split; [reflexivity|split; reflexivity]) ].

(** Rendering the command opens no file and uploads none. *)
Lemma createCommandText_footprint (w : World) r w' :
  createCommandText env cfg w = Some (r, w') →
  ∃ t, hist w' = hist w ++ t ∧ opened_in t = [] ∧ file_uploads t = [].
Proof.
  unfold createCommandText, createCommandTextNonPrivileged,
    createCommandTextPrivileged, generateCommandLineRunner,
    generateElevatedRunner, uuid_TimeOrderedUUID, comm_Upload, log_Print,
    fmt_Printf.
  destruct (decide _).
  - destruct (createFlattenedEnvVars env cfg false); [|done].
    destruct (env_render env _ _); [intros [= <- <-]; trace|].
    destruct (env_powershellEncode env _); intros [= <- <-]; trace.
  - destruct (createFlattenedEnvVars env cfg true); [|done].
    cbn [fst snd hist emit].
    destruct (env_upload env _ (envVarUploadPath _) _);
      [intros [= <- <-]; trace|].
    destruct (env_render env _ _); [intros [= <- <-]; trace|].
    destruct (env_powershellEncode env _); [intros [= <- <-]; trace|].
    cbn [fst snd hist emit].
    destruct (env_elevatedTemplate env _); [intros [= <- <-]; trace|].
    cbn [fst snd hist emit].
    destruct (env_upload env _ (elevatedUploadPath _) _);
      intros [= <- <-]; trace.
Qed.

(** An attempt opens no file and uploads the script, to the remote path,
    at most. *)
Lemma uploadAndStart_footprint (path command : string) c w :
  ∃ t, hist (uploadAndStart env cfg path command c w).2 = hist w ++ t
       ∧ opened_in t = []
       ∧ Forall (λ u, u = (RemotePath cfg, path)) (file_uploads t).
Proof.
  unfold uploadAndStart, file_Seek, comm_Upload, StartWithUi.
  destruct (env_seek env _ _).
  { cbn [hist emit fst snd]. eexists. split; [reflexivity|].
    split; [done|constructor]. }
  cbn [fst snd hist emit].
  destruct (env_upload env _ _ _).
  { cbn [hist emit fst snd]. rewrite <- app_assoc.
    eexists. split; [reflexivity|]. split; [done|by repeat constructor]. }
  cbn [fst snd hist emit].
  destruct (env_start env _ _); cbn [hist emit fst snd];
    rewrite <- !app_assoc; (eexists; split; [reflexivity|]);
    (split; [done|by repeat constructor]).
Qed.

Lemma retryable_loop_footprint (path command : string) (fuel : nat) (dl : Z) :
  ∀ c w r cmd w',
    retryable_loop env fuel dl (uploadAndStart env cfg path command) c w
    = Some (r, cmd, w') →
    ∃ t, hist w' = hist w ++ t
         ∧ opened_in t = []
         ∧ Forall (λ u, u = (RemotePath cfg, path)) (file_uploads t).
Proof.
  induction fuel as [|fuel IH]; intros c w r cmd w'; [done|].
  cbn [retryable_loop].
  destruct (uploadAndStart_footprint path command c w)
    as (t1 & Ht1 & Hno1 & Hup1).
  destruct (uploadAndStart env cfg path command c w) as [[[e|] c1] w1];
    cbn [snd] in Ht1.
  - destruct (decide _).
    + intros [= <- <- <-]. exists (t1 ++ [LogPrint ("Retryable error: " +:+ e)]).
      unfold log_Print. rewrite hist_emit, Ht1, <- app_assoc.
      split; [done|]. rewrite opened_in_app, file_uploads_app, Hno1.
      split; [done|]. cbn. by rewrite app_nil_r.
    + intros Hloop. apply IH in Hloop as (t2 & Ht2 & Hno2 & Hup2).
      exists (t1 ++ [LogPrint ("Retryable error: " +:+ e);
                     TimeSleep retryableSleep] ++ t2).
      rewrite Ht2. unfold log_Print.
      rewrite hist_time_Sleep, hist_emit, Ht1, <- !app_assoc.
      split; [done|]. rewrite !opened_in_app, !file_uploads_app, Hno1, Hno2.
      split; [done|]. cbn. by apply Forall_app.
  - intros [= <- <- <-]. by exists t1.
Qed.

(** An iteration defers the closing of the script exactly when it opened
    it, and uploads no other file than the script, to the remote path. *)
Lemma provisionScript_footprint (fuel : nat) (path : string)
    (deferred : list string) (w : World) r d' w' :
  provisionScript env fuel cfg path deferred w = Done (r, d', w') →
  ∃ t, hist w' = hist w ++ t
       ∧ d' = reverse (opened_in t) ++ deferred
       ∧ Forall (λ u, u = (RemotePath cfg, path)) (file_uploads t).
Proof.
  unfold provisionScript, os_Open, ui_Say, log_Print.
  set (w2 := emit env (LogPrint _) (emit env (UiSay _) w)).
  assert (Hw2 : hist w2 = hist w ++ [UiSay ("Provisioning with powershell script: " +:+ path);
                                    LogPrint ("Opening " +:+ path +:+ " for reading")]).
  { unfold w2. cbn [hist emit]. by rewrite <- app_assoc. }
  destruct (env_open env (hist w2) path) as [e|].
  { intros [= <- <- <-]. rewrite hist_emit, Hw2, <- app_assoc.
    eexists. split; [reflexivity|]. split; [reflexivity|constructor]. }
  set (w3 := emit env (OsOpen path None) w2).
  destruct (createCommandText env cfg w3) as [[[e|command] w4]|] eqn:Hcmd;
    [| |done];
    apply createCommandText_footprint in Hcmd as (t4 & Ht4 & Hno4 & Hup4);
    unfold w3 in Ht4; rewrite hist_emit, Hw2, <- !app_assoc in Ht4.
  { intros [= <- <- <-]. eexists. split; [exact Ht4|].
    rewrite !opened_in_app, !file_uploads_app, Hno4, Hup4.
    split; [done|constructor]. }
  unfold retryable.
  destruct (retryable_loop env fuel _ _ None w4) as [[[[e|] cmd] w5]|] eqn:Hloop;
    [| |done];
    apply retryable_loop_footprint in Hloop as (t5 & Ht5 & Hno5 & Hup5);
    rewrite Ht4, <- !app_assoc in Ht5.
  { intros [= <- <- <-]. eexists. split; [exact Ht5|].
    rewrite !opened_in_app, !file_uploads_app, Hno4, Hno5, Hup4.
    split; [done|exact Hup5]. }
  destruct cmd as [cmd|]; [|done].
  assert (Hclose : hist (file_Close env path w5)
                   = hist w ++ [UiSay ("Provisioning with powershell script: " +:+ path);
                                LogPrint ("Opening " +:+ path +:+ " for reading")]
                            ++ [OsOpen path None] ++ t4 ++ t5
                            ++ [FileClose path]).
  { unfold file_Close. rewrite hist_emit, Ht5, <- !app_assoc. done. }
  destruct (validExitCode _ _); intros [= <- <- <-];
    (eexists; split; [exact Hclose|]);
    rewrite !opened_in_app, !file_uploads_app, Hno4, Hno5, Hup4;
    (split; [done|]); cbn; by rewrite app_nil_r.
Qed.

Lemma provisionScripts_footprint (fuel : nat) (scripts : list string) :
  ∀ deferred w r d' w',
    provisionScripts env fuel cfg scripts deferred w = Done (r, d', w') →
    ∃ t, hist w' = hist w ++ t
         ∧ d' = reverse (opened_in t) ++ deferred
         ∧ Forall (λ u, u.1 = RemotePath cfg ∧ u.2 ∈ scripts) (file_uploads t).
Proof.
  induction scripts as [|path scripts IH]; intros deferred w r d' w'.
  { intros [= <- <- <-]. exists []. rewrite app_nil_r.
    split; [done|]. split; [done|constructor]. }
  cbn [provisionScripts].
  assert (Hhead : ∀ t, Forall (λ u, u = (RemotePath cfg, path)) (file_uploads t) →
            Forall (λ u, u.1 = RemotePath cfg ∧ u.2 ∈ path :: scripts)
              (file_uploads t)).
  { intros t Hf. eapply Forall_impl; [exact Hf|]. intros u ->.
    split; [done|]. apply list_elem_of_here. }
  destruct (provisionScript env fuel cfg path deferred w)
    as [[[[e|] d1] w1]| |] eqn:Hpath; try done.
  - intros [= <- <- <-].
    apply provisionScript_footprint in Hpath as (t1 & Ht1 & Hd & Hup).
    exists t1. split; [done|]. split; [done|]. by apply Hhead.
  - apply provisionScript_footprint in Hpath as (t1 & Ht1 & -> & Hup1).
    intros Hrest. apply IH in Hrest as (t2 & Ht2 & -> & Hup2).
    exists (t1 ++ t2). rewrite Ht2, Ht1, <- app_assoc. split; [done|].
    rewrite opened_in_app, reverse_app, <- app_assoc. split; [done|].
    rewrite file_uploads_app. apply Forall_app. split; [by apply Hhead|].
    eapply Forall_impl; [exact Hup2|]. intros u [? ?]. split; [done|].
    by apply list_elem_of_further.
Qed.

Lemma scriptList_footprint (w : World) :
  ∃ t, hist (scriptList env cfg w).2 = hist w ++ t
       ∧ opened_in t = [] ∧ file_uploads t = [].
Proof.
  unfold scriptList. destruct (Inline cfg) as [inline|].
  2: { exists []. by rewrite app_nil_r. }
  pose proof (extractScript_outcomes_lemma env cfg w) as Hout.
  destruct (extractScript env cfg w) as [[temp err] w1]. cbn [snd].
  destruct Hout as [(e & _ & -> & Hh)
                   |[(tmp & written & c & rest & e & _ & _ & -> & Hh)
                    |[(tmp & e & _ & -> & Hh)|[-> Hh]]]];
    unfold ui_Error; rewrite ?hist_emit, Hh, <- ?app_assoc;
    (eexists; split; [reflexivity|]);
    rewrite ?opened_in_app, ?file_uploads_app, ?opened_in_written,
      ?file_uploads_written; split; reflexivity.
Qed.

End Opened.

(** X16.  [Provision] leaves no script open: when it returns, whatever it
    returns, the last things it has done are to close every script it had
    opened, the latest first.  (A script that ran to its end was closed
    already; it is closed once more.) *)
Theorem provision_closes_what_it_opened (env : Env) (fuel : nat)
    (cfg : Config) (w : World) r w' :
  Provision env fuel cfg w = Done (r, w') →
  ∃ t, hist w' = hist w ++ t ++ (FileClose <$> reverse (opened_in t)).
Proof.
  unfold Provision.
  set (w1 := ui_Say env "Provisioning with Powershell..." w).
  destruct (scriptList_footprint env cfg w1) as (t2 & Ht2 & Hno2 & _).
  destruct (scriptList env cfg w1) as [scripts w2]. cbn [snd] in Ht2.
  destruct (provisionScripts env fuel cfg scripts [] w2)
    as [[[r' d'] w3]| |] eqn:Hscripts; try done.
  intros [= <- <-].
  apply provisionScripts_footprint in Hscripts as (t3 & Ht3 & -> & _).
  exists ([UiSay "Provisioning with Powershell..."] ++ t2 ++ t3).
  rewrite hist_runDeferred, Ht3, Ht2. unfold w1, ui_Say.
  rewrite hist_emit, !opened_in_app, Hno2, app_nil_r, <- !app_assoc.
  reflexivity.
Qed.

Lemma provision_closes_what_it_opened_witness :
  ∃ r w' t,
    Provision (demo_env (flaky_start 0 0)) 1 demo_config world0 = Done (r, w')
    ∧ hist w' = hist world0 ++ t ++ (FileClose <$> reverse (opened_in t)).
Proof.
  eexists _, _.
  edestruct (provision_closes_what_it_opened (demo_env (flaky_start 0 0)) 1
               demo_config world0) as [t Ht].
  { vm_compute. reflexivity. }
  exists t. split; [vm_compute; reflexivity|exact Ht].
Defined.

(** * A run without error *)

Section Ran.

Variable env : Env.
Variable fuel : nat.
Variable cfg : Config.

Lemma retryable_loop_ran (path command : string) (dl : Z) :
  ∀ fuel' c w cmd w',
    retryable_loop env fuel' dl (uploadAndStart env cfg path command) c w
    = Some (None, cmd, w') →
    ∃ h status,
      hist w `prefix_of` h
      ∧ hist w' = h ++ [FileSeek path None;
                        CommUpload (RemotePath cfg) (FromFile path) None;
                        CommStart command (inr status)]
      ∧ cmd = Some {| Command := command; ExitStatus := status |}.
Proof.
  induction fuel' as [|fuel' IH]; intros c w cmd w'; [done|].
  cbn [retryable_loop].
  pose proof (uploadAndStart_prefix env cfg path command c w) as Hp.
  destruct (uploadAndStart env cfg path command c w) as [[[e|] c1] w1] eqn:Hf;
    cbn [snd] in Hp.
  - destruct (decide _); [done|].
    intros Hloop. apply IH in Hloop as (h & status & Hh & Hhist & Hcmd).
    exists h, status. split; [|done].
    etrans; [exact Hp|]. etrans; [|exact Hh].
    unfold time_Sleep, log_Print. cbn [hist emit].
    by repeat apply prefix_app_r.
  - intros [= <- <-]. revert Hf.
    unfold uploadAndStart, file_Seek, comm_Upload, StartWithUi.
    destruct (env_seek env _ _); [done|]. cbn [hist emit fst snd].
    destruct (env_upload env _ _ _); [done|]. cbn [hist emit fst snd].
    destruct (env_start env _ _) as [?|status]; [done|].
    intros [= <- <-]. exists (hist w), status. split; [done|].
    cbn [hist emit]. by rewrite <- !app_assoc.
Qed.

Lemma provisionScript_ran (path : string) deferred w d' w' :
  provisionScript env fuel cfg path deferred w = Done (None, d', w') →
  ∃ h command status,
    hist w `prefix_of` h
    ∧ hist w' = h ++ script_ran cfg path command status
    ∧ validExitCode status (elems (ValidExitCodes cfg)) = true.
Proof.
  unfold provisionScript, os_Open.
  set (w2 := log_Print env _ (ui_Say env _ w)).
  assert (Hw2 : hist w `prefix_of` hist w2).
  { unfold w2, log_Print, ui_Say. cbn [hist emit].
    by repeat apply prefix_app_r. }
  destruct (env_open env (hist w2) path) as [e|]; [done|].
  set (w3 := emit env (OsOpen path None) w2).
  assert (Hw3 : hist w `prefix_of` hist w3).
  { etrans; [exact Hw2|apply emit_prefix]. }
  destruct (createCommandText env cfg w3) as [[[e|command] w4]|] eqn:Hcmd;
    [done| |done]. apply createCommandText_prefix in Hcmd.
  unfold retryable.
  destruct (retryable_loop env fuel _ _ None w4) as [[[[e|] cmd] w5]|] eqn:Hloop;
    [done| |done].
  apply retryable_loop_ran in Hloop as (h & status & Hh & Hhist & ->).
  cbn [ExitStatus].
  destruct (validExitCode status _) eqn:Hvalid; [|done].
  intros [= <- <-]. exists h, command, status.
  split; [by repeat (etrans; [eassumption|])|]. split; [|done].
  unfold file_Close, script_ran. rewrite hist_emit, Hhist, <- app_assoc. done.
Qed.

Lemma provisionScripts_ran (scripts : list string) :
  ∀ deferred w d' w',
    provisionScripts env fuel cfg scripts deferred w = Done (None, d', w') →
    hist w `prefix_of` hist w'
    ∧ ∀ path, path ∈ scripts →
        ∃ h command status h',
          hist w `prefix_of` h
          ∧ hist w' = h ++ script_ran cfg path command status ++ h'
          ∧ validExitCode status (elems (ValidExitCodes cfg)) = true.
Proof.
  induction scripts as [|path scripts IH]; intros deferred w d' w'.
  { intros [= <- <-]. split; [done|]. intros path Hin.
    by apply elem_of_nil in Hin. }
  cbn [provisionScripts].
  destruct (provisionScript env fuel cfg path deferred w)
    as [[[[e|] d1] w1]| |] eqn:Hpath; try done.
  apply provisionScript_ran in Hpath as (h & command & status & Hh & Hhist & Hv).
  intros Hrest. apply IH in Hrest as [[t Ht] Hall].
  assert (Hw1 : hist w `prefix_of` hist w1).
  { etrans; [exact Hh|]. rewrite Hhist. by apply prefix_app_r. }
  split; [etrans; [exact Hw1|]; by exists t|].
  intros p Hin. apply elem_of_cons in Hin as [->|Hin].
  - exists h, command, status, t. split; [done|]. split; [|done].
    by rewrite Ht, Hhist, <- app_assoc.
  - destruct (Hall p Hin) as (h1 & c1 & s1 & h2 & Hh1 & Hhist1 & Hv1).
    exists h1, c1, s1, h2. split; [by etrans|]. done.
Qed.

End Ran.

(** X17.  [Provision] returns nil only when every script of its list has
    run to a good end: for each of them the history it leaves holds, one
    right after the other, a seek that did not fail, an upload of the
    script to the remote path that did not fail, the start of a command
    that reported an exit status, which is one of the valid ones, and the
    closing of the script. *)
Theorem provision_nil_all_scripts_ran (env : Env) (fuel : nat) (cfg : Config)
    (w w' : World) :
  Provision env fuel cfg w = Done (None, w') →
  ∀ path,
    path ∈ (scriptList env cfg
              (ui_Say env "Provisioning with Powershell..." w)).1 →
    ∃ h command status h',
      hist w `prefix_of` h
      ∧ hist w' = h ++ script_ran cfg path command status ++ h'
      ∧ status ∈ elems (ValidExitCodes cfg).
Proof.
  unfold Provision.
  set (w1 := ui_Say env "Provisioning with Powershell..." w).
  destruct (scriptList_footprint env cfg w1) as (t2 & Ht2 & _).
  destruct (scriptList env cfg w1) as [scripts w2]. cbn [fst snd] in *.
  destruct (provisionScripts env fuel cfg scripts [] w2)
    as [[[[e|] d'] w3]| |] eqn:Hscripts; try done.
  intros [= <-] path Hin.
  apply provisionScripts_ran in Hscripts as [_ Hall].
  destruct (Hall path Hin) as (h & command & status & h' & Hh & Hhist & Hv).
  exists h, command, status, (h' ++ (FileClose <$> d')).
  split; [|split].
  - etrans; [|exact Hh]. rewrite Ht2. unfold w1, ui_Say. rewrite hist_emit.
    by repeat apply prefix_app_r.
  - rewrite hist_runDeferred, Hhist, <- !app_assoc. done.
  - by apply validExitCode_elem_of.
Qed.

Lemma provision_nil_all_scripts_ran_witness :
  ∃ w' h command status h',
    Provision (demo_env (flaky_start 1 3010)) 2 demo_config world0
    = Done (None, w')
    ∧ hist w' = h ++ script_ran demo_config "a.ps1" command status ++ h'
    ∧ status ∈ elems (ValidExitCodes demo_config).
Proof.
  eexists.
  edestruct (provision_nil_all_scripts_ran (demo_env (flaky_start 1 3010)) 2
               demo_config world0)
    as (h & command & status & h' & _ & Hhist & Hstatus).
  { vm_compute. reflexivity. }
  { vm_compute. apply list_elem_of_here. }
  exists h, command, status, h'.
  split; [vm_compute; reflexivity|]. split; [exact Hhist|exact Hstatus].
Defined.

(** X20.  [Provision] uploads no local file but the scripts of its list,
    and each of them to the configured remote path and nowhere else: all
    scripts go, one after the other, to the same remote file.  (What else
    is uploaded, in elevated mode, are bytes held in memory.) *)
Theorem provision_uploads_only_scripts (env : Env) (fuel : nat) (cfg : Config)
    (w : World) r w' :
  Provision env fuel cfg w = Done (r, w') →
  ∃ t,
    hist w' = hist w ++ t
    ∧ ∀ remote path res,
        CommUpload remote (FromFile path) res ∈ t →
        remote = RemotePath cfg
        ∧ path ∈ (scriptList env cfg
                    (ui_Say env "Provisioning with Powershell..." w)).1.
Proof.
  unfold Provision.
  set (w1 := ui_Say env "Provisioning with Powershell..." w).
  destruct (scriptList_footprint env cfg w1) as (t2 & Ht2 & _ & Hup2).
  destruct (scriptList env cfg w1) as [scripts w2]. cbn [fst snd] in *.
  destruct (provisionScripts env fuel cfg scripts [] w2)
    as [[[r' d'] w3]| |] eqn:Hscripts; try done.
  intros [= <- <-].
  apply provisionScripts_footprint in Hscripts as (t3 & Ht3 & -> & Hup3).
  exists ([UiSay "Provisioning with Powershell..."] ++ t2 ++ t3
          ++ (FileClose <$> reverse (opened_in t3) ++ [])).
  split.
  { rewrite hist_runDeferred, Ht3, Ht2. unfold w1, ui_Say.
    rewrite hist_emit, <- !app_assoc. reflexivity. }
  intros remote path res Hin.
  assert (Hu : (remote, path) ∈ file_uploads t3).
  { assert (Hall : (remote, path)
                   ∈ file_uploads ([UiSay "Provisioning with Powershell..."]
                                   ++ t2 ++ t3
                                   ++ (FileClose <$> reverse (opened_in t3) ++ []))).
    { unfold file_uploads. apply list_elem_of_omap.
      exists (CommUpload remote (FromFile path) res). done. }
    rewrite !file_uploads_app, Hup2 in Hall. cbn [app file_uploads omap list_omap] in Hall.
    apply elem_of_app in Hall as [|Hclose]; [done|].
    exfalso. revert Hclose. generalize (reverse (opened_in t3) ++ []).
    intros l. induction l as [|p l IH]; cbn; [apply not_elem_of_nil|exact IH]. }
  rewrite Forall_forall in Hup3. by apply (Hup3 (remote, path)).
Qed.

Lemma provision_uploads_only_scripts_witness :
  ∃ r w' t,
    Provision (demo_env (flaky_start 0 0)) 1 demo_config world0 = Done (r, w')
    ∧ hist w' = hist world0 ++ t
    ∧ ∀ remote path res,
        CommUpload remote (FromFile path) res ∈ t →
        remote = RemotePath demo_config ∧ path ∈ ["a.ps1"].
Proof.
  eexists _, _.
  edestruct (provision_uploads_only_scripts (demo_env (flaky_start 0 0)) 1
               demo_config world0) as (t & Ht & Hup).
  { vm_compute. reflexivity. }
  exists t. split; [vm_compute; reflexivity|]. split; [exact Ht|exact Hup].
Defined.

(** * The errors of [Provision], and the keys of the environment *)

Lemma retryable_loop_error (env : Env) {C} (f : Closure C) (fuel : nat)
    (dl : Z) :
  ∀ c w err c' w',
    retryable_loop env fuel dl f c w = Some (Some err, c', w') →
    ∃ e, err = "Retryable error: " +:+ e.
Proof.
  induction fuel as [|fuel IH]; intros c w err c' w'; [done|].
  cbn [retryable_loop].
  destruct (f c w) as [[[e|] c1] w1]; [|done].
  destruct (decide _); [|apply IH].
  intros [= <- <- <-]. by exists e.
Qed.

Section Errors.

Variable env : Env.
Variable fuel : nat.
Variable cfg : Config.

Lemma provisionScript_error (path : string) deferred w err d' w' :
  provisionScript env fuel cfg path deferred w = Done (Some err, d', w') →
  ∃ rest,
    err = "Error opening powershell script: " +:+ rest
    ∨ err = "Error processing command: " +:+ rest
    ∨ err = "Retryable error: " +:+ rest
    ∨ err = "Script exited with non-zero exit status: " +:+ rest.
Proof.
  unfold provisionScript.
  destruct (os_Open env path _) as [[e|] w3].
  { intros [= <- <- <-]. eauto. }
  destruct (createCommandText env cfg w3) as [[[e|command] w4]|]; [| |done].
  { intros [= <- <- <-]. eauto. }
  unfold retryable.
  destruct (retryable_loop env fuel _ _ None w4) as [[[[e|] cmd] w5]|] eqn:Hloop;
    [| |done].
  { intros [= <- <- <-]. apply retryable_loop_error in Hloop as [e' ->]. eauto. }
  destruct cmd as [cmd|]; [|done].
  destruct (validExitCode _ _); [done|]. intros [= <- <- <-]. eauto 6.
Qed.

Lemma provisionScripts_error (scripts : list string) :
  ∀ deferred w err d' w',
    provisionScripts env fuel cfg scripts deferred w = Done (Some err, d', w') →
    ∃ rest,
      err = "Error opening powershell script: " +:+ rest
      ∨ err = "Error processing command: " +:+ rest
      ∨ err = "Retryable error: " +:+ rest
      ∨ err = "Script exited with non-zero exit status: " +:+ rest.
Proof.
  induction scripts as [|path scripts IH]; intros deferred w err d' w'; [done|].
  cbn [provisionScripts].
  destruct (provisionScript env fuel cfg path deferred w)
    as [[[[e|] d1] w1]| |] eqn:Hpath; try done.
  - intros [= <- <- <-]. by apply provisionScript_error in Hpath.
  - apply IH.
Qed.

End Errors.

(** X18.  An error that [Provision] returns is of one of four kinds, told
    by its first words: the script could not be opened; the command could
    not be rendered; the upload and start kept failing until the retry
    timeout; the script exited with a status that is not valid.  Nothing
    else is ever returned, in particular not the error of extracting the
    inline commands. *)
Theorem provision_error_kinds (env : Env) (fuel : nat) (cfg : Config)
    (w : World) (err : error) (w' : World) :
  Provision env fuel cfg w = Done (Some err, w') →
  ∃ rest,
    err = "Error opening powershell script: " +:+ rest
    ∨ err = "Error processing command: " +:+ rest
    ∨ err = "Retryable error: " +:+ rest
    ∨ err = "Script exited with non-zero exit status: " +:+ rest.
Proof.
  unfold Provision.
  destruct (scriptList env cfg _) as [scripts w2].
  destruct (provisionScripts env fuel cfg scripts [] w2)
    as [[[[e|] d'] w3]| |] eqn:Hscripts; try done.
  intros [= <- <-]. by apply provisionScripts_error in Hscripts.
Qed.

Lemma provision_error_kinds_witness :
  ∃ w',
    Provision (demo_env never_start) 4 demo_config world0
    = Done (Some "Retryable error: connection refused", w')
    ∧ ∃ rest,
        "Retryable error: connection refused"
        = "Error opening powershell script: " +:+ rest
        ∨ "Retryable error: connection refused"
          = "Error processing command: " +:+ rest
        ∨ "Retryable error: connection refused" = "Retryable error: " +:+ rest
        ∨ "Retryable error: connection refused"
          = "Script exited with non-zero exit status: " +:+ rest.
Proof.
  eexists. split; [vm_compute; reflexivity|].
  eapply (provision_error_kinds (demo_env never_start) 4 demo_config world0).
  vm_compute. reflexivity.
Defined.

(** X19.  The merged environment holds the reserved variables and the
    configured ones and nothing else: a key is bound exactly when it is
    [PACKER_BUILD_NAME] or [PACKER_BUILDER_TYPE], or [PACKER_HTTP_ADDR]
    with an HTTP address that is not empty, or the key of a configured
    variable.  So without an HTTP address and without a variable of that
    name, [PACKER_HTTP_ADDR] is not defined at all, rather than defined as
    empty. *)
Theorem merged_keys_exact (env : Env) (cfg : Config) :
  Forall wellFormedVar (elems (Vars cfg)) →
  ∃ envVars,
    mergedEnvVars env cfg = Some envVars
    ∧ (∀ key,
         is_Some (envVars !! key)
         ↔ key = "PACKER_BUILD_NAME" ∨ key = "PACKER_BUILDER_TYPE"
           ∨ (key = "PACKER_HTTP_ADDR" ∧ env_httpAddr env ≠ "")
           ∨ Some key ∈ keyOf <$> elems (Vars cfg))
    ∧ (env_httpAddr env = "" →
       Some "PACKER_HTTP_ADDR" ∉ keyOf <$> elems (Vars cfg) →
       envVars !! "PACKER_HTTP_ADDR" = None).
Proof.
  intros Hwf.
  pose proof (mergedEnvVars_wellFormed env cfg Hwf) as Hmerged.
  set (envVars := assignAll _ _) in Hmerged.
  assert (Hkeys : ∀ key,
            is_Some (envVars !! key)
            ↔ key = "PACKER_BUILD_NAME" ∨ key = "PACKER_BUILDER_TYPE"
              ∨ (key = "PACKER_HTTP_ADDR" ∧ env_httpAddr env ≠ "")
              ∨ Some key ∈ keyOf <$> elems (Vars cfg)).
  { intros key. rewrite <- elem_of_dom. unfold envVars.
    rewrite dom_assignAll, elem_of_union, elem_of_list_to_set.
    rewrite (keyOf_parseVars _ Hwf).
    rewrite (list_elem_of_fmap_inj Some).
    unfold reservedEnvVars. destruct (decide (env_httpAddr env ≠ "")).
    - rewrite !dom_insert_L, dom_empty_L, !elem_of_union, !elem_of_singleton,
        elem_of_empty. tauto.
    - rewrite !dom_insert_L, dom_empty_L, !elem_of_union, !elem_of_singleton,
        elem_of_empty. tauto. }
  exists envVars. split; [exact Hmerged|]. split; [exact Hkeys|].
  intros Haddr Huser.
  destruct (envVars !! "PACKER_HTTP_ADDR") as [v|] eqn:Hv; [|done].
  exfalso. assert (Hsome : is_Some (envVars !! "PACKER_HTTP_ADDR")) by eauto.
  apply Hkeys in Hsome as [?|[?|[[_ ?]|?]]]; done.
Qed.

Lemma merged_keys_exact_witness :
  ∃ envVars,
    mergedEnvVars (demo_env never_start) demo_config = Some envVars
    ∧ envVars !! "PACKER_HTTP_ADDR" = None
    ∧ is_Some (envVars !! "FOO").
Proof.
  destruct (merged_keys_exact (demo_env never_start) demo_config)
    as (envVars & Hmerged & Hkeys & Hnone).
  - repeat constructor; vm_compute; eauto.
  - exists envVars. split; [exact Hmerged|]. split.
    + apply Hnone; [reflexivity|]. vm_compute. intros Hin.
      repeat (apply elem_of_cons in Hin as [?|Hin]; [done|]).
      by apply elem_of_nil in Hin.
    + apply Hkeys. right; right; right. vm_compute. apply list_elem_of_here.
Defined.
